(** * BloxMate: the supervisor router and the embedding pipeline

    A shallow embedding of [server/supervisor.py], [server/response.py] and
    [server/vectorizer.py], and the properties of routing, escalation and
    caching proved about it.

    Python [str] values are sequences of Unicode code points; they are
    modelled as [list N].  External services (completion service, web
    requests, document loaders, the FAISS library, the file system) are
    explicit parameters of the functions that call them, and a call that may
    raise returns a [result]. *)

From Stdlib Require Import List String Ascii ZArith NArith QArith Lia Bool.
From stdpp Require Import base option list gmap.

Abbreviation text := (list N).

(** Outcome of a Python call: a value, or a raised exception with its
    message ([str(e)]). *)
Inductive result (A : Type) : Type :=
| Ok (a : A)
| Raise (msg : text).
Arguments Ok {A} a.
Arguments Raise {A} msg.

(** ** Python string primitives *)
Module Py.

Fixpoint codes (s : string) : text :=
  match s with
  | EmptyString => []
  | String a s' => N_of_ascii a :: codes s'
  end.
Arguments codes _%_string : simpl never.

Definition NL : N := 10.

(** [s.startswith(p)] *)
Fixpoint startswith (p s : text) : bool :=
  match p, s with
  | [], _ => true
  | _ :: _, [] => false
  | a :: p', b :: s' => (a =? b)%N && startswith p' s'
  end.

(** [needle in hay] *)
Fixpoint contains (needle hay : text) : bool :=
  startswith needle hay ||
  match hay with
  | [] => false
  | _ :: hay' => contains needle hay'
  end.

(** [s.split(sep)] for a non-empty separator: the pieces between the
    non-overlapping occurrences of [sep], scanned from the left.  [skip]
    counts the characters of a separator still to be consumed. *)
Fixpoint split_go (sep : text) (skip : nat) (cur s : text) : list text :=
  match s with
  | [] => [reverse cur]
  | x :: s' =>
      match skip with
      | S k => split_go sep k cur s'
      | O =>
          if startswith sep s
          then reverse cur :: split_go sep (List.length sep - 1) [] s'
          else split_go sep 0 (x :: cur) s'
      end
  end.

Definition split (sep s : text) : list text := split_go sep 0 [] s.

(** [str.isspace] on one code point. *)
Definition isspace (c : N) : bool :=
  ((9 <=? c) && (c <=? 13) || (28 <=? c) && (c <=? 32) ||
   (c =? 133) || (c =? 160) || (c =? 5760) ||
   (8192 <=? c) && (c <=? 8202) || (c =? 8232) || (c =? 8233) ||
   (c =? 8239) || (c =? 8287) || (c =? 12288))%N.

Fixpoint lstrip (s : text) : text :=
  match s with
  | [] => []
  | c :: s' => if isspace c then lstrip s' else s
  end.

Definition rstrip (s : text) : text := reverse (lstrip (reverse s)).

(** [s.strip()] *)
Definition strip (s : text) : text := rstrip (lstrip s).

(** [sep.join(parts)] *)
Fixpoint join (sep : text) (parts : list text) : text :=
  match parts with
  | [] => []
  | [p] => p
  | p :: rest => p ++ sep ++ join sep rest
  end.

(** [s.replace(old, new)] for a non-empty [old]. *)
Definition replace (old new s : text) : text := join new (split old s).

(** The line boundaries of [str.splitlines]. *)
Definition is_linebreak (c : N) : bool :=
  ((10 <=? c) && (c <=? 13) || (28 <=? c) && (c <=? 30) ||
   (c =? 133) || (c =? 8232) || (c =? 8233))%N.

(** [s.splitlines()]: a carriage return followed by a line feed is one
    boundary, and no empty last line is produced. *)
Fixpoint splitlines_go (cur s : text) : list text :=
  match s with
  | [] => match cur with [] => [] | _ => [reverse cur] end
  | c :: s' =>
      if is_linebreak c then
        match c, s' with
        | 13%N, 10%N :: s'' => reverse cur :: splitlines_go [] s''
        | _, _ => reverse cur :: splitlines_go [] s'
        end
      else splitlines_go (c :: cur) s'
  end.

Definition splitlines (s : text) : list text := splitlines_go [] s.

(** [s.lower()], exact on every character whose lowercase contains an ASCII
    character: the ASCII capitals, the Kelvin sign (U+212A) and the dotted
    capital I (U+0130, which lowers to [i] followed by U+0307).  Other
    characters are left as they are; their lowercase is never ASCII, so
    searching the result for an ASCII word gives what Python gives. *)
Definition lower_char (c : N) : text :=
  if ((65 <=? c) && (c <=? 90))%N then [(c + 32)%N]
  else if (c =? 8490)%N then [107%N]
  else if (c =? 304)%N then [105%N; 775%N]
  else [c].

Definition lower (s : text) : text := flat_map lower_char s.

(** The longest prefix of [s] whose characters satisfy [p], and the rest. *)
Fixpoint takewhile (p : N -> bool) (s : text) : text :=
  match s with
  | [] => []
  | c :: s' => if p c then c :: takewhile p s' else []
  end.

Fixpoint dropwhile (p : N -> bool) (s : text) : text :=
  match s with
  | [] => []
  | c :: s' => if p c then dropwhile p s' else s
  end.

(** Decimal rendering of a natural number ([str(n)]). *)
Fixpoint digits_go (fuel : nat) (n : N) (acc : text) : text :=
  match fuel with
  | O => acc
  | S fuel' =>
      let acc' := (48 + n mod 10)%N :: acc in
      if (n <? 10)%N then acc' else digits_go fuel' (n / 10)%N acc'
  end.

Definition str_of_N (n : N) : text := digits_go (S (N.to_nat (N.log2 n))) n [].

End Py.

Import Py.

(** ** Regular expressions: the fragment of Python's [re] the program uses *)
Module Re.

Inductive regex : Type :=
| Void
| Eps
| Lit (c : N)
| Dot
| Digit
| Cat (r1 r2 : regex)
| Alt (r1 r2 : regex)
| Star (r : regex).

(** A literal word of the pattern. *)
Definition word (w : text) : regex :=
  fold_right (fun c r => Cat (Lit c) r) Eps w.

Definition str (s : string) : regex := word (codes s).
Arguments str _%_string.

(** [r+] *)
Definition Plus (r : regex) : regex := Cat r (Star r).

Definition is_digit (x : N) : bool := ((48 <=? x) && (x <=? 57))%N.

Definition is_ascii_letter (c : N) : bool :=
  ((65 <=? c) && (c <=? 90) || (97 <=? c) && (c <=? 122))%N.

Definition ascii_lower (c : N) : N :=
  if ((65 <=? c) && (c <=? 90))%N then (c + 32)%N else c.

(** A literal of the pattern against a character of the text.  Without
    [re.IGNORECASE] the two are equal.  With it, an ASCII letter of the
    pattern accepts the characters whose lowercase is that letter (the
    letter, its capital, U+0130 for [i], U+212A for [k]) and the characters
    the [re] module holds equivalent to it (U+0131 for [i], U+017F for
    [s]).  The patterns of this program are ASCII; a literal that is not an
    ASCII letter accepts itself only. *)
Definition lit_matches (icase : bool) (c x : N) : bool :=
  if icase && is_ascii_letter c then
    let lo := ascii_lower c in
    ((x =? lo) || (x =? lo - 32) ||
     (lo =? 105) && ((x =? 304) || (x =? 305)) ||
     (lo =? 115) && (x =? 383) ||
     (lo =? 107) && (x =? 8490))%N
  else (x =? c)%N.

Fixpoint nullable (r : regex) : bool :=
  match r with
  | Void | Lit _ | Dot | Digit => false
  | Eps | Star _ => true
  | Cat a b => nullable a && nullable b
  | Alt a b => nullable a || nullable b
  end.

(** The residual of [r] after reading the character [x]. *)
Fixpoint deriv (icase : bool) (x : N) (r : regex) : regex :=
  match r with
  | Void | Eps => Void
  | Lit c => if lit_matches icase c x then Eps else Void
  | Dot => if (x =? NL)%N then Void else Eps
  | Digit => if is_digit x then Eps else Void
  | Cat a b =>
      if nullable a
      then Alt (Cat (deriv icase x a) b) (deriv icase x b)
      else Cat (deriv icase x a) b
  | Alt a b => Alt (deriv icase x a) (deriv icase x b)
  | Star a => Cat (deriv icase x a) (Star a)
  end.

(** [re.match(r, s)] is not [None]: some prefix of [s] matches. *)
Fixpoint match_at (icase : bool) (r : regex) (s : text) : bool :=
  nullable r ||
  match s with
  | [] => false
  | x :: s' => match_at icase (deriv icase x r) s'
  end.

(** [re.search(r, s)] is not [None]: the pattern matches at some position,
    tried from the left. *)
Fixpoint search (icase : bool) (r : regex) (s : text) : bool :=
  match_at icase r s ||
  match s with
  | [] => false
  | _ :: s' => search icase r s'
  end.

(** The language of a pattern. *)
Inductive matches (icase : bool) : regex -> text -> Prop :=
| MEps : matches icase Eps []
| MLit c x : lit_matches icase c x = true -> matches icase (Lit c) [x]
| MDot x : x <> NL -> matches icase Dot [x]
| MDigit x : is_digit x = true -> matches icase Digit [x]
| MCat a b s t :
    matches icase a s -> matches icase b t -> matches icase (Cat a b) (s ++ t)
| MAltL a b s : matches icase a s -> matches icase (Alt a b) s
| MAltR a b s : matches icase b s -> matches icase (Alt a b) s
| MStar0 a : matches icase (Star a) []
| MStarS a s t :
    matches icase a s -> matches icase (Star a) t ->
    matches icase (Star a) (s ++ t).

(** No literal of the pattern is a line feed. *)
Fixpoint nl_free (r : regex) : bool :=
  match r with
  | Lit c => negb (c =? NL)%N
  | Cat a b | Alt a b => nl_free a && nl_free b
  | Star a => nl_free a
  | Void | Eps | Dot | Digit => true
  end.

End Re.

(** ** Python floats: the binary64 value of a decimal literal *)
Module Float64.

(** [round_half_even n d]: the integer nearest to [n / d], ties to even. *)
Definition round_half_even (n d : Z) : Z :=
  let q := (n / d)%Z in
  let r := (n mod d)%Z in
  if (2 * r <? d)%Z then q
  else if (d <? 2 * r)%Z then (q + 1)%Z
  else if Z.even q then q else (q + 1)%Z.

(** The exponent [e] of the binary64 number nearest to [n / d]: the
    significand of a normal number has 53 bits, and the exponent of a
    subnormal one is -1074. *)
Definition exponent (n d : Z) : Z :=
  let l := (Z.log2 n - Z.log2 d)%Z in
  let lg :=
    if (0 <=? l)%Z
    then (if (d * 2 ^ l <=? n)%Z then l else l - 1)%Z
    else (if (d <=? n * 2 ^ (- l))%Z then l else l - 1)%Z in
  Z.max (lg - 52) (-1074).

(** The binary64 number nearest to [n / d] (for [0 <= n], [0 < d] and a
    quotient below the overflow threshold), as an exact rational. *)
Definition nearest (n d : Z) : Q :=
  if (n <=? 0)%Z then 0%Q
  else
    let e := exponent n d in
    if (0 <=? e)%Z
    then inject_Z (round_half_even n (d * 2 ^ e) * 2 ^ e)
    else Qred (Qmake (round_half_even (n * 2 ^ (- e)) d) (Z.to_pos (2 ^ (- e)))).

(** The number a run of decimal digits denotes. *)
Definition digit_value (c : N) : Z := (Z.of_N c - 48)%Z.

Definition int_of_digits (ds : text) : Z :=
  fold_left (fun acc c => (10 * acc + digit_value c)%Z) ds 0%Z.

(** [float(s)] for a literal [s] with digits on both sides of one point,
    the only form [classify_query] passes to it; on another string this
    definition raises. *)
Definition float (s : text) : result Q :=
  let ip := takewhile Re.is_digit s in
  match dropwhile Re.is_digit s with
  | 46%N :: fp =>
      if forallb Re.is_digit fp && negb (Nat.eqb (List.length ip) 0)
         && negb (Nat.eqb (List.length fp) 0)
      then Ok (nearest (int_of_digits (ip ++ fp)) (10 ^ Z.of_nat (List.length fp)))
      else Raise (codes "could not convert string to float")
  | _ => Raise (codes "could not convert string to float")
  end.

(** The literals [0.6] and [0.5] of the source. *)
Definition lit_0_6 : Q := nearest 6 10.
Definition lit_0_5 : Q := nearest 5 10.

End Float64.

(** ** Data shared by the retrieval responder and the embedding pipeline *)

(** A row of the embedding store (the columns of the parquet file). *)
Record row : Type := {
  id : text;
  content : text;
  embedding : list Q;
  source_url : text;
  title : text;
  deep_link : text;
  deep_link_description : text
}.

(** The metadata columns handed to the vector store. *)
Record metadata : Type := {
  m_source_url : text;
  m_title : text;
  m_deep_link : text;
  m_deep_link_description : text
}.

(** A FAISS vector store, identified with the entries it holds.  It is only
    produced by the library ([from_embeddings], [load_local]). *)
Record Index : Type := { docstore : list (text * list Q * metadata) }.

(** What a path of the file system holds. *)
Inductive artifact : Type :=
| Blob (bytes : list N)
| ParquetFile (rows : list row)
| FaissDir (idx : Index)
| JsonFile (cache : gmap text bool).

(** ** Effects: standard output, its redirection, the disk, a call log *)
Module Eff.

Inductive event : Type :=
| PathExists (p : text)
| ReadBytes (p : text)
| LoadIndex (p : text)
| SaveIndex (p : text)
| ReadParquet (p : text)
| WriteParquet (p : text)
| ReadJson (p : text)
| WriteJson (p : text)
| Embed (batch : list text).

(** [stdout] is the process's standard output; [captured] is the
    [io.StringIO] buffer [sys.stdout] points to while it is redirected. *)
Record state : Type := {
  stdout : text;
  captured : option text;
  disk : gmap text artifact;
  log : list event
}.

Definition set_stdout (out : text) (st : state) : state :=
  {| stdout := out; captured := captured st; disk := disk st; log := log st |}.

Definition set_captured (c : option text) (st : state) : state :=
  {| stdout := stdout st; captured := c; disk := disk st; log := log st |}.

Definition set_disk (d : gmap text artifact) (st : state) : state :=
  {| stdout := stdout st; captured := captured st; disk := d; log := log st |}.

Definition add_log (ev : event) (st : state) : state :=
  {| stdout := stdout st; captured := captured st; disk := disk st;
     log := log st ++ [ev] |}.

Definition M (A : Type) : Type := state -> result A * state.

Definition ret {A} (a : A) : M A := fun st => (Ok a, st).

Definition bind {A B} (m : M A) (k : A -> M B) : M B :=
  fun st =>
    match m st with
    | (Ok a, st') => k a st'
    | (Raise e, st') => (Raise e, st')
    end.

Definition raise {A} (e : text) : M A := fun st => (Raise e, st).

(** [try: m except Exception as e: h e] *)
Definition try_except {A} (m : M A) (h : text -> M A) : M A :=
  fun st =>
    match m st with
    | (Ok a, st') => (Ok a, st')
    | (Raise e, st') => h e st'
    end.

(** The outcome of a call to an external service. *)
Definition call {A} (r : result A) : M A := fun st => (r, st).

Definition emit (ev : event) : M unit := fun st => (Ok tt, add_log ev st).

(** [print(s)]: to the buffer [sys.stdout] is redirected to, if any. *)
Definition print (s : text) : M unit :=
  fun st =>
    (Ok tt,
     match captured st with
     | Some buf => set_captured (Some (buf ++ s ++ [NL])) st
     | None => set_stdout (stdout st ++ s ++ [NL]) st
     end).

(** [captured_output = io.StringIO(); sys.stdout = captured_output] *)
Definition redirect_stdout : M unit :=
  fun st => (Ok tt, set_captured (Some []) st).

(** [sys.stdout = old_stdout], and [captured_output.getvalue()]. *)
Definition restore_stdout : M text :=
  fun st => (Ok (default [] (captured st)), set_captured None st).

(** [os.path.exists(p)] *)
Definition path_exists (p : text) : M bool :=
  fun st => (Ok (bool_decide (is_Some (disk st !! p))), add_log (PathExists p) st).

Definition read_artifact (p : text) : M (option artifact) :=
  fun st => (Ok (disk st !! p), st).

Definition write_artifact (p : text) (a : artifact) : M unit :=
  fun st => (Ok tt, set_disk (<[p := a]> (disk st)) st).

End Eff.

Import Eff.

Notation "'let*' x := m 'in' k" := (bind m (fun x => k))
  (at level 10, x name, m at level 100, k at level 200).
Notation "'let*' ' p := m 'in' k" := (bind m (fun x => match x with p => k end))
  (at level 10, p strict pattern, m at level 100, k at level 200).

(** [for x in l: body x] *)
Fixpoint for_each {A} (l : list A) (body : A -> M unit) : M unit :=
  match l with
  | [] => ret tt
  | x :: l' => let* _ := body x in for_each l' body
  end.

(** ** [response.py]: the retrieval responder *)
Module Response.

(** The services [response.py] calls: the chat model ([chat_model.invoke],
    giving [response.content] for a system and a user message), the FAISS
    constructor and the retriever (the [page_content] of the [k] nearest
    documents). *)
Record Services : Type := {
  chat_model_invoke : text -> text -> result text;
  from_embeddings : list (text * list Q) -> list metadata -> result Index;
  get_relevant_documents : Index -> text -> nat -> result (list text)
}.

Definition infoblox_keywords : list text :=
  [ codes "infoblox"; codes "nios"; codes "ipam"; codes "dddi"; codes "tdi";
    codes "netmri"; codes "bloxone"; codes "network insight";
    codes "cloud dhcp"; codes "cloud dns"; codes "cloud ipam";
    codes "bloxone threat defense"; codes "grid manager";
    codes "dns firewall"; codes "infoblox api"; codes "ib-nios";
    codes "bloxapp"; codes "threat intelligence"; codes "data connector";
    codes "reporting server"; codes "ib appliance";
    codes "infoblox central" ].

Definition is_infoblox_query (query : text) : bool :=
  existsb (fun keyword => contains keyword (lower query)) infoblox_keywords.

Definition GPT_ANSWER_MARKER : text := 128172%N :: codes " GPT-4o Answer:".
Definition RAG_ANSWER_MARKER : text := 128172%N :: codes " RAG Answer:".

Definition answer_direct_gpt (svc : Services) (query : text) : M unit :=
  let* _ := print ([NL; 129302%N]
                   ++ codes " Using GPT-4o for Infoblox-related question:"
                   ++ [NL; 128269%N; 32%N] ++ query) in
  let* response :=
    call (chat_model_invoke svc
            (codes "You are an expert on Infoblox products and services. Answer clearly, concisely, and accurately.")
            query) in
  let* _ := print ([NL] ++ GPT_ANSWER_MARKER ++ [NL]) in
  print response.

(** [FAISS.load_local(p, ...)]: a path that holds no index raises. *)
Definition load_local (p : text) : M Index :=
  let* _ := emit (LoadIndex p) in
  let* a := read_artifact p in
  match a with
  | Some (FaissDir idx) => ret idx
  | _ => raise (codes "could not load the index")
  end.

(** [vectorstore.save_local(p)] *)
Definition save_local (vectorstore : Index) (p : text) : M unit :=
  let* _ := emit (SaveIndex p) in
  write_artifact p (FaissDir vectorstore).

(** [pd.read_parquet(p)]: a path that holds no parquet file raises. *)
Definition read_parquet (p : text) : M (list row) :=
  let* _ := emit (ReadParquet p) in
  let* a := read_artifact p in
  match a with
  | Some (ParquetFile rows) => ret rows
  | _ => raise (codes "could not read the parquet file")
  end.

Definition metadata_of (r : row) : metadata :=
  {| m_source_url := source_url r; m_title := title r;
     m_deep_link := deep_link r;
     m_deep_link_description := deep_link_description r |}.

Definition load_cached_vectorstore (svc : Services) (parquet_path faiss_path : text)
  : M Index :=
  let* cached := path_exists faiss_path in
  if cached then
    let* _ := print ([128257%N] ++ codes " Using cached FAISS index from: "
                     ++ faiss_path) in
    load_local faiss_path
  else
    let* _ := print ([128196%N] ++ codes " Loading embeddings from Parquet: "
                     ++ parquet_path) in
    let* df := read_parquet parquet_path in
    let texts := map content df in
    let embeddings := map embedding df in
    let metadatas := map metadata_of df in
    let* _ := print ([9881%N; 65039%N]
                     ++ codes " Creating FAISS vectorstore from cached embeddings...") in
    let embedding_text_tuples := combine texts embeddings in
    let* vectorstore := call (from_embeddings svc embedding_text_tuples metadatas) in
    let* _ := save_local vectorstore faiss_path in
    let* _ := print ([9989%N] ++ codes " FAISS index saved to: " ++ faiss_path) in
    ret vectorstore.

Definition run_rag_query (svc : Services) (query : text) (vectorstore : Index)
  (k : nat) : M unit :=
  let* _ := print ([NL; 128269%N] ++ codes " Query: " ++ query) in
  let* docs := call (get_relevant_documents svc vectorstore query k) in
  let context := join [NL; NL] docs in
  let system_msg :=
    codes "You are a helpful assistant answering questions based on internal documents. Respond using the provided context only." in
  let user_msg :=
    [NL] ++ codes "Use the context below to answer the question. Be concise and accurate. Do not include any formatting."
    ++ [NL; NL] ++ codes "Context:" ++ [NL] ++ context
    ++ [NL; NL] ++ codes "Question: " ++ query ++ [NL] in
  let* response := call (chat_model_invoke svc system_msg user_msg) in
  let* _ := print ([NL] ++ RAG_ANSWER_MARKER ++ [NL]) in
  print response.

End Response.

(** ** [supervisor.py]: classification, routing, escalation *)
Module Supervisor.
Import Re.

Definition seq (rs : list regex) : regex := fold_right Cat Eps rs.
Definition alts (rs : list regex) : regex := fold_right Alt Void rs.

Definition INSUFFICIENT_ANSWER_PATTERNS : list regex :=
  [ seq [str "does not contain "; Star Dot; str " information"];
    str "may need to refer to additional resources";
    seq [str "no"; alts [str "t"; str " detailed"; str " specific"];
         str " information "; Star Dot; str " ";
         alts [str "available"; str "found"; str "provided"]];
    seq [str "cannot provide "; Star Dot; str " ";
         alts [str "details"; str "information"]];
    seq [str "I don't have "; Star Dot; str " specific information"];
    seq [str "The context "; Star Dot; str " doesn't mention"];
    str "not mentioned in the context";
    seq [str "no mention of "; Star Dot; str " in the provided context"] ].

(** The loop returns [True] at the first pattern found in the answer. *)
Definition is_insufficient_answer (answer : text) : bool :=
  existsb (fun pattern => search true pattern answer)
          INSUFFICIENT_ANSWER_PATTERNS.

Definition AGENT_TAGS : list text :=
  [ codes "product"; codes "learning"; codes "org_chart";
    codes "workplace_comms"; codes "onboarding" ].

(** The two patterns of [classify_query]. *)
Definition AGENT_RE : regex :=
  Cat (str "AGENT:") (alts (map word AGENT_TAGS)).

Definition CONFIDENCE_RE : regex :=
  seq [str "CONFIDENCE:"; Digit; Lit 46; Plus Digit].

(** The leftmost position of [s] at which [at_pos] succeeds, as [re.search]
    tries the positions. *)
Fixpoint search_group {A} (at_pos : text -> option A) (s : text) : option A :=
  match at_pos s with
  | Some g => Some g
  | None =>
      match s with
      | [] => None
      | _ :: s' => search_group at_pos s'
      end
  end.

(** Group 1 of [AGENT:(product|learning|org_chart|workplace_comms|onboarding)]
    at the start of [s]: the first alternative, in the order written, that
    follows the prefix. *)
Definition agent_at (s : text) : option text :=
  if startswith (codes "AGENT:") s
  then List.find (fun t => startswith t (skipn 6 s)) AGENT_TAGS
  else None.

(** Group 1 of [CONFIDENCE:([0-9]\.[0-9]+)] at the start of [s]: one digit,
    the point, and the longest run of digits, which must not be empty. *)
Definition confidence_at (s : text) : option text :=
  if startswith (codes "CONFIDENCE:") s then
    match skipn 11 s with
    | d :: 46%N :: rest =>
        match takewhile is_digit rest with
        | [] => None
        | frac => if is_digit d then Some (d :: 46%N :: frac) else None
        end
    | _ => None
    end
  else None.

Definition agent_match (result : text) : option text :=
  search_group agent_at result.

Definition confidence_match (result : text) : option text :=
  search_group confidence_at result.

(** The part of [classify_query] after the completion call: [content] is
    [response.choices[0].message.content]. *)
Definition parse_classification (content : text) : result (text * Q) :=
  let result := strip content in
  match agent_match result, confidence_match result with
  | Some agent_type, Some g =>
      match Float64.float g with
      | Ok confidence => Ok (agent_type, confidence)
      | Raise e => Raise e
      end
  | _, _ => Ok (codes "product", Float64.lit_0_5)
  end.

(** A dictionary of [linkedin.search_linkedin_courses]: a course, or the
    entry with the key [error]. *)
Inductive course : Type :=
| CourseInfo (title link : text)
| CourseError (error : text).

(** A result block of the search page as BeautifulSoup gives it: the text
    of its [h3], the [href] of its link, the text of its snippet. *)
Record div : Type := {
  title_elem : option text;
  link_href : option text;
  snippet_elem : option text
}.

(** An HTTP response: the status code and, of the parsed body, the result
    blocks ([soup.find_all('div', class_='g')]) and the text of the page
    without its scripts and styles ([soup.get_text(separator='\n')]). *)
Record http_response : Type := {
  status_code : N;
  result_divs : list div;
  page_text : text
}.

Record search_result : Type := {
  sr_title : text;
  sr_url : text;
  sr_snippet : text
}.

(** The services [supervisor.py] calls.  [classify_completion q] is the
    content of the completion for the classification prompt of the query
    [q]; [online_completion q initial context] the one for the escalation
    prompt.  The other responders are collaborators: each is the outcome of
    its call, a value or an exception. *)
Record Services : Type := {
  kb : Response.Services;
  classify_completion : text -> result text;
  online_completion : text -> text -> text -> result text;
  requests_get : text -> result http_response;
  search_linkedin_courses : text -> result (list course);
  process_courses : list course -> result (list text);
  org_chart_run : text -> result text;
  handle_workplace_query : text -> result text;
  onboarding_run : text -> result text;
  onboarding_simple_search : text -> result (list (text * text))
}.

Definition classify_query (svc : Services) (query : text) : M (text * Q) :=
  let* content := call (classify_completion svc query) in
  call (parse_classification content).

Definition error_result (snippet : text) : search_result :=
  {| sr_title := codes "Error"; sr_url := []; sr_snippet := snippet |}.

(** One result block of [search_web]; [None] when the block raises (the
    block is then skipped). *)
Definition parse_div (d : div) : option search_result :=
  let title := default (codes "No title") (title_elem d) in
  let url := default [] (link_href d) in
  let snippet := default (codes "No description") (snippet_elem d) in
  if startswith (codes "/url?") url then
    match nth_error (split (codes "q=") url) 1 with
    | Some after =>
        Some {| sr_title := title;
                sr_url := hd [] (split (codes "&") after);
                sr_snippet := snippet |}
    | None => None
    end
  else Some {| sr_title := title; sr_url := url; sr_snippet := snippet |}.

Fixpoint collect_results (num_results : nat) (divs : list div)
  (search_results : list search_result) : list search_result :=
  match divs with
  | [] => search_results
  | d :: divs' =>
      match parse_div d with
      | None => collect_results num_results divs' search_results
      | Some r =>
          let search_results' := search_results ++ [r] in
          if (num_results <=? List.length search_results')%nat
          then search_results'
          else collect_results num_results divs' search_results'
      end
  end.

(** The address [search_web] requests for a query. *)
Definition search_url (query : text) : text :=
  let search_query := codes "infoblox " ++ query in
  codes "https://www.google.com/search?q="
  ++ replace (codes " ") (codes "+") search_query.

Definition search_web (svc : Services) (query : text) (num_results : nat)
  : M (list search_result) :=
  let* _ := print ([NL; 128270%N]
                   ++ codes " Searching the web for more information about: "
                   ++ query) in
  try_except
    (let* response := call (requests_get svc (search_url query)) in
     if negb (status_code response =? 200)%N then
       ret [error_result (codes "Failed to search. Status code: "
                          ++ str_of_N (status_code response))]
     else
       ret (collect_results num_results
              (firstn num_results (result_divs response)) []))
    (fun e => ret [error_result (codes "Failed to search: " ++ e)]).

Definition TRUNCATED : text := codes "... [text truncated]".

Definition nonempty (s : text) : bool := negb (Nat.eqb (List.length s) 0).

(** The cleaning of the page text in [fetch_webpage_content]: stripped
    lines, split at double spaces, the non-empty pieces joined by line
    feeds. *)
Definition page_chunks (page : text) : text :=
  let lines := map strip (splitlines page) in
  let chunks := flat_map (fun line => map strip (split (codes "  ") line)) lines in
  join [NL] (filter nonempty chunks).

(** The limit on the text length. *)
Definition truncate_page (t : text) : text :=
  if (10000 <? N.of_nat (List.length t))%N
  then firstn (N.to_nat 10000) t ++ TRUNCATED
  else t.

Definition clean_page (page : text) : text := truncate_page (page_chunks page).

Definition fetch_webpage_content (svc : Services) (url : text) : M text :=
  try_except
    (let* response := call (requests_get svc url) in
     if negb (status_code response =? 200)%N then
       ret (codes "Failed to fetch the webpage. Status code: "
            ++ str_of_N (status_code response))
     else ret (clean_page (page_text response)))
    (fun e => ret (codes "Error fetching webpage: " ++ e)).

Definition NOT_FOUND_ONLINE : text :=
  codes "I couldn't find additional information online. Please try a more specific query or check official Infoblox documentation.".

Definition NO_USEFUL_CONTENT : text :=
  codes "I found some resources online, but couldn't extract useful content. Please check official Infoblox documentation for accurate information.".

Record content_piece : Type := {
  cp_title : text;
  cp_url : text;
  cp_content : text
}.

(** The loop over the search results of [search_online_and_respond]. *)
Fixpoint fetch_pieces (svc : Services) (search_results : list search_result)
  (content_pieces : list content_piece) : M (list content_piece) :=
  match search_results with
  | [] => ret content_pieces
  | result :: rest =>
      let* _ := print (codes "  " ++ [128196%N]
                       ++ codes " Fetching content from: " ++ sr_title result) in
      let url := sr_url result in
      match url with
      | [] => fetch_pieces svc rest content_pieces
      | _ :: _ =>
          let* content := fetch_webpage_content svc url in
          match content with
          | [] => fetch_pieces svc rest content_pieces
          | _ :: _ =>
              if negb (startswith (codes "Error") content)
                 && negb (startswith (codes "Failed") content)
              then fetch_pieces svc rest
                     (content_pieces ++
                      [{| cp_title := sr_title result; cp_url := url;
                          cp_content := content |}])
              else fetch_pieces svc rest content_pieces
          end
      end
  end.

Definition source_block (piece : content_piece) : text :=
  codes "Source: " ++ cp_title piece ++ codes " (" ++ cp_url piece
  ++ codes ")" ++ [NL; NL] ++ cp_content piece.

Definition search_online_and_respond (svc : Services) (query initial_answer : text)
  : M text :=
  let* _ := print ([NL; 127760%N]
                   ++ codes " Searching online for more comprehensive information...") in
  let* search_results := search_web svc query 3 in
  match search_results with
  | [] => ret NOT_FOUND_ONLINE
  | first :: _ =>
      if contains (codes "Error") (sr_title first) then ret NOT_FOUND_ONLINE
      else
        let* content_pieces := fetch_pieces svc search_results [] in
        match content_pieces with
        | [] => ret NO_USEFUL_CONTENT
        | _ :: _ =>
            let context := join [NL; NL] (map source_block content_pieces) in
            try_except
              (let* answer := call (online_completion svc query initial_answer context) in
               ret (strip answer))
              (fun e =>
                 ret (codes "I encountered an error while processing online information: "
                      ++ e
                      ++ codes ". Please try again or check official Infoblox documentation."))
        end
  end.

(** The answer [route_query] extracts from the captured output of the
    knowledge-base responder: the lines after the first line that holds an
    answer marker, later marker lines left out. *)
Fixpoint extract_answer (answer_lines : list text) (capture_answer : bool)
  (rag_answer : text) : text :=
  match answer_lines with
  | [] => rag_answer
  | line :: rest =>
      if contains Response.RAG_ANSWER_MARKER line
         || contains Response.GPT_ANSWER_MARKER line
      then extract_answer rest true rag_answer
      else if capture_answer
      then extract_answer rest true (rag_answer ++ line ++ [NL])
      else extract_answer rest capture_answer rag_answer
  end.

(** The two paths of the knowledge-base responder: the direct answer for
    an Infoblox query, retrieval otherwise. *)
Definition kb_answer (svc : Services) (query : text) : M unit :=
  if Response.is_infoblox_query query
  then Response.answer_direct_gpt (kb svc) query
  else
    let* vectorstore :=
      Response.load_cached_vectorstore (kb svc)
        (codes "./output/embeddings.parquet") (codes "./output/faiss_index") in
    Response.run_rag_query (kb svc) query vectorstore 8.

Definition PRODUCT_BANNER : text :=
  [NL; 128269%N] ++ codes " BloxMate Knowledge Base Agent:" ++ [NL].

Definition respond_product (svc : Services) (query : text) : M unit :=
  let* _ := print PRODUCT_BANNER in
  let* _ := redirect_stdout in
  try_except
    (let* _ := kb_answer svc query in
     let* output := restore_stdout in
     let answer_lines := split [NL] output in
     let rag_answer := extract_answer answer_lines false [] in
     let* _ :=
       if nonempty (strip rag_answer)
       then print (strip rag_answer)
       else print (codes "I don't have enough information to answer that question based on my knowledge.") in
     if nonempty rag_answer && is_insufficient_answer rag_answer then
       let* _ := redirect_stdout in
       let* online_answer := search_online_and_respond svc query rag_answer in
       let* _ := restore_stdout in
       print online_answer
     else ret tt)
    (fun _ =>
       let* _ := restore_stdout in
       print (codes "I'm sorry, I couldn't retrieve that information at the moment. Please try again or ask something else.")).

Definition is_course_error (c : course) : bool :=
  match c with CourseError _ => true | CourseInfo _ _ => false end.

Definition LEARNING_BANNER : text :=
  [NL; 127891%N] ++ codes " BloxMate LinkedIn Learning Assistant:" ++ [NL].

Definition respond_learning (svc : Services) (query : text) : M unit :=
  let* _ := print LEARNING_BANNER in
  try_except
    (let* courses := call (search_linkedin_courses svc query) in
     if existsb is_course_error courses
     then print (codes "I couldn't find any relevant LinkedIn Learning courses for your query. Please try a different search term.")
     else
       let* enhanced_courses := call (process_courses svc courses) in
       for_each enhanced_courses
         (fun course =>
            let* _ := print course in
            print (repeat 45%N 40)))
    (fun _ =>
       print (codes "I'm sorry, I couldn't retrieve LinkedIn Learning courses at the moment. Please try again later.")).

Definition ORG_CHART_BANNER : text :=
  [NL; 128101%N] ++ codes " BloxMate Organization Assistant:" ++ [NL].

Definition respond_org_chart (svc : Services) (query : text) : M unit :=
  let* _ := print ORG_CHART_BANNER in
  let* _ := redirect_stdout in
  try_except
    (let* final_output := call (org_chart_run svc query) in
     let* _ := restore_stdout in
     print final_output)
    (fun _ =>
       let* _ := restore_stdout in
       print (codes "I'm sorry, I couldn't retrieve organization information at the moment. Please try again later.")).

Definition WORKPLACE_COMMS_BANNER : text :=
  [NL; 129309%N] ++ codes " BloxMate Workplace Communication Assistant:" ++ [NL].

Definition respond_workplace_comms (svc : Services) (query : text) : M unit :=
  let* _ := print WORKPLACE_COMMS_BANNER in
  let* _ := redirect_stdout in
  try_except
    (let* comms_response := call (handle_workplace_query svc query) in
     let* _ := restore_stdout in
     print comms_response)
    (fun _ =>
       let* _ := restore_stdout in
       print (codes "I'm sorry, I couldn't process your workplace communication query at the moment. Please try again later.")).

Definition ONBOARDING_BANNER : text :=
  [NL; 128640%N] ++ codes " BloxMate Onboarding Assistant:" ++ [NL].

Definition respond_onboarding (svc : Services) (query : text) : M unit :=
  let* _ := print ONBOARDING_BANNER in
  let* _ := redirect_stdout in
  try_except
    (let* final_output := call (onboarding_run svc query) in
     let* _ := restore_stdout in
     print final_output)
    (fun _ =>
       let* _ := restore_stdout in
       let* _ := print (codes "I'm sorry, I couldn't retrieve onboarding information at the moment. Please try again later.") in
       try_except
         (let* results := call (onboarding_simple_search svc query) in
          match results with
          | [] => print (codes "I couldn't find specific onboarding information for your query.")
          | _ :: _ =>
              let* _ := print (codes "Here's some onboarding information that might help:") in
              for_each results
                (fun '(source, content) =>
                   let* _ := print ([NL] ++ codes "- From " ++ source ++ codes ":") in
                   print (if (300 <? List.length content)%nat
                          then firstn 300 content ++ codes "..."
                          else content))
          end)
         (fun _ => ret tt)).

Definition DEFAULT_MESSAGE : list text :=
  [ [NL; 10067%N] ++ codes " BloxMate Assistant:" ++ [NL];
    codes "I'm not sure I understand your request. I can help with:";
    codes "- Information about Infoblox products and documentation";
    codes "- LinkedIn Learning course recommendations";
    codes "- Organization structure and employee information";
    codes "- Workplace communication guidance";
    codes "- Employee onboarding resources";
    [NL] ++ codes "Please try asking about one of these topics." ].

Definition respond_default : M unit := for_each DEFAULT_MESSAGE print.

(** [a == b] on strings. *)
Definition str_eq (a b : text) : bool := bool_decide (a = b).

Definition route_query (svc : Services) (query : text) : M unit :=
  let* '(agent_type, confidence) := classify_query svc query in
  if str_eq agent_type (codes "product") && Qle_bool Float64.lit_0_6 confidence
  then respond_product svc query
  else if str_eq agent_type (codes "learning") && Qle_bool Float64.lit_0_6 confidence
  then respond_learning svc query
  else if str_eq agent_type (codes "org_chart") && Qle_bool Float64.lit_0_6 confidence
  then respond_org_chart svc query
  else if str_eq agent_type (codes "workplace_comms") && Qle_bool Float64.lit_0_6 confidence
  then respond_workplace_comms svc query
  else if str_eq agent_type (codes "onboarding") && Qle_bool Float64.lit_0_6 confidence
  then respond_onboarding svc query
  else respond_default.

End Supervisor.

(** ** [vectorizer.py]: the embedding pipeline and its cache *)
Module Vectorizer.

Record document : Type := {
  page_content : text;
  md_id : text;
  md_source_url : text;
  md_title : text;
  md_deep_link : text;
  md_deep_link_description : text
}.

(** The services [vectorizer.py] calls.  [os_walk folder] lists the
    directories under [folder] with their file names; [sha256_hexdigest] is
    [hashlib]'s digest of a file's bytes and [serialize] the bytes of a
    structured file.  A loader is given the path and the bytes it finds
    there and returns the text of each document, element or sheet it
    extracts.  [split_documents] is the text splitter for a chunk size and
    an overlap, [embed_documents] the embedding model. *)
Record Services : Type := {
  os_walk : text -> list (text * list text);
  sha256_hexdigest : list N -> text;
  serialize : artifact -> list N;
  pdf_loader : text -> list N -> result (list text);
  word_loader : text -> list N -> result (list text);
  partition_pptx : text -> list N -> result (list text);
  read_excel : text -> list N -> result (list (text * text));
  split_documents : nat -> nat -> list document -> result (list document);
  embed_documents : list text -> result (list (list Q))
}.

(** The fields of a [LocalVectorizer] object. *)
Record LocalVectorizer : Type := {
  chunk_size : nat;
  chunk_overlap : nat;
  batch_size : nat;
  cache_file : text;
  cache : gmap text bool
}.

Definition set_cache (self : LocalVectorizer) (c : gmap text bool) : LocalVectorizer :=
  {| chunk_size := chunk_size self; chunk_overlap := chunk_overlap self;
     batch_size := batch_size self; cache_file := cache_file self; cache := c |}.

Definition clean_text (t : text) : text :=
  match t with
  | [] => []
  | _ :: _ =>
      strip (replace (codes "_") [] (replace (codes "*") [] (replace (codes "**") [] t)))
  end.

Definition SLASH : N := 47.

(** [os.path.basename] *)
Definition basename (p : text) : text := List.last (split [SLASH] p) [].

(** [os.path.dirname] *)
Definition dirname (p : text) : text :=
  let head := firstn (List.length p - List.length (basename p)) p in
  if forallb (N.eqb SLASH) head then head
  else reverse (dropwhile (N.eqb SLASH) (reverse head)).

(** [os.path.join(root, name)] *)
Definition path_join (root name : text) : text :=
  match name with
  | 47%N :: _ => name
  | _ =>
      match reverse root with
      | [] | 47%N :: _ => root ++ name
      | _ => root ++ [SLASH] ++ name
      end
  end.

(** The bytes of what a path holds. *)
Definition file_bytes (svc : Services) (a : artifact) : list N :=
  match a with
  | Blob bytes => bytes
  | _ => serialize svc a
  end.

(** [open(p, "rb")] and the read of the whole file. *)
Definition read_bytes (svc : Services) (p : text) : M (list N) :=
  let* _ := emit (ReadBytes p) in
  let* a := read_artifact p in
  match a with
  | Some a => ret (file_bytes svc a)
  | None => raise (codes "No such file or directory")
  end.

Definition compute_file_hash (svc : Services) (file_path : text) : M text :=
  let* bytes := read_bytes svc file_path in
  ret (sha256_hexdigest svc bytes).

(** The cache key of a file: its path and the digest of its content. *)
Definition cache_key (full_path file_hash : text) : text :=
  full_path ++ codes "|" ++ file_hash.

(** [file_name.lower().split(".")[-1]] *)
Definition extension (file_name : text) : text :=
  List.last (split (codes ".") (lower file_name)) [].

Definition local_document (file_path file_title body : text) : document :=
  {| page_content := body;
     md_id := basename file_path;
     md_source_url := file_path;
     md_title := file_title;
     md_deep_link := file_path;
     md_deep_link_description := codes "Local file" |}.

Definition load_pptx (svc : Services) (file_path : text) : M (list document) :=
  let* bytes := read_bytes svc file_path in
  let* elements := call (partition_pptx svc file_path bytes) in
  ret (map (fun el_text => local_document file_path (basename file_path) (clean_text el_text))
           (filter Supervisor.nonempty elements)).

Definition extract_text_from_excel (svc : Services) (file_path : text) : M text :=
  let* bytes := read_bytes svc file_path in
  let* df_dict := call (read_excel svc file_path bytes) in
  let parts :=
    flat_map (fun '(sheet_name, df) =>
                [codes "### Sheet: " ++ sheet_name ++ [NL]; df]) df_dict in
  ret (join [NL; NL] parts).

(** [LocalVectorizer._load_cache] *)
Definition _load_cache (cache_file : text) : M (gmap text bool) :=
  let* present := path_exists cache_file in
  if present then
    let* _ := emit (ReadJson cache_file) in
    let* a := read_artifact cache_file in
    match a with
    | Some (JsonFile c) => ret c
    | _ => raise (codes "Expecting value")
    end
  else ret ∅.

(** [LocalVectorizer.__init__] *)
Definition init (chunk_size chunk_overlap batch_size : nat) (cache_file : text)
  : M LocalVectorizer :=
  let* c := _load_cache cache_file in
  ret {| chunk_size := chunk_size; chunk_overlap := chunk_overlap;
         batch_size := batch_size; cache_file := cache_file; cache := c |}.

(** [LocalVectorizer._save_cache] *)
Definition _save_cache (self : LocalVectorizer) : M unit :=
  let* _ := emit (WriteJson (cache_file self)) in
  write_artifact (cache_file self) (JsonFile (cache self)).

(** The extension test of [load_local_documents]: the documents a
    supported file yields, or [None] for an unsupported extension. *)
Definition load_by_extension (svc : Services) (ext full_path file_name : text)
  : M (option (list document)) :=
  if Supervisor.str_eq ext (codes "pdf") then
    let* bytes := read_bytes svc full_path in
    let* pages := call (pdf_loader svc full_path bytes) in
    ret (Some (map (local_document full_path file_name) pages))
  else if Supervisor.str_eq ext (codes "docx") || Supervisor.str_eq ext (codes "doc") then
    let* bytes := read_bytes svc full_path in
    let* pages := call (word_loader svc full_path bytes) in
    ret (Some (map (local_document full_path file_name) pages))
  else if Supervisor.str_eq ext (codes "ppt") || Supervisor.str_eq ext (codes "pptx") then
    let* file_docs := load_pptx svc full_path in
    ret (Some file_docs)
  else if Supervisor.str_eq ext (codes "xlsx") || Supervisor.str_eq ext (codes "xls") then
    let* excel_text := extract_text_from_excel svc full_path in
    ret (Some [local_document full_path file_name (clean_text excel_text)])
  else ret None.

(** What the loaders yield for a file on a given disk. *)
Definition loads (svc : Services) (full_path file_name : text)
  (d : gmap text artifact) : result (option (list document)) :=
  fst (load_by_extension svc (extension file_name) full_path file_name
         {| stdout := []; captured := None; disk := d; log := [] |}).

(** The update of each loaded document: cleaned text, local metadata. *)
Definition finish_document (full_path file_name : text) (doc : document) : document :=
  local_document full_path file_name (clean_text (page_content doc)).

(** The body of the loop of [load_local_documents] for one file: the
    documents and the cache after it. *)
Definition load_file (svc : Services) (root file_name : text)
  (acc : list document * gmap text bool) : M (list document * gmap text bool) :=
  let '(docs, cache) := acc in
  let full_path := path_join root file_name in
  let ext := extension file_name in
  try_except
    (let* file_hash := compute_file_hash svc full_path in
     let cache_key := cache_key full_path file_hash in
     if bool_decide (is_Some (cache !! cache_key)) then
       let* _ := print ([9193%N] ++ codes " Skipping cached file: " ++ file_name) in
       ret (docs, cache)
     else
       let* loaded := load_by_extension svc ext full_path file_name in
       match loaded with
       | None =>
           let* _ := print ([9888%N; 65039%N] ++ codes " Skipping unsupported file: "
                            ++ file_name) in
           ret (docs, cache)
       | Some file_docs =>
           ret (docs ++ map (finish_document full_path file_name) file_docs,
                <[cache_key := true]> cache)
       end)
    (fun e =>
       let* _ := print ([10060%N] ++ codes " Error loading " ++ file_name
                        ++ codes ": " ++ e) in
       ret (docs, cache)).

Fixpoint load_files (svc : Services) (files : list (text * text))
  (acc : list document * gmap text bool) : M (list document * gmap text bool) :=
  match files with
  | [] => ret acc
  | (root, file_name) :: rest =>
      let* acc' := load_file svc root file_name acc in
      load_files svc rest acc'
  end.

(** The files of a walk, in the order the two nested loops visit them. *)
Definition walked_files (svc : Services) (folder_path : text) : list (text * text) :=
  flat_map (fun '(root, files) => map (fun file_name => (root, file_name)) files)
           (os_walk svc folder_path).

Definition load_local_documents (svc : Services) (self : LocalVectorizer)
  (folder_path : text) : M (list document * LocalVectorizer) :=
  let* '(docs, c) := load_files svc (walked_files svc folder_path) ([], cache self) in
  ret (docs, set_cache self c).

(** [l[i : i + size]] for [i = 0, size, 2 * size, ...] while [i < len(l)]. *)
Fixpoint batches_go {A} (size room : nat) (cur l : list A) : list (list A) :=
  match l with
  | [] => match cur with [] => [] | _ => [reverse cur] end
  | x :: l' =>
      match room with
      | S (S room') => batches_go size (S room') (x :: cur) l'
      | _ => reverse (x :: cur) :: batches_go size size [] l'
      end
  end.

Definition batches {A} (size : nat) (l : list A) : list (list A) :=
  batches_go size size [] l.

Definition row_of (doc : document) (e : list Q) : row :=
  {| id := md_id doc;
     content := page_content doc;
     embedding := e;
     source_url := md_source_url doc;
     title := md_title doc;
     deep_link := md_deep_link doc;
     deep_link_description := md_deep_link_description doc |}.

Definition batch_label (batch_start batch_end : nat) : text :=
  str_of_N (N.of_nat batch_start) ++ [8211%N] ++ str_of_N (N.of_nat batch_end).

(** The loop over the batches of [generate_embeddings_batch]. *)
Fixpoint embed_batches (svc : Services) (size batch_start : nat)
  (todo : list (list document)) (data_list : list row) : M (list row) :=
  match todo with
  | [] => ret data_list
  | batch_docs :: rest =>
      let batch_end := (batch_start + size)%nat in
      let batch_texts := map (fun doc => clean_text (page_content doc)) batch_docs in
      let* data_list' :=
        try_except
          (let* _ := print ([9881%N; 65039%N] ++ codes " Embedding batch "
                            ++ batch_label batch_start batch_end ++ codes "...") in
           let* _ := emit (Embed batch_texts) in
           let* batch_embeddings := call (embed_documents svc batch_texts) in
           ret (data_list ++ map (fun '(doc, e) => row_of doc e)
                                 (combine batch_docs batch_embeddings)))
          (fun e =>
             let* _ := print ([10060%N] ++ codes " Error embedding batch "
                              ++ batch_label batch_start batch_end
                              ++ codes ": " ++ e) in
             ret data_list) in
      embed_batches svc size batch_end rest data_list'
  end.

Definition generate_embeddings_batch (svc : Services) (self : LocalVectorizer)
  (documents : list document) : M (list row) :=
  match split_documents svc (chunk_size self) (chunk_overlap self) documents with
  | Raise e =>
      let* _ := print ([10060%N] ++ codes " Error splitting documents: " ++ e) in
      ret []
  | Ok chunks =>
      let* _ := print ([128290%N] ++ codes " Total chunks to embed: "
                       ++ str_of_N (N.of_nat (List.length chunks))) in
      match batch_size self with
      | O => raise (codes "range() arg 3 must not be zero")
      | S _ => embed_batches svc (batch_size self) 0 (batches (batch_size self) chunks) []
      end
  end.

(** [os.makedirs(d, exist_ok=True)]: the empty name raises.  Directories
    are not modelled beyond that. *)
Definition makedirs (d : text) : M unit :=
  match d with
  | [] => raise (codes "[Errno 2] No such file or directory: ''")
  | _ :: _ => ret tt
  end.

Definition save_to_parquet (data : list row) (output_path : text) : M unit :=
  let* _ := makedirs (dirname output_path) in
  let* _ := emit (WriteParquet output_path) in
  let* _ := write_artifact output_path (ParquetFile data) in
  print ([9989%N] ++ codes " Embeddings saved to: " ++ output_path).

(** [LocalVectorizer.run]; the object after the run is returned, its cache
    being updated in place by [load_local_documents]. *)
(** The first step of [run]: the documents to process and the object with
    its cache updated. *)
Definition run_load (svc : Services) (self : LocalVectorizer) (input_folder : text)
  : M (list document * LocalVectorizer) :=
  let* _ := print ([128194%N] ++ codes " Loading from: " ++ input_folder) in
  load_local_documents svc self input_folder.

(** The second step of [run]: the rows embedded. *)
Definition run_embed (svc : Services) (self : LocalVectorizer)
  (documents : list document) : M (list row) :=
  let* _ := print ([129504%N] ++ codes " Generating embeddings...") in
  generate_embeddings_batch svc self documents.

Definition run (svc : Services) (self : LocalVectorizer)
  (input_folder output_file : text) : M LocalVectorizer :=
  let* '(documents, self) := run_load svc self input_folder in
  match documents with
  | [] =>
      let* _ := print ([10060%N] ++ codes " No documents to process.") in
      ret self
  | _ :: _ =>
      let* embeddings := run_embed svc self documents in
      match embeddings with
      | [] =>
          let* _ := print ([10060%N] ++ codes " No embeddings generated.") in
          ret self
      | _ :: _ =>
          let* _ := print ([128190%N] ++ codes " Saving embeddings...") in
          let* _ := save_to_parquet embeddings output_file in
          let* _ := _save_cache self in
          let* _ := print ([127881%N] ++ codes " Vectorization complete!") in
          ret self
      end
  end.

End Vectorizer.

(** ** What the escalation meets on the web *)
Module Web.
Import Supervisor.

(** The search step fails: the request raises, the status is not 200, or
    no result block is kept. *)
Definition search_fails (svc : Services) (query : text) : bool :=
  match requests_get svc (search_url query) with
  | Raise _ => true
  | Ok response =>
      negb (status_code response =? 200)%N
      || Nat.eqb (List.length (collect_results 3 (firstn 3 (result_divs response)) [])) 0
  end.

(** The results the search step keeps when it does not fail. *)
Definition search_results_of (svc : Services) (query : text) : list search_result :=
  match requests_get svc (search_url query) with
  | Raise _ => []
  | Ok response => collect_results 3 (firstn 3 (result_divs response)) []
  end.

(** The page-fetch step fails for a result: it has no address, the request
    raises, or the status is not 200. *)
Definition fetch_fails (svc : Services) (r : search_result) : bool :=
  match sr_url r with
  | [] => true
  | _ :: _ =>
      match requests_get svc (sr_url r) with
      | Raise _ => true
      | Ok response => negb (status_code response =? 200)%N
      end
  end.

End Web.

(** ** Concrete services and states, for the examples *)
Module Scenario.
Import Supervisor.

Definition st0 : state :=
  {| stdout := []; captured := None; disk := ∅; log := [] |}.

Definition HEDGING_ANSWER : text :=
  codes "The context does not contain specific information about the travel policy.".

Definition kb_hedging : Response.Services :=
  {| Response.chat_model_invoke := fun _ _ => Ok HEDGING_ANSWER;
     Response.from_embeddings :=
       fun tuples metadatas => Ok {| docstore := combine tuples metadatas |};
     Response.get_relevant_documents :=
       fun _ _ _ => Ok [codes "Expense reports are due monthly."] |}.

(** Services that answer a classification with [reply] and a web request
    with [get]; the other responders are down. *)
Definition services (reply : result text) (get : text -> result http_response)
  : Services :=
  {| kb := kb_hedging;
     classify_completion := fun _ => reply;
     online_completion := fun _ _ _ => Ok (codes " See the travel policy page. ");
     requests_get := get;
     search_linkedin_courses := fun _ => Raise (codes "unavailable");
     process_courses := fun _ => Raise (codes "unavailable");
     org_chart_run := fun _ => Raise (codes "unavailable");
     handle_workplace_query := fun _ => Raise (codes "unavailable");
     onboarding_run := fun _ => Raise (codes "unavailable");
     onboarding_simple_search := fun _ => Raise (codes "unavailable") |}.

Definition QUERY : text := codes "travel policy".

(** A search page with one result, and the page it points to. *)
Definition results_page : http_response :=
  {| status_code := 200;
     result_divs :=
       [ {| title_elem := Some (codes "Travel policy");
            link_href := Some (codes "/url?q=https://docs.example/travel&sa=U");
            snippet_elem := None |} ];
     page_text := [] |}.

Definition travel_page : http_response :=
  {| status_code := 200; result_divs := [];
     page_text := codes "  Travel   policy  " ++ [NL] ++ codes " Book early. " |}.

(** A page of 10,001 letters. *)
Definition long_page : http_response :=
  {| status_code := 200; result_divs := [];
     page_text := repeat 97%N (N.to_nat 10001) |}.

Definition web_up (url : text) : result http_response :=
  if Supervisor.str_eq url (search_url QUERY) then Ok results_page else Ok travel_page.

(** The search works; every page fetch times out. *)
Definition web_pages_down (url : text) : result http_response :=
  if Supervisor.str_eq url (search_url QUERY) then Ok results_page
  else Raise (codes "Read timed out.").

Definition web_long (url : text) : result http_response := Ok long_page.

Definition svc_hedging : Services :=
  services (Ok (codes "AGENT:product|CONFIDENCE:0.9")) web_up.

Definition svc_pages_down : Services :=
  services (Ok (codes "AGENT:product|CONFIDENCE:0.9")) web_pages_down.

Definition svc_long_page : Services :=
  services (Ok (codes "AGENT:product|CONFIDENCE:0.9")) web_long.

Definition svc_low_confidence : Services :=
  services (Ok (codes "AGENT:onboarding|CONFIDENCE:0.42")) web_up.

Definition svc_out_of_range : Services :=
  services (Ok (codes "AGENT:learning|CONFIDENCE:9.5")) web_up.

Definition svc_classifier_down : Services :=
  services (Raise (codes "Connection error.")) web_up.

(** Two rows of an embedding store, and a state whose disk holds the
    store and no index. *)
Definition ROW1 : row :=
  {| id := codes "handbook.pdf"; content := codes "Expense reports are due monthly.";
     embedding := [1 # 2; 1 # 4]; source_url := codes "docs/handbook.pdf";
     title := codes "handbook.pdf"; deep_link := codes "docs/handbook.pdf";
     deep_link_description := codes "Local file" |}.

Definition ROW2 : row :=
  {| id := codes "travel.docx"; content := codes "Book early.";
     embedding := [3 # 4; 1 # 8]; source_url := codes "docs/travel.docx";
     title := codes "travel.docx"; deep_link := codes "docs/travel.docx";
     deep_link_description := codes "Local file" |}.

Definition st_store_only : state :=
  {| stdout := []; captured := None;
     disk := {[ codes "./output/embeddings.parquet" := ParquetFile [ROW1; ROW2] ]};
     log := [] |}.

(** A state whose disk holds a persisted index at the path [route_query]
    uses. *)
Definition st_indexed : state :=
  {| stdout := []; captured := None;
     disk := {[ codes "./output/faiss_index" := FaissDir {| docstore := [] |} ]};
     log := [] |}.

(** *** The embedding pipeline *)

(** A stand-in for the SHA-256 digest in the examples: the sum of the
    bytes, in decimal.  It tells the example files apart. *)
Definition toy_digest (bytes : list N) : text :=
  str_of_N (fold_left N.add bytes 0%N).

(** Services over a given walk and embedding model: a loader returns the
    bytes of the file as its one document, the splitter returns the
    documents as they are. *)
Definition pipeline (walk : list (text * list text))
  (embed : list text -> result (list (list Q))) : Vectorizer.Services :=
  {| Vectorizer.os_walk := fun _ => walk;
     Vectorizer.sha256_hexdigest := toy_digest;
     Vectorizer.serialize := fun _ => [];
     Vectorizer.pdf_loader := fun _ bytes => Ok [bytes];
     Vectorizer.word_loader := fun _ bytes => Ok [bytes];
     Vectorizer.partition_pptx := fun _ bytes => Ok [bytes];
     Vectorizer.read_excel := fun _ bytes => Ok [(codes "Sheet1", bytes)];
     Vectorizer.split_documents := fun _ _ documents => Ok documents;
     Vectorizer.embed_documents := embed |}.

Definition embed_up (texts : list text) : result (list (list Q)) :=
  Ok (map (fun t => [inject_Z (Z.of_nat (List.length t))]) texts).

Definition embed_down (texts : list text) : result (list (list Q)) :=
  Raise (codes "Error code: 429").

(** An embedding model that fails on every batch that holds the text of
    the handbook. *)
Definition embed_without_handbook (texts : list text) : result (list (list Q)) :=
  if existsb (contains (codes "Expense")) texts then embed_down texts
  else embed_up texts.

Definition HANDBOOK : text := codes "docs/handbook.pdf".
Definition TRAVEL : text := codes "docs/travel.docx".
Definition STORE : text := codes "./output/embeddings.parquet".
Definition CACHE_FILE : text := codes "embedding_cache.json".

Definition one_file : list (text * list text) :=
  [(codes "docs", [codes "handbook.pdf"])].

Definition two_files : list (text * list text) :=
  [(codes "docs", [codes "handbook.pdf"; codes "travel.docx"])].

(** A disk with the two documents, no store and no cache file. *)
Definition st_documents : state :=
  {| stdout := []; captured := None;
     disk := {[ HANDBOOK := Blob (codes "Expense reports are due monthly.");
                TRAVEL := Blob (codes "Book early.") ]};
     log := [] |}.

(** A fresh vectorizer with batches of one chunk, then a run. *)
Definition fresh_run (svc : Vectorizer.Services) (folder output_file : text)
  : M Vectorizer.LocalVectorizer :=
  let* vectorizer := Vectorizer.init 500 100 1 CACHE_FILE in
  Vectorizer.run svc vectorizer folder output_file.

End Scenario.

(** ** The routing table, for the statements about [route_query] *)
Module Routes.
Import Supervisor.

(** The responders by agent tag, each with the banner it prints first. *)
Definition RESPONDERS : list (text * (text * (Services -> text -> M unit))) :=
  [ (codes "product", (PRODUCT_BANNER, respond_product));
    (codes "learning", (LEARNING_BANNER, respond_learning));
    (codes "org_chart", (ORG_CHART_BANNER, respond_org_chart));
    (codes "workplace_comms", (WORKPLACE_COMMS_BANNER, respond_workplace_comms));
    (codes "onboarding", (ONBOARDING_BANNER, respond_onboarding)) ].

(** What the default branch writes: its eight lines. *)
Definition DEFAULT_TEXT : text :=
  concat (map (fun line => line ++ [NL]) DEFAULT_MESSAGE).

(** The second character of a text: in a banner, the emoji after the
    leading line feed, which tells the banners apart. *)
Definition mark (t : text) : N := nth 1 t 0%N.

(** A character that is not white space. *)
Definition ink (c : N) : bool := negb (isspace c).

(** A syntactic test on a pattern: each of its matches holds a character
    that is not white space. *)
Fixpoint inked (r : Re.regex) : bool :=
  match r with
  | Re.Lit c => ink c
  | Re.Cat a b => inked a || inked b
  | Re.Alt a b => inked a && inked b
  | _ => false
  end.

End Routes.

(** ** What a batch contributes to the embedding store *)
Module Embedding.
Import Vectorizer.

(** The texts of a batch sent to the embedding model. *)
Definition batch_texts (batch_docs : list document) : list text :=
  map (fun doc => clean_text (page_content doc)) batch_docs.

(** The rows a batch adds to [data_list]: one for each chunk paired with an
    embedding the model returned, none when the call raises. *)
Definition batch_rows (svc : Services) (batch_docs : list document) : list row :=
  match embed_documents svc (batch_texts batch_docs) with
  | Ok batch_embeddings =>
      map (fun '(doc, e) => row_of doc e) (combine batch_docs batch_embeddings)
  | Raise _ => []
  end.

End Embedding.

(** ** A folder of two documents, for the examples of the pipeline *)
Module PipelineExamples.
Import Vectorizer Scenario.

Definition FOLDER : text := codes "docs".

(** A vectorizer with an empty cache and batches of one chunk. *)
Definition vectorizer0 : LocalVectorizer :=
  {| chunk_size := 500; chunk_overlap := 100; batch_size := 1;
     cache_file := CACHE_FILE; cache := ∅ |}.

(** The two documents as the load returns them. *)
Definition DOCS : list document :=
  [ local_document HANDBOOK (codes "handbook.pdf")
      (codes "Expense reports are due monthly.");
    local_document TRAVEL (codes "travel.docx") (codes "Book early.") ].

(** The outcome of the load and of the embedding step of a run, taken
    apart: the documents, the object and the state after the load, the
    rows and the state after the embedding. *)
Definition loaded (svc : Services) (st : state) : list document :=
  match fst (run_load svc vectorizer0 FOLDER st) with
  | Ok (docs, _) => docs
  | Raise _ => []
  end.

Definition after_load (svc : Services) (st : state) : LocalVectorizer :=
  match fst (run_load svc vectorizer0 FOLDER st) with
  | Ok (_, self) => self
  | Raise _ => vectorizer0
  end.

Definition embedded (svc : Services) (st : state) : list row :=
  match fst (run_embed svc (after_load svc st) (loaded svc st)
               (snd (run_load svc vectorizer0 FOLDER st))) with
  | Ok rows => rows
  | Raise _ => []
  end.

End PipelineExamples.

(** ** The marker test of the extraction loop *)
Module Marker.
Import Response.

(** The test [route_query] applies to a line of the captured output: the
    line holds one of the two answer markers. *)
Definition marked (line : text) : bool :=
  contains RAG_ANSWER_MARKER line || contains GPT_ANSWER_MARKER line.

(** The system message of [answer_direct_gpt]. *)
Definition EXPERT_MESSAGE : text :=
  codes "You are an expert on Infoblox products and services. Answer clearly, concisely, and accurately.".

(** The sentence shown in place of an empty answer. *)
Definition NO_ANSWER : text :=
  codes "I don't have enough information to answer that question based on my knowledge.".

(** The two messages of [run_rag_query] for the documents retrieved. *)
Definition RAG_MESSAGE : text :=
  codes "You are a helpful assistant answering questions based on internal documents. Respond using the provided context only.".

Definition rag_prompt (docs : list text) (query : text) : text :=
  [NL] ++ codes "Use the context below to answer the question. Be concise and accurate. Do not include any formatting."
  ++ [NL; NL] ++ codes "Context:" ++ [NL] ++ join [NL; NL] docs
  ++ [NL; NL] ++ codes "Question: " ++ query ++ [NL].

(** The paths [route_query] gives to [load_cached_vectorstore]. *)
Definition STORE_PATH : text := codes "./output/embeddings.parquet".
Definition INDEX_PATH : text := codes "./output/faiss_index".

End Marker.

(** ** Services for the examples of the direct path *)
Module DirectExamples.
Import Supervisor.

(** A knowledge base whose chat model answers with white space around the
    answer. *)
Definition kb_direct : Response.Services :=
  {| Response.chat_model_invoke :=
       fun _ _ => Ok (codes " NIOS is the Infoblox operating system. ");
     Response.from_embeddings := fun _ _ => Raise (codes "unavailable");
     Response.get_relevant_documents := fun _ _ _ => Raise (codes "unavailable") |}.

Definition svc_direct : Services :=
  {| kb := kb_direct;
     classify_completion := fun _ => Ok (codes "AGENT:product|CONFIDENCE:0.9");
     online_completion := fun _ _ _ => Raise (codes "unavailable");
     requests_get := fun _ => Raise (codes "unavailable");
     search_linkedin_courses := fun _ => Raise (codes "unavailable");
     process_courses := fun _ => Raise (codes "unavailable");
     org_chart_run := fun _ => Raise (codes "unavailable");
     handle_workplace_query := fun _ => Raise (codes "unavailable");
     onboarding_run := fun _ => Raise (codes "unavailable");
     onboarding_simple_search := fun _ => Raise (codes "unavailable") |}.

(** A knowledge base that retrieves one passage and answers from it, and
    services whose classifier sends the query to it. *)
Definition kb_rag : Response.Services :=
  {| Response.chat_model_invoke := fun _ _ => Ok (codes "Expense reports are due monthly.");
     Response.from_embeddings := fun _ _ => Raise (codes "unavailable");
     Response.get_relevant_documents :=
       fun _ _ _ => Ok [codes "Expense reports are due monthly."] |}.

Definition svc_rag : Services :=
  {| kb := kb_rag;
     classify_completion := fun _ => Ok (codes "AGENT:product|CONFIDENCE:0.9");
     online_completion := fun _ _ _ => Raise (codes "unavailable");
     requests_get := fun _ => Raise (codes "unavailable");
     search_linkedin_courses := fun _ => Raise (codes "unavailable");
     process_courses := fun _ => Raise (codes "unavailable");
     org_chart_run := fun _ => Raise (codes "unavailable");
     handle_workplace_query := fun _ => Raise (codes "unavailable");
     onboarding_run := fun _ => Raise (codes "unavailable");
     onboarding_simple_search := fun _ => Raise (codes "unavailable") |}.

End DirectExamples.

(** ** A page whose text begins with the word Error *)
Module WebExamples.
Import Supervisor Scenario.

Definition error_page : http_response :=
  {| status_code := 200; result_divs := [];
     page_text := codes "Error codes of the appliance and their meaning." |}.

Definition web_error_page (url : text) : result http_response :=
  if Supervisor.str_eq url (search_url QUERY) then Ok results_page else Ok error_page.

Definition svc_error_page : Services :=
  services (Ok (codes "AGENT:product|CONFIDENCE:0.9")) web_error_page.

End WebExamples.

(** ** [supervisor.main]: the console conversation *)
Module Console.
Import Supervisor.

(** [sys.stdout.write(s)]: as [print], without the line feed. *)
Definition write (s : text) : M unit :=
  fun st =>
    (Ok tt,
     match captured st with
     | Some buf => set_captured (Some (buf ++ s)) st
     | None => set_stdout (stdout st ++ s) st
     end).

Definition RULE : text := repeat 61%N 70.

Definition WELCOME : list text :=
  [ [NL; 129302%N] ++ codes " Welcome to the AI Assistant! I can help with various requests.";
    RULE;
    codes "I can answer questions about:";
    codes "- Products, resources, and documentation";
    codes "- Learning recommendations from LinkedIn Learning";
    codes "- Organization structure, employees, and managers";
    codes "- Finding people working on specific topics or projects";
    codes "- Workplace communication and the 'no jerks' policy";
    codes "- Employee onboarding, first day tasks, and required tools";
    RULE ].

Definition PROMPT : text :=
  [NL; 128172%N] ++ codes " How can I help you today? (or type 'exit' to quit): ".

Definition GOODBYE : text := [NL; 128075%N] ++ codes " Goodbye! Have a great day!".

Definition ERROR_PREFIX : text := [NL; 9888%N; 65039%N] ++ codes " Error: ".

Definition EXIT_WORDS : list text := [codes "exit"; codes "quit"; codes "bye"].

(** [user_input.lower() in ["exit", "quit", "bye"]] *)
Definition is_exit (user_input : text) : bool :=
  existsb (str_eq (lower user_input)) EXIT_WORDS.

Definition EOF_ERROR : text := codes "EOF when reading a line".

(** The loop of [main] over the lines the user types.  [input] writes the
    prompt and returns the next line; at the end of the input it raises
    [EOFError], outside the [try] of the loop. *)
Fixpoint conversation (svc : Services) (lines : list text) : M unit :=
  match lines with
  | [] =>
      let* _ := write PROMPT in
      raise EOF_ERROR
  | user_input :: rest =>
      let* _ := write PROMPT in
      if is_exit user_input then print GOODBYE
      else
        let* _ :=
          try_except (route_query svc user_input)
                     (fun e => print (ERROR_PREFIX ++ e)) in
        conversation svc rest
  end.

(** [main]: [startup] holds the lines the constructor of [SupervisorAgent]
    prints while it loads the organization chart and the weekly updates
    (its two loaders catch their own exceptions). *)
Definition main (svc : Services) (startup lines : list text) : M unit :=
  let* _ := for_each startup print in
  let* _ := for_each WELCOME print in
  conversation svc lines.

End Console.

(** ** [app.py]: the query step of the Streamlit page *)
Module App.
Import Supervisor.

(** [process_query]: the value [route_query] returns (it has no [return]
    statement, so the value is [None]), or the text of the error with the
    traceback; [format_exc e] is the text [traceback.format_exc()] gives
    for the exception caught. *)
Definition process_query (svc : Services) (format_exc : text -> text) (query : text)
  : M (option text) :=
  try_except
    (let* response := route_query svc query in
     ret (match response with tt => None end))
    (fun e =>
       ret (Some (codes "Error processing query: " ++ e ++ [NL; NL] ++ format_exc e))).

Definition SORRY : text :=
  codes "I'm sorry, I couldn't generate a response. Please try again.".

(** The content of the assistant message [main] shows for a query: the
    formatted response when [process_query] gave one that is not empty, the
    apology otherwise.  [format_response] is the function of that name. *)
Definition assistant_message (svc : Services) (format_exc format_response : text -> text)
  (query : text) : M text :=
  let* response := process_query svc format_exc query in
  match response with
  | Some (c :: r) => ret (format_response (c :: r))
  | Some [] | None => ret SORRY
  end.

End App.

(** ** [linkedin.py]: the course search *)
Module Linkedin.
Import Supervisor.

(** An entry of [organic_results]: its [title] and its [link], when the
    entry has them. *)
Record organic : Type := {
  o_title : option text;
  o_link : option text
}.

(** The services [linkedin.py] calls: the search ([get_dict], giving the
    value of [organic_results] when the key is there) and the completion
    for the description of a course, which stands for
    [init_azure_openai] and the call of the client. *)
Record Services : Type := {
  get_dict : text -> result (option (list organic));
  course_completion : text -> text -> result text
}.

Definition NO_COURSES : text := [10060%N] ++ codes " No courses found.".

(** The loop over the first results: a result without a title or a link
    raises [KeyError]. *)
Fixpoint top_courses (results : list organic) : result (list course) :=
  match results with
  | [] => Ok []
  | res :: rest =>
      match o_title res, o_link res with
      | None, _ => Raise (codes "'title'")
      | Some _, None => Raise (codes "'link'")
      | Some course_title, Some course_link =>
          match top_courses rest with
          | Ok output => Ok (CourseInfo course_title course_link :: output)
          | Raise e => Raise e
          end
      end
  end.

Definition search_linkedin_courses (svc : Services) (user_query : text)
  : result (list course) :=
  match get_dict svc (codes "site:linkedin.com/learning " ++ user_query) with
  | Raise e => Raise e
  | Ok None => Ok [CourseError NO_COURSES]
  | Ok (Some organic_results) => top_courses (firstn 3 organic_results)
  end.

Definition enhance_course_info (svc : Services) (course_title course_link : text)
  : result text :=
  match course_completion svc course_title course_link with
  | Ok content => Ok (strip content)
  | Raise e => Raise e
  end.

(** The text [process_courses] gives for a course. *)
Definition course_entry (svc : Services) (c : course) : text :=
  match c with
  | CourseError error => error
  | CourseInfo course_title course_link =>
      match enhance_course_info svc course_title course_link with
      | Ok ai_description =>
          [128218%N; 32%N] ++ course_title ++ [NL; 128279%N; 32%N] ++ course_link
          ++ [NL; 8505%N; 65039%N; 32%N] ++ ai_description
      | Raise e =>
          codes "- " ++ course_title ++ codes ": " ++ course_link ++ [NL]
          ++ codes "  " ++ [9888%N; 65039%N] ++ codes " Could not enhance: " ++ e
      end
  end.

Definition process_courses (svc : Services) (courses : list course) : list text :=
  map (course_entry svc) courses.

(** The services of the supervisor with the two functions of
    [linkedin.py] in the place of their oracles. *)
Definition with_linkedin (base : Supervisor.Services) (svc : Services)
  : Supervisor.Services :=
  {| kb := kb base;
     classify_completion := classify_completion base;
     online_completion := online_completion base;
     requests_get := requests_get base;
     Supervisor.search_linkedin_courses := search_linkedin_courses svc;
     Supervisor.process_courses := fun courses => Ok (process_courses svc courses);
     org_chart_run := org_chart_run base;
     handle_workplace_query := handle_workplace_query base;
     onboarding_run := onboarding_run base;
     onboarding_simple_search := onboarding_simple_search base |}.

Definition NOT_FOUND : text :=
  codes "I couldn't find any relevant LinkedIn Learning courses for your query. Please try a different search term.".

Definition NOT_RETRIEVED : text :=
  codes "I'm sorry, I couldn't retrieve LinkedIn Learning courses at the moment. Please try again later.".

(** The two lines the learning branch prints for a course. *)
Definition shown_course (entry : text) : text :=
  entry ++ [NL] ++ repeat 45%N 40 ++ [NL].

(** A search with two results and a completion that is down. *)
Definition two_courses : Services :=
  {| get_dict := fun _ =>
       Ok (Some [ {| o_title := Some (codes "Python Essential Training");
                     o_link := Some (codes "https://www.linkedin.com/learning/python") |};
                  {| o_title := Some (codes "Learning Python");
                     o_link := Some (codes "https://www.linkedin.com/learning/learning-python") |} ]);
     course_completion := fun _ _ => Raise (codes "Connection error.") |}.

End Linkedin.

(** ** [onboarding.py]: the keyword search *)
Module Onboarding.

(** [ONBOARDING_DATA]: the two dictionaries, each as its items in
    insertion order. *)
Record data : Type := {
  first_year : list (text * text);
  data_science : list (text * text)
}.

(** An entry of the results. *)
Record hit : Type := {
  h_content : text;
  h_score : nat;
  h_source : text
}.

(** [s.split()]: the words between runs of white space. *)
Fixpoint words_go (cur s : text) : list text :=
  match s with
  | [] => match cur with [] => [] | _ => [reverse cur] end
  | c :: s' =>
      if isspace c then
        match cur with
        | [] => words_go [] s'
        | _ => reverse cur :: words_go [] s'
        end
      else words_go (c :: cur) s'
  end.

Definition words (s : text) : list text := words_go [] s.

(** [sum(1 for term in query_terms if term in content_lower)] *)
Definition score_of (query_terms : list text) (content_lower : text) : nat :=
  List.length (List.filter (fun term => contains term content_lower) query_terms).

(** The loop over the items of one dictionary; [str_lower] is [str.lower]. *)
Definition section_hits (str_lower : text -> text) (label : text)
  (items : list (text * text)) (query_terms : list text) : list hit :=
  flat_map
    (fun '(key, content) =>
       if Supervisor.str_eq key (codes "full_text") then []
       else
         let score := score_of query_terms (str_lower content) in
         if (0 <? score)%nat
         then [{| h_content := content; h_score := score;
                  h_source := label ++ codes " - " ++ key |}]
         else [])
    items.

(** [results.sort(key=score, reverse=True)]: a stable sort, the highest
    score first; entries of equal score keep their order. *)
Fixpoint insert_hit (h : hit) (sorted : list hit) : list hit :=
  match sorted with
  | [] => [h]
  | h' :: rest =>
      if (h_score h <? h_score h')%nat then h' :: insert_hit h rest
      else h :: sorted
  end.

Definition sort_hits (results : list hit) : list hit :=
  fold_right insert_hit [] results.

Definition candidates (str_lower : text -> text) (d : data) (query : text) : list hit :=
  let query_terms := words (str_lower query) in
  section_hits str_lower (codes "First Year Checklist") (first_year d) query_terms
  ++ section_hits str_lower (codes "Data Science Onboarding") (data_science d) query_terms.

Definition simple_search (str_lower : text -> text) (d : data) (query : text)
  : list hit :=
  firstn 5 (sort_hits (candidates str_lower d query)).

(** Scores from the highest to the lowest. *)
Fixpoint descending (scores : list nat) : Prop :=
  match scores with
  | [] => True
  | x :: rest => Forall (fun y => (y <= x)%nat) rest /\ descending rest
  end.

(** The services of the supervisor with [simple_search] in the place of
    its oracle. *)
Definition with_onboarding (base : Supervisor.Services) (str_lower : text -> text)
  (d : data) : Supervisor.Services :=
  {| Supervisor.kb := Supervisor.kb base;
     Supervisor.classify_completion := Supervisor.classify_completion base;
     Supervisor.online_completion := Supervisor.online_completion base;
     Supervisor.requests_get := Supervisor.requests_get base;
     Supervisor.search_linkedin_courses := Supervisor.search_linkedin_courses base;
     Supervisor.process_courses := Supervisor.process_courses base;
     Supervisor.org_chart_run := Supervisor.org_chart_run base;
     Supervisor.handle_workplace_query := Supervisor.handle_workplace_query base;
     Supervisor.onboarding_run := Supervisor.onboarding_run base;
     Supervisor.onboarding_simple_search :=
       fun query =>
         Ok (map (fun h => (h_source h, h_content h)) (simple_search str_lower d query)) |}.

End Onboarding.

(** ** What the onboarding branch prints when its agent fails *)
Module Fallback.
Import Supervisor Onboarding.

Definition APOLOGY : text :=
  codes "I'm sorry, I couldn't retrieve onboarding information at the moment. Please try again later.".

Definition NOTHING_FOUND : text :=
  codes "I couldn't find specific onboarding information for your query.".

Definition HEADER : text :=
  codes "Here's some onboarding information that might help:".

(** The content of an entry as it is printed: cut after 300 characters. *)
Definition excerpt (content : text) : text :=
  if (300 <? List.length content)%nat then firstn 300 content ++ codes "..."
  else content.

(** The two lines printed for an entry. *)
Definition shown_hit (h : hit) : text :=
  ([NL] ++ codes "- From " ++ h_source h ++ codes ":") ++ [NL]
  ++ excerpt (h_content h) ++ [NL].

(** Sections of the two documents, for the example. *)
Definition handbook : data :=
  {| first_year :=
       [ (codes "full_text", codes "Day 1: get your laptop. Week 1: meet your team.");
         (codes "day1", codes "Day 1: get your laptop.");
         (codes "week1", codes "Week 1: meet your team.") ];
     data_science := [ (codes "tools", codes "Tools: laptop, VPN and the team chat.") ] |}.

Definition svc_agent_down : Services :=
  with_onboarding Scenario.svc_hedging lower handbook.

End Fallback.

(** ** [org_chart_bot.py]: the organisation chart *)
Module OrgChart.
Import Supervisor.

(** A row of [csv.DictReader]: the value of a column is [None] when the
    row is shorter than the header. *)
Definition csv_row : Type := gmap text (option text).

(** An entry of [ORG_CHART_DATA]. *)
Record employee : Type := {
  e_name : text;
  e_title : option text;
  e_manager : option text
}.

(** [ORG_CHART_DATA]: a dictionary, as its items in insertion order. *)
Definition chart : Type := list (text * employee).

Fixpoint dict_get (k : text) (d : chart) : option employee :=
  match d with
  | [] => None
  | (k', v) :: rest => if str_eq k' k then Some v else dict_get k rest
  end.

(** [d[k] = v]: the value of a key that is there is replaced in its
    place, a new key goes to the end. *)
Fixpoint dict_set (k : text) (v : employee) (d : chart) : chart :=
  match d with
  | [] => [(k, v)]
  | (k', v') :: rest =>
      if str_eq k' k then (k', v) :: rest else (k', v') :: dict_set k v rest
  end.

(** Opening the file and reading its rows. *)
Record Services : Type := {
  dict_reader : text -> result (list csv_row)
}.

(** [row[column]] *)
Definition row_field (row : csv_row) (column : text) : result (option text) :=
  match row !! column with
  | Some v => Ok v
  | None => Raise (codes "'" ++ column ++ codes "'")
  end.

(** The key and the value of the assignment in the loop: the value is
    evaluated first, then the key. *)
Definition entry_of (str_lower : text -> text) (row : csv_row)
  : result (text * employee) :=
  match row_field row (codes "name") with
  | Raise e => Raise e
  | Ok name =>
      match row_field row (codes "title") with
      | Raise e => Raise e
      | Ok title =>
          match row_field row (codes "manager") with
          | Raise e => Raise e
          | Ok manager =>
              match name with
              | None => Raise (codes "'NoneType' object has no attribute 'lower'")
              | Some n =>
                  Ok (str_lower n,
                      {| e_name := n; e_title := title; e_manager := manager |})
              end
          end
      end
  end.

Fixpoint load_rows (str_lower : text -> text) (rows : list csv_row) (data : chart)
  : result chart :=
  match rows with
  | [] => Ok data
  | row :: rest =>
      match entry_of str_lower row with
      | Raise e => Raise e
      | Ok (k, v) => load_rows str_lower rest (dict_set k v data)
      end
  end.

Definition load_org_chart (svc : Services) (str_lower : text -> text)
  (file_path : text) : M chart :=
  try_except
    (let* rows := call (dict_reader svc file_path) in
     let* data := call (load_rows str_lower rows []) in
     let* _ := print (codes "Successfully loaded "
                      ++ str_of_N (N.of_nat (List.length data))
                      ++ codes " employees from org chart") in
     ret data)
    (fun e =>
       let* _ := print (codes "Error loading org chart data: " ++ e) in
       ret []).

(** A value in an f-string. *)
Definition shown (v : option text) : text :=
  match v with
  | Some s => s
  | None => codes "None"
  end.

(** The response for an employee: the title, and the manager with the
    title the chart has for the manager. *)
Definition describe (str_lower : text -> text) (data : chart) (emp : employee)
  : text :=
  let response := e_name emp ++ codes " has the job title: " ++ shown (e_title emp) in
  match e_manager emp with
  | Some (c :: m) =>
      let manager_title :=
        match dict_get (str_lower (c :: m)) data with
        | Some manager_info => shown (e_title manager_info)
        | None => codes "Unknown Title"
        end in
      response ++ [NL] ++ codes "Their manager is " ++ (c :: m)
      ++ codes " (" ++ manager_title ++ codes ")"
  | _ => response ++ [NL] ++ codes "They do not have a manager (top of organization)"
  end.

Definition could_not_find (name : text) : text :=
  codes "Could not find anyone named '" ++ name
  ++ codes "' in the organization chart.".

Definition lookup_employee (str_lower : text -> text) (data : chart) (name : text)
  : text :=
  let name_lower := str_lower name in
  match dict_get name_lower data with
  | Some emp => describe str_lower data emp
  | None =>
      let partial_matches :=
        map snd (List.filter (fun '(name_key, _) => contains name_lower name_key) data) in
      match partial_matches with
      | [] => could_not_find name
      | [emp] => describe str_lower data emp
      | _ =>
          codes "Found multiple people matching '" ++ name ++ codes "': "
          ++ join (codes ", ") (map e_name partial_matches)
          ++ codes ". Please specify which one you're looking for."
      end
  end.

(** A chart of three rows, one of them twice, for the example. *)
Definition csv_line (name title manager : string) : csv_row :=
  <[codes "name" := Some (codes name)]>
    (<[codes "title" := Some (codes title)]>
       (<[codes "manager" := Some (codes manager)]> ∅)).

Definition three_rows : Services :=
  {| dict_reader := fun _ =>
       Ok [ csv_line "Ada Park" "Engineer" "Lin Zhou";
            csv_line "Lin Zhou" "Director" "";
            csv_line "ADA PARK" "Staff Engineer" "Lin Zhou" ] |}.

End OrgChart.

(** * Properties *)

(** String literals stay folded in the goals; evaluation unfolds them. *)
#[global] Opaque codes.

(** ** The matcher against the language of a pattern *)
Module ReFacts.
Import Re.

Lemma nullable_matches icase r : nullable r = true <-> matches icase r [].
Proof.
  split.
  - induction r; simpl; intros H; try discriminate.
    + constructor.
    + apply andb_true_iff in H as [H1 H2].
      change (@nil N) with (@nil N ++ []). constructor; auto.
    + apply orb_true_iff in H as [H | H]; [apply MAltL | apply MAltR]; auto.
    + constructor.
  - intros H. remember [] as s eqn:Es. induction H; simpl; try discriminate; auto.
    + apply app_eq_nil in Es as [-> ->]. rewrite IHmatches1, IHmatches2; auto.
    + rewrite IHmatches; auto.
    + rewrite IHmatches, orb_true_r; auto.
Qed.

Lemma matches_cat_inv icase a b s :
  matches icase (Cat a b) s ->
  exists s1 s2, s = s1 ++ s2 /\ matches icase a s1 /\ matches icase b s2.
Proof. intros H. inversion H; subst. eauto. Qed.

Lemma matches_alt_inv icase a b s :
  matches icase (Alt a b) s -> matches icase a s \/ matches icase b s.
Proof. intros H. inversion H; subst; auto. Qed.

Lemma star_cons_inv icase a x s :
  matches icase (Star a) (x :: s) ->
  exists s1 s2, s = s1 ++ s2 /\ matches icase a (x :: s1) /\ matches icase (Star a) s2.
Proof.
  intros H. remember (Star a) as r eqn:Er. remember (x :: s) as w eqn:Ew.
  revert x s Ew. induction H; intros y w Ew; try discriminate.
  injection Er as ->. destruct s as [|z s].
  - simpl in Ew. subst t. apply IHmatches2; auto.
  - simpl in Ew. injection Ew as -> <-. exists s, t. auto.
Qed.

Lemma deriv_matches icase x r s :
  matches icase (deriv icase x r) s <-> matches icase r (x :: s).
Proof.
  revert s. induction r; intros s; simpl.
  - split; intros H; inversion H.
  - split; intros H; inversion H.
  - destruct (lit_matches icase c x) eqn:E; split; intros H; inversion H; subst.
    + now constructor.
    + constructor.
    + congruence.
  - destruct (N.eqb_spec x NL); split; intros H; inversion H; subst.
    + congruence.
    + now constructor.
    + constructor.
  - destruct (is_digit x) eqn:E; split; intros H; inversion H; subst.
    + now constructor.
    + constructor.
    + congruence.
  - assert (Hcat : matches icase (Cat (deriv icase x r1) r2) s <->
                   exists s1 s2, s = s1 ++ s2 /\ matches icase r1 (x :: s1)
                                 /\ matches icase r2 s2).
    { split.
      - intros H. apply matches_cat_inv in H as (s1 & s2 & -> & H1 & H2).
        exists s1, s2. split; [reflexivity|]. split; auto. now apply IHr1.
      - intros (s1 & s2 & -> & H1 & H2). constructor; auto. now apply IHr1. }
    assert (Hinv : matches icase (Cat r1 r2) (x :: s) ->
                   (exists s1 s2, s = s1 ++ s2 /\ matches icase r1 (x :: s1)
                                  /\ matches icase r2 s2)
                   \/ (matches icase r1 [] /\ matches icase r2 (x :: s))).
    { intros H. apply matches_cat_inv in H as (u & v & Euv & Hu & Hv).
      destruct u as [|y u]; simpl in Euv.
      - subst v. right. auto.
      - injection Euv as -> ->. left. eauto. }
    destruct (nullable r1) eqn:En.
    + split.
      * intros H. apply matches_alt_inv in H as [H | H].
        -- apply Hcat in H as (s1 & s2 & -> & H1 & H2).
           change (x :: s1 ++ s2) with ((x :: s1) ++ s2). now constructor.
        -- change (x :: s) with ([] ++ x :: s). constructor.
           ++ now apply nullable_matches.
           ++ now apply IHr2.
      * intros H. apply Hinv in H as [H | [_ H]].
        -- apply MAltL, Hcat, H.
        -- apply MAltR, IHr2, H.
    + rewrite Hcat. split.
      * intros (s1 & s2 & -> & H1 & H2).
        change (x :: s1 ++ s2) with ((x :: s1) ++ s2). now constructor.
      * intros H. apply Hinv in H as [H | [H _]]; auto.
        apply (nullable_matches icase) in H. congruence.
  - split; intros H; apply matches_alt_inv in H as [H | H].
    + apply MAltL. now apply IHr1.
    + apply MAltR. now apply IHr2.
    + apply MAltL. now apply IHr1.
    + apply MAltR. now apply IHr2.
  - split.
    + intros H. apply matches_cat_inv in H as (s1 & s2 & -> & H1 & H2).
      change (x :: s1 ++ s2) with ((x :: s1) ++ s2). constructor; auto.
      now apply IHr.
    + intros H. apply star_cons_inv in H as (s1 & s2 & -> & H1 & H2).
      constructor; auto. now apply IHr.
Qed.

(** [match_at] succeeds exactly when a prefix of the text is in the
    language. *)
Lemma match_at_spec icase r s :
  match_at icase r s = true <->
  exists p q, s = p ++ q /\ matches icase r p.
Proof.
  revert r. induction s as [|x s IH]; intros r; simpl.
  - rewrite orb_false_r, (nullable_matches icase). split.
    + intros H. exists [], []. auto.
    + intros (p & q & E & H). symmetry in E. apply app_eq_nil in E as [-> _]. exact H.
  - rewrite orb_true_iff, IH, (nullable_matches icase). split.
    + intros [H | (p & q & -> & H)].
      * exists [], (x :: s). auto.
      * exists (x :: p), q. split; auto. now apply deriv_matches.
    + intros (p & q & E & H). destruct p as [|y p].
      * now left.
      * simpl in E. injection E as <- ->. right. exists p, q. split; auto.
        now apply deriv_matches.
Qed.

(** [search] succeeds exactly when some part of the text is in the
    language. *)
Lemma search_spec icase r s :
  search icase r s = true <->
  exists pre m post, s = pre ++ m ++ post /\ matches icase r m.
Proof.
  induction s as [|x s IH]; cbn [search].
  - rewrite orb_false_r, match_at_spec. split.
    + intros (p & q & E & H). exists [], p, q. auto.
    + intros (pre & m & post & E & H). symmetry in E.
      apply app_eq_nil in E as [-> E]. apply app_eq_nil in E as [-> ->].
      exists [], []. auto.
  - rewrite orb_true_iff, IH, match_at_spec. split.
    + intros [(p & q & E & H) | (pre & m & post & -> & H)].
      * exists [], p, q. auto.
      * exists (x :: pre), m, post. auto.
    + intros (pre & m & post & E & H). destruct pre as [|y pre].
      * left. exists m, post. auto.
      * simpl in E. injection E as <- ->. right. eauto.
Qed.

Lemma search_app_l icase r a b :
  search icase r a = true -> search icase r (a ++ b) = true.
Proof.
  rewrite !search_spec. intros (pre & m & post & -> & H).
  exists pre, m, (post ++ b). split; auto. now rewrite <- !app_assoc.
Qed.

Lemma search_app_r icase r a b :
  search icase r b = true -> search icase r (a ++ b) = true.
Proof.
  rewrite !search_spec. intros (pre & m & post & -> & H).
  exists (a ++ pre), m, post. split; auto. now rewrite <- !app_assoc.
Qed.

(** A literal that is not a line feed accepts no line feed. *)
Lemma lit_matches_nl icase c : lit_matches icase c NL = true -> c = NL.
Proof.
  unfold lit_matches, is_ascii_letter, ascii_lower, NL. cbv zeta. intros H.
  destruct icase; cbn [andb] in H;
    repeat match type of H with
           | context [(?a <=? ?b)%N] => destruct (N.leb_spec a b); cbn [andb orb] in H
           | context [(?a =? ?b)%N] => destruct (N.eqb_spec a b); cbn [andb orb] in H
           end; try discriminate; lia.
Qed.

(** A match of a pattern without a line-feed literal holds no line feed:
    [.] does not accept one either. *)
Lemma matches_nl_free icase r m :
  nl_free r = true -> matches icase r m -> ~ In NL m.
Proof.
  intros Hr H. induction H; cbn [nl_free In] in Hr |- *.
  - tauto.
  - intros [E | []]. subst x. apply lit_matches_nl in H. subst c.
    rewrite N.eqb_refl in Hr. discriminate.
  - intros [E | []]. congruence.
  - intros [E | []]. subst x. discriminate.
  - apply andb_true_iff in Hr as [H1 H2]. rewrite in_app_iff. tauto.
  - apply andb_true_iff in Hr as [H1 H2]. tauto.
  - apply andb_true_iff in Hr as [H1 H2]. tauto.
  - tauto.
  - rewrite in_app_iff. cbn [nl_free] in IHmatches2. tauto.
Qed.

(** A part of [a ++ x :: b] that does not hold [x] lies in [a] or in [b]. *)
Lemma part_avoiding {A} (x : A) (a b pre m post : list A) :
  a ++ x :: b = pre ++ m ++ post -> ~ In x m ->
  (exists post', a = pre ++ m ++ post') \/ (exists pre', b = pre' ++ m ++ post).
Proof.
  intros E Hx. apply app_eq_app in E as [l [[-> E] | [-> E]]].
  - apply app_eq_app in E as [l2 [[-> E] | [-> E]]].
    + destruct l2 as [|y l2]; simpl in E.
      * left. exists []. now rewrite !app_nil_r.
      * injection E as -> _. exfalso. apply Hx. rewrite in_app_iff. simpl. auto.
    + left. exists l2. reflexivity.
  - destruct l as [|y l]; simpl in E.
    + destruct m as [|y m]; simpl in E.
      * left. exists []. now rewrite !app_nil_r.
      * injection E as -> _. exfalso. apply Hx. simpl. auto.
    + injection E as _ ->. right. exists l. reflexivity.
Qed.

(** A pattern without a line-feed literal found in two texts joined by a
    line feed is found in one of them. *)
Lemma search_across_newline icase r a b :
  nl_free r = true ->
  search icase r (a ++ NL :: b) = true ->
  search icase r a = true \/ search icase r b = true.
Proof.
  intros Hr. rewrite !search_spec. intros (pre & m & post & E & H).
  destruct (part_avoiding _ _ _ _ _ _ E (matches_nl_free _ _ _ Hr H))
    as [[post' ->] | [pre' ->]]; [left | right]; eauto.
Qed.

(** A literal word matches itself, whatever the case flag. *)
Lemma lit_matches_refl icase c : lit_matches icase c c = true.
Proof.
  unfold lit_matches, is_ascii_letter, ascii_lower. cbv zeta.
  destruct icase; cbn [andb]; [|apply N.eqb_refl].
  repeat match goal with
         | |- context [(?a <=? ?b)%N] => destruct (N.leb_spec a b); cbn [andb orb]
         end; rewrite ?N.eqb_refl; cbn [andb orb]; auto.
  all: replace (c + 32 - 32)%N with c by lia; rewrite N.eqb_refl;
    now rewrite ?orb_true_r.
Qed.

Lemma matches_word icase w : matches icase (word w) w.
Proof.
  induction w as [|c w IH]; simpl.
  - constructor.
  - change (c :: w) with ([c] ++ w). constructor; auto.
    constructor. apply lit_matches_refl.
Qed.

Lemma matches_dotstar icase s : ~ In NL s -> matches icase (Star Dot) s.
Proof.
  induction s as [|c s IH]; simpl; intros H.
  - constructor.
  - change (c :: s) with ([c] ++ s). constructor.
    + constructor. intros ->. tauto.
    + apply IH. tauto.
Qed.

End ReFacts.

(** ** What a computation leaves unchanged *)
Module Frame.

(** Every run of [m] relates the state before to the state after. *)
Definition preserves {A} (R : state -> state -> Prop) (m : M A) : Prop :=
  forall st, R st (snd (m st)).

(** [m] returns: it raises in no state. *)
Definition returns {A} (m : M A) : Prop :=
  forall st, exists a, fst (m st) = Ok a.

Section Rules.
Context (R : state -> state -> Prop) `{!PreOrder R}.

Lemma preserves_ret {A} (a : A) : preserves R (ret a).
Proof. intros st. simpl. reflexivity. Qed.

Lemma preserves_raise {A} e : preserves R (@raise A e).
Proof. intros st. simpl. reflexivity. Qed.

Lemma preserves_call {A} (r : result A) : preserves R (call r).
Proof. intros st. simpl. reflexivity. Qed.

Lemma preserves_read p : preserves R (read_artifact p).
Proof. intros st. simpl. reflexivity. Qed.

Lemma preserves_bind {A B} (m : M A) (k : A -> M B) :
  preserves R m -> (forall a, preserves R (k a)) -> preserves R (bind m k).
Proof.
  intros Hm Hk st. unfold bind. specialize (Hm st).
  destruct (m st) as [[a | e] st1]; simpl in *; auto.
  etransitivity; [exact Hm | apply Hk].
Qed.

Lemma preserves_try {A} (m : M A) (h : text -> M A) :
  preserves R m -> (forall e, preserves R (h e)) -> preserves R (try_except m h).
Proof.
  intros Hm Hh st. unfold try_except. specialize (Hm st).
  destruct (m st) as [[a | e] st1]; simpl in *; auto.
  etransitivity; [exact Hm | apply Hh].
Qed.

Lemma preserves_for_each {A} (l : list A) (body : A -> M unit) :
  (forall x, preserves R (body x)) -> preserves R (for_each l body).
Proof.
  intros Hb. induction l as [|x l IH]; simpl.
  - apply preserves_ret.
  - apply preserves_bind; auto.
Qed.
End Rules.

Lemma returns_ret {A} (a : A) : returns (ret a).
Proof. intros st. eauto. Qed.

Lemma returns_print s : returns (print s).
Proof. intros st. eauto. Qed.

Lemma returns_restore : returns restore_stdout.
Proof. intros st. eauto. Qed.

Lemma returns_redirect : returns redirect_stdout.
Proof. intros st. eauto. Qed.

Lemma returns_bind {A B} (m : M A) (k : A -> M B) :
  returns m -> (forall a, returns (k a)) -> returns (bind m k).
Proof.
  intros Hm Hk st. unfold bind. destruct (Hm st) as [a Ha].
  destruct (m st) as [[a' | e] st1]; simpl in *; [apply Hk | discriminate].
Qed.

Lemma returns_try {A} (m : M A) (h : text -> M A) :
  (forall e, returns (h e)) -> returns (try_except m h).
Proof.
  intros Hh st. unfold try_except.
  destruct (m st) as [[a | e] st1]; simpl; [eauto | apply Hh].
Qed.

Lemma returns_for_each {A} (l : list A) (body : A -> M unit) :
  (forall x, returns (body x)) -> returns (for_each l body).
Proof.
  intros Hb. induction l as [|x l IH]; simpl.
  - apply returns_ret.
  - apply returns_bind; auto.
Qed.

(** Standard output only grows. *)
Definition grows (st st' : state) : Prop :=
  exists suffix, stdout st' = stdout st ++ suffix.

#[export] Instance grows_preorder : PreOrder grows.
Proof.
  split.
  - intros st. exists []. now rewrite app_nil_r.
  - intros a b c [s1 H1] [s2 H2]. exists (s1 ++ s2).
    now rewrite H2, H1, <- app_assoc.
Qed.

(** While [sys.stdout] is redirected, standard output is not written and
    the redirection stays. *)
Definition quiet (st st' : state) : Prop :=
  captured st <> None -> stdout st' = stdout st /\ captured st' <> None.

#[export] Instance quiet_preorder : PreOrder quiet.
Proof.
  split.
  - intros st H. auto.
  - intros a b c H1 H2 Ha. destruct (H1 Ha) as [E1 Hb].
    destruct (H2 Hb) as [E2 Hc]. split; congruence.
Qed.

(** The disk is not written. *)
Definition same_disk (st st' : state) : Prop := disk st' = disk st.

#[export] Instance same_disk_preorder : PreOrder same_disk.
Proof. split; unfold same_disk; congruence. Qed.

Definition is_embed (ev : event) : bool :=
  match ev with Embed _ => true | _ => false end.

(** The embedding model is not called. *)
Definition no_embed (st st' : state) : Prop :=
  exists evs, log st' = log st ++ evs /\ forallb (fun ev => negb (is_embed ev)) evs = true.

#[export] Instance no_embed_preorder : PreOrder no_embed.
Proof.
  split.
  - intros st. exists []. now rewrite app_nil_r.
  - intros a b c [l1 [H1 F1]] [l2 [H2 F2]]. exists (l1 ++ l2). split.
    + now rewrite H2, H1, <- app_assoc.
    + rewrite forallb_app. now rewrite F1, F2.
Qed.

Lemma grows_print s : preserves grows (print s).
Proof.
  intros st. unfold print; simpl. destruct (captured st); simpl.
  - exists []. simpl. now rewrite app_nil_r.
  - now exists (s ++ [NL]).
Qed.

Lemma grows_redirect : preserves grows redirect_stdout.
Proof. intros st. exists []. simpl. now rewrite app_nil_r. Qed.

Lemma grows_restore : preserves grows restore_stdout.
Proof. intros st. exists []. simpl. now rewrite app_nil_r. Qed.

Lemma grows_emit ev : preserves grows (emit ev).
Proof. intros st. exists []. simpl. now rewrite app_nil_r. Qed.

Lemma grows_exists p : preserves grows (path_exists p).
Proof. intros st. exists []. simpl. now rewrite app_nil_r. Qed.

Lemma grows_write p a : preserves grows (write_artifact p a).
Proof. intros st. exists []. simpl. now rewrite app_nil_r. Qed.

Lemma quiet_print s : preserves quiet (print s).
Proof.
  intros st H. unfold print; simpl. destruct (captured st); simpl; [|tauto].
  split; [reflexivity | discriminate].
Qed.

Lemma quiet_emit ev : preserves quiet (emit ev).
Proof. intros st H. simpl. auto. Qed.

Lemma quiet_exists p : preserves quiet (path_exists p).
Proof. intros st H. simpl. auto. Qed.

Lemma quiet_write p a : preserves quiet (write_artifact p a).
Proof. intros st H. simpl. auto. Qed.

Lemma same_disk_print s : preserves same_disk (print s).
Proof. intros st. unfold print, same_disk; simpl. now destruct (captured st). Qed.

Lemma same_disk_emit ev : preserves same_disk (emit ev).
Proof. intros st. reflexivity. Qed.

Lemma same_disk_exists p : preserves same_disk (path_exists p).
Proof. intros st. reflexivity. Qed.

Lemma no_embed_print s : preserves no_embed (print s).
Proof.
  intros st. exists []. unfold print; simpl.
  destruct (captured st); simpl; now rewrite app_nil_r.
Qed.

Lemma no_embed_write p a : preserves no_embed (write_artifact p a).
Proof. intros st. exists []. simpl. now rewrite app_nil_r. Qed.

Lemma no_embed_exists p : preserves no_embed (path_exists p).
Proof. intros st. exists [PathExists p]. auto. Qed.

Lemma no_embed_emit ev : is_embed ev = false -> preserves no_embed (emit ev).
Proof. intros H st. exists [ev]. simpl. now rewrite H. Qed.

Create HintDb frame.
#[export] Hint Resolve preserves_ret preserves_raise preserves_call preserves_read
  grows_print grows_redirect grows_restore grows_emit grows_exists grows_write
  quiet_print quiet_emit quiet_exists quiet_write
  same_disk_print same_disk_emit same_disk_exists
  no_embed_print no_embed_write no_embed_exists
  returns_ret returns_print returns_restore returns_redirect : frame.

(** Structural steps through a computation; the leaves are closed from the
    hint base. *)
Ltac frame_step :=
  match goal with
  | |- preserves ?R (bind _ _) => apply (preserves_bind R); [|intros ?]
  | |- preserves ?R (try_except _ _) => apply (preserves_try R); [|intros ?]
  | |- preserves ?R (for_each _ _) => apply (preserves_for_each R); intros ?
  | |- preserves ?R (ret _) => apply (preserves_ret R)
  | |- preserves ?R (raise _) => apply (preserves_raise R)
  | |- preserves ?R (call _) => apply (preserves_call R)
  | |- preserves ?R (read_artifact _) => apply (preserves_read R)
  | |- preserves _ (let _ := _ in _) => cbv zeta
  | |- preserves _ (emit _) => first [apply no_embed_emit; reflexivity | solve [auto with frame typeclass_instances]]
  | |- returns (bind _ _) => apply returns_bind; [|intros ?]
  | |- returns (try_except _ _) => apply returns_try; intros ?
  | |- returns (for_each _ _) => apply returns_for_each; intros ?
  | |- preserves _ (match ?x with _ => _ end) => destruct x
  | |- returns (match ?x with _ => _ end) => destruct x
  | |- preserves _ (if ?b then _ else _) => destruct b
  | |- returns (if ?b then _ else _) => destruct b
  | |- _ => solve [eauto with frame typeclass_instances]
  end.

Ltac frame := repeat frame_step.

End Frame.

(** ** The insufficiency evaluator *)
Module Insufficiency.
Import Re ReFacts Supervisor.

Lemma patterns_nl_free : forallb nl_free INSUFFICIENT_ANSWER_PATTERNS = true.
Proof. vm_compute. reflexivity. Qed.

(** One pattern found in the answer is enough. *)
Lemma one_pattern_suffices answer pattern :
  In pattern INSUFFICIENT_ANSWER_PATTERNS ->
  search true pattern answer = true ->
  is_insufficient_answer answer = true.
Proof.
  intros Hin Hs. unfold is_insufficient_answer. apply existsb_exists. eauto.
Qed.

(** Text added after an insufficient answer leaves it insufficient, and so
    does text added before it. *)
Lemma insufficient_app answer before after :
  is_insufficient_answer answer = true ->
  is_insufficient_answer (before ++ answer ++ after) = true.
Proof.
  unfold is_insufficient_answer. rewrite !existsb_exists.
  intros (p & Hin & Hs). exists p. split; auto.
  now apply search_app_r, search_app_l.
Qed.

Lemma hedging_phrase_found pre post :
  is_insufficient_answer
    (pre ++ codes "does not contain specific information" ++ post) = true.
Proof. apply insufficient_app. vm_compute. reflexivity. Qed.

(** ** C6 *)

(** C6, as stated, fails: appended text that matches no pattern can
    complete a pattern begun in a sufficient answer. *)
Lemma appended_text_completes_pattern :
  ~ (forall A B : text,
       is_insufficient_answer A = false ->
       is_insufficient_answer B = false ->
       is_insufficient_answer (A ++ B) = false).
Proof.
  intros H.
  assert (E : is_insufficient_answer
                (codes "does not contain any" ++ codes " information") = false).
  { apply H; vm_compute; reflexivity. }
  vm_compute in E. discriminate E.
Qed.

(** C6, amended: a sufficient answer stays sufficient when text that matches
    no pattern is appended on a new line.  No pattern matches across a line
    feed: none holds one, and [.] does not accept one. *)
Theorem sufficient_answer_plus_line (A B : text) :
  is_insufficient_answer A = false ->
  is_insufficient_answer B = false ->
  is_insufficient_answer (A ++ NL :: B) = false.
Proof.
  intros HA HB. destruct (is_insufficient_answer (A ++ NL :: B)) eqn:E; auto.
  unfold is_insufficient_answer in E. apply existsb_exists in E as (p & Hin & Hs).
  assert (Hfree : nl_free p = true).
  { pose proof patterns_nl_free as F. rewrite forallb_forall in F. auto. }
  apply search_across_newline in Hs as [Hs | Hs]; auto.
  - rewrite (one_pattern_suffices A p Hin Hs) in HA. discriminate.
  - rewrite (one_pattern_suffices B p Hin Hs) in HB. discriminate.
Qed.

Lemma sufficient_answer_plus_line_witness :
  is_insufficient_answer
    (codes "does not contain any" ++ NL :: codes " information") = false.
Proof.
  apply (sufficient_answer_plus_line (codes "does not contain any")
           (codes " information")); vm_compute; reflexivity.
Defined.

End Insufficiency.

(** ** Running a computation step by step *)
Module Run.

Lemma bind_ok {A B} (m : M A) (k : A -> M B) st a st' :
  m st = (Ok a, st') -> bind m k st = k a st'.
Proof. intros H. unfold bind. now rewrite H. Qed.

Lemma bind_raise {A B} (m : M A) (k : A -> M B) st e st' :
  m st = (Raise e, st') -> bind m k st = (Raise e, st').
Proof. intros H. unfold bind. now rewrite H. Qed.

Lemma try_ok {A} (m : M A) h st a st' :
  m st = (Ok a, st') -> try_except m h st = (Ok a, st').
Proof. intros H. unfold try_except. now rewrite H. Qed.

Lemma try_raise {A} (m : M A) h st e st' :
  m st = (Raise e, st') -> try_except m h st = h e st'.
Proof. intros H. unfold try_except. now rewrite H. Qed.

Lemma returns_run {A} (m : M A) st :
  Frame.returns m -> exists a st', m st = (Ok a, st').
Proof.
  intros H. destruct (H st) as [a Ha]. destruct (m st) as [r st'] eqn:E.
  simpl in Ha. subst r. eauto.
Qed.

End Run.

(** ** The web escalation *)
Module Escalation.
Import Supervisor Web Frame Run.

(** [fetch_webpage_content] leaves the state as it is and returns a text in
    every case. *)
Lemma fetch_webpage_content_run svc url st :
  fetch_webpage_content svc url st =
  (Ok match requests_get svc url with
      | Raise e => codes "Error fetching webpage: " ++ e
      | Ok response =>
          if negb (status_code response =? 200)%N
          then codes "Failed to fetch the webpage. Status code: "
               ++ str_of_N (status_code response)
          else clean_page (page_text response)
      end, st).
Proof.
  unfold fetch_webpage_content, try_except, bind, call.
  destruct (requests_get svc url) as [response | e]; simpl; auto.
  destruct (negb (status_code response =? 200)%N); reflexivity.
Qed.

Lemma truncate_page_length t :
  (N.of_nat (List.length (truncate_page t)) <= 10020)%N.
Proof.
  unfold truncate_page.
  destruct (N.ltb_spec 10000 (N.of_nat (List.length t))) as [H | H].
  - rewrite length_app, length_firstn.
    change (List.length TRUNCATED) with 20%nat. lia.
  - lia.
Qed.

Lemma returns_search_web svc query n : returns (search_web svc query n).
Proof. unfold search_web. frame. Qed.

Lemma returns_fetch svc url : returns (fetch_webpage_content svc url).
Proof. intros st. rewrite fetch_webpage_content_run. simpl. eauto. Qed.

Lemma returns_fetch_pieces svc results pieces :
  returns (fetch_pieces svc results pieces).
Proof.
  revert pieces. induction results as [|r results IH]; intros pieces; simpl.
  - frame.
  - apply returns_bind; [frame | intros _].
    destruct (sr_url r); [apply IH|].
    apply returns_bind; [apply returns_fetch | intros content].
    destruct content; [apply IH|].
    match goal with |- returns (if ?b then _ else _) => destruct b end; apply IH.
Qed.

(** [search_online_and_respond] raises in no state. *)
Lemma returns_search_online svc query initial :
  returns (search_online_and_respond svc query initial).
Proof.
  unfold search_online_and_respond.
  apply returns_bind; [frame | intros _].
  apply returns_bind; [apply returns_search_web | intros results].
  destruct results as [|first rest]; [frame|].
  destruct (contains _ _); [frame|].
  apply returns_bind; [apply returns_fetch_pieces | intros pieces].
  destruct pieces; frame.
Qed.

(** What [search_web] returns, and the state it leaves. *)
Lemma search_web_run svc query st :
  exists st',
    search_web svc query 3 st =
    (Ok match requests_get svc (search_url query) with
        | Raise e => [error_result (codes "Failed to search: " ++ e)]
        | Ok response =>
            if negb (status_code response =? 200)%N
            then [error_result (codes "Failed to search. Status code: "
                                ++ str_of_N (status_code response))]
            else collect_results 3 (firstn 3 (result_divs response)) []
        end, st').
Proof.
  unfold search_web, bind, try_except, call. simpl.
  destruct (requests_get svc (search_url query)) as [response | e]; simpl; eauto.
  destruct (negb (status_code response =? 200)%N); simpl; eauto.
Qed.

(** A result whose page fetch fails contributes nothing: the loop goes on
    with the pieces it had. *)
Lemma fetch_pieces_skip svc r rest pieces st :
  fetch_fails svc r = true ->
  exists st1, fetch_pieces svc (r :: rest) pieces st = fetch_pieces svc rest pieces st1.
Proof.
  unfold fetch_fails. intros H. cbn [fetch_pieces]. unfold bind at 1. simpl.
  destruct (sr_url r) as [|c url] eqn:Eurl; [eauto|].
  unfold bind at 1. rewrite fetch_webpage_content_run.
  destruct (requests_get svc (c :: url)) as [response | e].
  - rewrite H. simpl. eauto.
  - simpl. eauto.
Qed.

Lemma fetch_pieces_all_fail svc results pieces st :
  forallb (fetch_fails svc) results = true ->
  exists st', fetch_pieces svc results pieces st = (Ok pieces, st').
Proof.
  revert st. induction results as [|r results IH]; intros st H.
  - simpl. eauto.
  - simpl in H. apply andb_true_iff in H as [Hr Hrest].
    destruct (fetch_pieces_skip svc r results pieces st Hr) as [st1 ->]. auto.
Qed.

(** ** C7 *)

(** C7, as stated, fails: when the search finds a result and its page
    fetch times out, the string returned is another one, which does not
    hold the words of the claim. *)
Lemma failed_fetches_give_another_message :
  fst (search_online_and_respond Scenario.svc_pages_down Scenario.QUERY []
         Scenario.st0) = Ok NO_USEFUL_CONTENT
  /\ contains (codes "couldn't find additional information") NO_USEFUL_CONTENT = false
  /\ contains (codes "couldn't find additional information") NOT_FOUND_ONLINE = true.
Proof. repeat split; vm_compute; reflexivity. Qed.

(** C7, amended: [search_online_and_respond] raises in no state and returns
    a string.  When the search step fails (the request raises, the status
    is not 200, or no result block is kept) or the first title holds
    [Error], the string is the fixed message that nothing was found online.
    When results are found and the page fetch fails for each of them, it is
    a second fixed message, that no useful content could be extracted.  A
    result block that raises and a result whose fetch fails are skipped. *)
Theorem escalation_falls_back svc query initial st :
  exists answer st',
    search_online_and_respond svc query initial st = (Ok answer, st')
    /\ (search_fails svc query = true -> answer = NOT_FOUND_ONLINE)
    /\ (forall first rest,
          search_fails svc query = false ->
          search_results_of svc query = first :: rest ->
          contains (codes "Error") (sr_title first) = true ->
          answer = NOT_FOUND_ONLINE)
    /\ (forall first rest,
          search_fails svc query = false ->
          search_results_of svc query = first :: rest ->
          contains (codes "Error") (sr_title first) = false ->
          forallb (fetch_fails svc) (first :: rest) = true ->
          answer = NO_USEFUL_CONTENT)
    /\ (forall n d divs kept,
          parse_div d = None ->
          collect_results n (d :: divs) kept = collect_results n divs kept)
    /\ (forall r results pieces st1,
          fetch_fails svc r = true ->
          exists st2,
            fetch_pieces svc (r :: results) pieces st1
            = fetch_pieces svc results pieces st2).
Proof.
  enough (exists answer st',
    search_online_and_respond svc query initial st = (Ok answer, st')
    /\ (search_fails svc query = true -> answer = NOT_FOUND_ONLINE)
    /\ (forall first rest,
          search_fails svc query = false ->
          search_results_of svc query = first :: rest ->
          contains (codes "Error") (sr_title first) = true ->
          answer = NOT_FOUND_ONLINE)
    /\ (forall first rest,
          search_fails svc query = false ->
          search_results_of svc query = first :: rest ->
          contains (codes "Error") (sr_title first) = false ->
          forallb (fetch_fails svc) (first :: rest) = true ->
          answer = NO_USEFUL_CONTENT))
    as (answer & st' & H0 & H1 & H2 & H3).
  { exists answer, st'. repeat split; auto using fetch_pieces_skip.
    intros n d divs kept Hd. simpl. now rewrite Hd. }
  unfold search_online_and_respond. unfold bind at 1. simpl.
  match goal with |- context [bind _ _ ?s] =>
    destruct (search_web_run svc query s) as [st1 E]; unfold bind at 1; rewrite E
  end.
  clear E.
  unfold search_fails, search_results_of.
  destruct (requests_get svc (search_url query)) as [response | e].
  - destruct (negb (status_code response =? 200)%N) eqn:Est.
    + cbn [error_result sr_title]. simpl.
      eexists _, _. split; [reflexivity|].
      repeat split; intros; try discriminate; auto.
    + simpl orb.
      destruct (collect_results 3 (firstn 3 (result_divs response)) [])
        as [|first rest] eqn:Eres.
      * eexists _, _. split; [reflexivity|].
        repeat split; intros; try discriminate; auto.
      * destruct (contains (codes "Error") (sr_title first)) eqn:Herr.
        -- eexists _, _. split; [reflexivity|].
           repeat split; intros; try discriminate; auto.
           match goal with H : first :: rest = _ :: _ |- _ => injection H as <- <- end.
           congruence.
        -- destruct (returns_run _ st1 (returns_fetch_pieces svc (first :: rest) []))
             as (pieces & st2 & Hp).
           unfold bind at 1. rewrite Hp.
           destruct pieces as [|piece pieces].
           ++ eexists _, _. split; [reflexivity|].
              repeat split; intros; try discriminate; auto.
              match goal with H : first :: rest = _ :: _ |- _ => injection H as <- <- end.
              congruence.
           ++ assert (Hnot : forallb (fetch_fails svc) (first :: rest) = true -> False).
              { intros Hall.
                destruct (fetch_pieces_all_fail svc (first :: rest) [] st1 Hall)
                  as [st3 Hp3].
                rewrite Hp3 in Hp. discriminate Hp. }
              unfold try_except, bind, call, ret.
              destruct (online_completion svc query initial _) as [a | e];
                (eexists _, _; split; [reflexivity|]);
                (split; [intros Hf; simpl in Hf; discriminate Hf | split]);
                intros f r _ Ef Hf; injection Ef as <- <-;
                [congruence | intros Hall; destruct (Hnot Hall)
                |congruence | intros Hall; destruct (Hnot Hall)].
  - simpl. eexists _, _. split; [reflexivity|].
    repeat split; intros; try discriminate; auto.
Qed.

Lemma escalation_falls_back_witness :
  fst (search_online_and_respond Scenario.svc_pages_down Scenario.QUERY
         Scenario.HEDGING_ANSWER Scenario.st_indexed) = Ok NO_USEFUL_CONTENT
  /\ fst (search_online_and_respond Scenario.svc_classifier_down (codes "dns")
            [] Scenario.st0) = Ok NOT_FOUND_ONLINE.
Proof.
  split.
  - destruct (escalation_falls_back Scenario.svc_pages_down Scenario.QUERY
                Scenario.HEDGING_ANSWER Scenario.st_indexed)
      as (answer & st' & Hrun & _ & _ & Hnone & _).
    rewrite Hrun. simpl. f_equal.
    eapply Hnone; vm_compute; reflexivity.
  - destruct (escalation_falls_back Scenario.svc_classifier_down (codes "dns")
                [] Scenario.st0)
      as (answer & st' & Hrun & Hfail & _).
    rewrite Hrun. simpl. f_equal.
    apply Hfail. vm_compute. reflexivity.
Defined.

(** ** C9 *)

(** C9, as stated, fails: a page of 10,001 letters comes back as 10,000
    letters followed by the marker, 10,020 characters. *)
Lemma truncation_marker_exceeds_budget :
  fst (fetch_webpage_content Scenario.svc_long_page
         (codes "https://docs.example/guide") Scenario.st0)
  = Ok (repeat 97%N (N.to_nat 10000) ++ TRUNCATED)
  /\ N.of_nat (List.length (repeat 97%N (N.to_nat 10000) ++ TRUNCATED)) = 10020%N.
Proof. split; vm_compute; reflexivity. Qed.

(** C9, amended: the text of a fetched page (status 200) is its cleaned
    text when that has at most 10,000 characters, and otherwise its first
    10,000 characters followed by the 20-character marker; it never exceeds
    10,020 characters. *)
Theorem page_text_within_budget svc url response st :
  requests_get svc url = Ok response ->
  status_code response = 200%N ->
  let cleaned := page_chunks (page_text response) in
  exists content,
    fetch_webpage_content svc url st = (Ok content, st)
    /\ (N.of_nat (List.length content) <= 10020)%N
    /\ ((N.of_nat (List.length cleaned) <= 10000)%N -> content = cleaned)
    /\ ((10000 < N.of_nat (List.length cleaned))%N ->
        content = firstn (N.to_nat 10000) cleaned ++ TRUNCATED).
Proof.
  intros Hget Hstatus cleaned. exists (clean_page (page_text response)).
  rewrite fetch_webpage_content_run, Hget, Hstatus. simpl negb. cbv iota.
  unfold clean_page. fold cleaned.
  repeat split; auto using truncate_page_length; unfold truncate_page;
    destruct (N.ltb_spec 10000 (N.of_nat (List.length cleaned))); intros; auto; lia.
Qed.

Lemma page_text_within_budget_witness :
  exists content,
    fetch_webpage_content Scenario.svc_hedging (codes "https://docs.example/travel")
      Scenario.st0 = (Ok content, Scenario.st0)
    /\ content = codes "Travel" ++ [NL] ++ codes "policy" ++ [NL] ++ codes "Book early.".
Proof.
  destruct (page_text_within_budget Scenario.svc_hedging
              (codes "https://docs.example/travel") Scenario.travel_page Scenario.st0)
    as (content & Hrun & _ & Hc & _).
  - vm_compute. reflexivity.
  - reflexivity.
  - exists content. split; [exact Hrun|]. rewrite Hc.
    + vm_compute. reflexivity.
    + vm_compute. discriminate.
Defined.

End Escalation.

(** ** The confidence as a binary64 number *)
Module Float64Facts.
Import Float64.

Lemma round_half_even_bounds n d K :
  (0 <= n)%Z -> (0 < d)%Z -> (n < K * d)%Z ->
  (0 <= round_half_even n d <= K)%Z.
Proof.
  intros Hn Hd HK. unfold round_half_even.
  assert (H0 : (0 <= n / d)%Z) by (apply Z.div_pos; lia).
  assert (H1 : (n / d < K)%Z) by (apply Z.div_lt_upper_bound; lia).
  destruct (2 * (n mod d) <? d)%Z; [lia|].
  destruct (d <? 2 * (n mod d))%Z; [lia|].
  destruct (Z.even (n / d)); lia.
Qed.

Lemma exponent_negative n d :
  (0 < n)%Z -> (0 < d)%Z -> (n < 10 * d)%Z -> (exponent n d < 0)%Z.
Proof.
  intros Hn Hd H. unfold exponent.
  assert (Hl : (Z.log2 n <= 4 + Z.log2 d)%Z).
  { rewrite <- Z.log2_mul_pow2 by lia. apply Z.log2_le_mono.
    change (2 ^ 4)%Z with 16%Z. lia. }
  destruct (0 <=? Z.log2 n - Z.log2 d)%Z;
    match goal with |- context [if ?b then _ else _] => destruct b end; lia.
Qed.

(** The float of a decimal below ten lies between zero and ten. *)
Lemma nearest_bounds n d :
  (0 <= n)%Z -> (0 < d)%Z -> (n < 10 * d)%Z ->
  (0 <= nearest n d)%Q /\ (nearest n d <= 10)%Q.
Proof.
  intros Hn Hd H. unfold nearest.
  destruct (Z.leb_spec n 0) as [Hz | Hpos].
  - split; discriminate.
  - pose proof (exponent_negative n d Hpos Hd H) as He.
    destruct (Z.leb_spec 0 (exponent n d)) as [Hge | _]; [lia|].
    set (P := (2 ^ (- exponent n d))%Z).
    assert (HP : (0 < P)%Z) by (apply Z.pow_pos_nonneg; lia).
    destruct (round_half_even_bounds (n * P) d (10 * P)) as [Hlo Hhi]; try nia.
    rewrite !Qred_correct. unfold Qle. simpl.
    rewrite Z2Pos.id by exact HP. split; lia.
Qed.

Lemma int_of_digits_acc ds acc :
  forallb Re.is_digit ds = true ->
  fold_left (fun a c => (10 * a + digit_value c)%Z) ds acc
  = (acc * 10 ^ Z.of_nat (List.length ds) + int_of_digits ds)%Z.
Proof.
  unfold int_of_digits. revert acc. induction ds as [|c ds IH]; intros acc H.
  - simpl. lia.
  - cbn [forallb] in H. apply andb_true_iff in H as [Hc Hds].
    cbn [fold_left List.length]. rewrite (IH (10 * acc + digit_value c)%Z Hds).
    rewrite (IH (10 * 0 + digit_value c)%Z Hds).
    rewrite Nat2Z.inj_succ, Z.pow_succ_r by lia. lia.
Qed.

Lemma int_of_digits_bounds ds :
  forallb Re.is_digit ds = true ->
  (0 <= int_of_digits ds < 10 ^ Z.of_nat (List.length ds))%Z.
Proof.
  induction ds as [|c ds IH]; intros H.
  - unfold int_of_digits. simpl. lia.
  - cbn [forallb] in H. apply andb_true_iff in H as [Hc Hds].
    specialize (IH Hds). unfold int_of_digits at 1 2. cbn [fold_left].
    rewrite int_of_digits_acc by exact Hds.
    cbn [List.length]. rewrite Nat2Z.inj_succ, Z.pow_succ_r by lia.
    assert (Hd : (0 <= digit_value c <= 9)%Z).
    { unfold Re.is_digit in Hc. apply andb_true_iff in Hc as [H1 H2].
      apply N.leb_le in H1, H2. unfold digit_value. lia. }
    nia.
Qed.

(** [float] on group 1 of the confidence pattern: a digit, the point, a
    non-empty run of digits. *)
Lemma float_of_group d frac :
  Re.is_digit d = true -> forallb Re.is_digit frac = true -> frac <> [] ->
  float (d :: 46%N :: frac)
  = Ok (nearest (int_of_digits (d :: frac)) (10 ^ Z.of_nat (List.length frac))).
Proof.
  intros Hd Hfrac Hne. unfold float. cbn [takewhile dropwhile]. rewrite Hd.
  cbn [takewhile dropwhile]. change (Re.is_digit 46%N) with false. cbv iota.
  rewrite Hfrac. destruct frac as [|c frac]; [congruence|]. reflexivity.
Qed.

Lemma float_of_group_bounds d frac :
  Re.is_digit d = true -> forallb Re.is_digit frac = true -> frac <> [] ->
  exists c, float (d :: 46%N :: frac) = Ok c /\ (0 <= c)%Q /\ (c <= 10)%Q.
Proof.
  intros Hd Hfrac Hne. rewrite float_of_group by assumption.
  eexists. split; [reflexivity|].
  assert (Hall : forallb Re.is_digit (d :: frac) = true).
  { cbn [forallb]. now rewrite Hd, Hfrac. }
  pose proof (int_of_digits_bounds _ Hall) as Hb.
  cbn [List.length] in Hb. rewrite Nat2Z.inj_succ, Z.pow_succ_r in Hb by lia.
  apply nearest_bounds; lia.
Qed.

End Float64Facts.

(** ** The query classifier *)
Module Classification.
Import Re ReFacts Supervisor.

Lemma startswith_spec p s :
  startswith p s = true <-> exists rest, s = p ++ rest.
Proof.
  revert s. induction p as [|a p IH]; intros s; simpl.
  - split; eauto.
  - destruct s as [|b s].
    + split; [discriminate | intros [rest E]; discriminate E].
    + rewrite andb_true_iff, IH, N.eqb_eq. split.
      * intros [-> [rest ->]]. eauto.
      * intros [rest E]. injection E as -> ->. eauto.
Qed.

Lemma skipn_prefix {A} (p rest : list A) : skipn (List.length p) (p ++ rest) = rest.
Proof. induction p; simpl; auto. Qed.

Lemma search_group_some {A} (at_pos : text -> option A) s g :
  search_group at_pos s = Some g ->
  exists pre rest, s = pre ++ rest /\ at_pos rest = Some g.
Proof.
  induction s as [|x s IH]; cbn [search_group]; intros H.
  - destruct (at_pos []) eqn:E; [|discriminate]. exists [], []. split; [reflexivity | congruence].
  - destruct (at_pos (x :: s)) eqn:E.
    + exists [], (x :: s). split; [reflexivity | congruence].
    + destruct (IH H) as (pre & rest & -> & Hr). exists (x :: pre), rest. auto.
Qed.

(** The extraction of a group succeeds where the search of its pattern
    does. *)
Lemma search_group_search {A} (at_pos : text -> option A) icase r s :
  (forall u, is_Some (at_pos u) <-> match_at icase r u = true) ->
  (is_Some (search_group at_pos s) <-> search icase r s = true).
Proof.
  intros Hpos. induction s as [|x s IH]; cbn [search_group search].
  - rewrite orb_false_r, <- Hpos. destruct (at_pos []); split; auto.
  - rewrite orb_true_iff, <- Hpos, <- IH. destruct (at_pos (x :: s)).
    + split; eauto.
    + split; auto. intros [[? H] | H]; [discriminate | auto].
Qed.

Lemma matches_word_inv w u : matches false (word w) u -> u = w.
Proof.
  revert u. induction w as [|c w IH]; intros u H; cbn [word fold_right] in H.
  - inversion H. reflexivity.
  - apply matches_cat_inv in H as (s1 & s2 & -> & H1 & H2).
    apply IH in H2. subst s2. inversion H1; subst.
    unfold lit_matches in *. cbn [andb] in *.
    match goal with H : (_ =? _)%N = true |- _ => apply N.eqb_eq in H; subst end.
    reflexivity.
Qed.

Lemma matches_alts icase rs u :
  matches icase (alts rs) u <-> exists r, In r rs /\ matches icase r u.
Proof.
  induction rs as [|r rs IH]; cbn [alts fold_right In].
  - split; [intros H; inversion H | intros (r & [] & _)].
  - split.
    + intros H. apply matches_alt_inv in H as [H | H]; [eauto|].
      apply IH in H as (r' & Hin & H). eauto.
    + intros (r' & [<- | Hin] & H); [now apply MAltL|].
      apply MAltR, IH. eauto.
Qed.

Lemma match_at_word_then w r s :
  match_at false (Cat (word w) r) s = true <->
  exists rest, s = w ++ rest /\ match_at false r rest = true.
Proof.
  rewrite match_at_spec. split.
  - intros (p & q & -> & H). apply matches_cat_inv in H as (s1 & s2 & -> & H1 & H2).
    apply matches_word_inv in H1. subst s1. exists (s2 ++ q).
    split; [now rewrite app_assoc|]. apply match_at_spec. eauto.
  - intros (rest & -> & H). apply match_at_spec in H as (p & q & -> & H).
    exists (w ++ p), q. split; [now rewrite app_assoc|].
    constructor; auto. apply matches_word.
Qed.

Lemma find_is_some {A} (f : A -> bool) l :
  is_Some (List.find f l) <-> exists x, In x l /\ f x = true.
Proof.
  induction l as [|a l IH]; cbn [List.find In].
  - split; [intros [? H]; discriminate | intros (? & [] & _)].
  - destruct (f a) eqn:E.
    + split; eauto.
    + rewrite IH. split.
      * intros (x & Hin & Hx). eauto.
      * intros (x & [<- | Hin] & Hx); [congruence | eauto].
Qed.

(** [agent_at] follows the agent pattern. *)
Lemma agent_at_match s : is_Some (agent_at s) <-> match_at false AGENT_RE s = true.
Proof.
  unfold AGENT_RE, str. rewrite match_at_word_then. unfold agent_at.
  destruct (startswith (codes "AGENT:") s) eqn:E.
  - apply startswith_spec in E as [rest ->].
    change 6%nat with (List.length (codes "AGENT:")). rewrite skipn_prefix.
    rewrite find_is_some. split.
    + intros (t & Hin & Ht). exists rest. split; auto.
      apply startswith_spec in Ht as [q ->]. apply match_at_spec.
      exists t, q. split; auto. apply matches_alts. exists (word t).
      split; [now apply in_map | apply matches_word].
    + intros (rest' & E & H). apply app_inv_head in E. subst rest'.
      apply match_at_spec in H as (p & q & -> & H).
      apply matches_alts in H as (r & Hin & H).
      apply in_map_iff in Hin as (t & <- & Hin). apply matches_word_inv in H.
      subst p. exists t. split; auto. apply startswith_spec. eauto.
  - split; [intros [? H]; discriminate|].
    intros (rest & -> & _).
    assert (startswith (codes "AGENT:") (codes "AGENT:" ++ rest) = true)
      by (apply startswith_spec; eauto).
    congruence.
Qed.

Lemma agent_at_tag s t : agent_at s = Some t -> In t AGENT_TAGS.
Proof.
  unfold agent_at. destruct (startswith _ s); [|discriminate].
  intros H. now apply find_some in H.
Qed.

Lemma takewhile_all p s : forallb p (takewhile p s) = true.
Proof.
  induction s as [|c s IH]; simpl; auto.
  destruct (p c) eqn:E; simpl; auto. now rewrite E.
Qed.

(** What [confidence_at] extracts: a digit, the point, digits. *)
Lemma confidence_at_shape s g :
  confidence_at s = Some g ->
  exists d frac,
    g = d :: 46%N :: frac /\ is_digit d = true
    /\ forallb is_digit frac = true /\ frac <> [].
Proof.
  unfold confidence_at. destruct (startswith _ s); [|discriminate].
  destruct (skipn 11 s) as [|d [|dot rest]]; try discriminate.
  destruct (N.eqb_spec dot 46) as [-> | Hne].
  - destruct (takewhile is_digit rest) as [|c frac] eqn:E; [discriminate|].
    destruct (is_digit d) eqn:Ed; [|discriminate].
    intros H. injection H as <-. exists d, (c :: frac).
    repeat split; auto.
    rewrite <- E. apply takewhile_all.
  - destruct dot as [|p]; try discriminate.
    repeat (destruct p as [p|p|]; try discriminate). congruence.
Qed.

Lemma matches_digit_inv icase u :
  matches icase Digit u -> exists x, u = [x] /\ is_digit x = true.
Proof. intros H. inversion H; subst. eauto. Qed.

Lemma matches_lit_inv c u : matches false (Lit c) u -> u = [c].
Proof.
  intros H. inversion H as [|c' x Hx| | | | | | |]; subst.
  unfold lit_matches in Hx. cbn [andb] in Hx. apply N.eqb_eq in Hx. now subst.
Qed.

(** The part of the confidence pattern after its keyword matches at the
    start of a text exactly when the text begins with a digit, the point
    and a digit. *)
Lemma confidence_tail_match rest :
  match_at false (seq [Digit; Lit 46; Plus Digit]) rest = true <->
  exists d c rest',
    rest = d :: 46%N :: c :: rest' /\ is_digit d = true /\ is_digit c = true.
Proof.
  rewrite match_at_spec. cbn [seq fold_right]. unfold Plus. split.
  - intros (p & q & -> & H).
    apply matches_cat_inv in H as (s1 & s2 & -> & H1 & H).
    apply matches_cat_inv in H as (s3 & s4 & -> & H3 & H).
    apply matches_cat_inv in H as (s5 & s6 & -> & H5 & H6).
    apply matches_cat_inv in H5 as (s7 & s8 & -> & H7 & H8).
    apply matches_digit_inv in H1 as (d & -> & Hd).
    apply matches_digit_inv in H7 as (c & -> & Hc).
    apply matches_lit_inv in H3. subst s3.
    cbn [app]. eexists _, _, _. split; [reflexivity|]. auto.
  - intros (d & c & rest' & -> & Hd & Hc).
    exists [d; 46%N; c], rest'. split; [reflexivity|].
    change [d; 46%N; c] with ([d] ++ [46%N] ++ ([c] ++ []) ++ []).
    repeat constructor; auto.
Qed.

(** [confidence_at] follows the confidence pattern. *)
Lemma confidence_at_match s :
  is_Some (confidence_at s) <-> match_at false CONFIDENCE_RE s = true.
Proof.
  unfold CONFIDENCE_RE. cbn [seq fold_right]. unfold str.
  rewrite match_at_word_then.
  change (Cat Digit (Cat (Lit 46) (Cat (Plus Digit) Eps)))
    with (seq [Digit; Lit 46; Plus Digit]).
  unfold confidence_at.
  destruct (startswith (codes "CONFIDENCE:") s) eqn:E.
  - apply startswith_spec in E as [rest ->].
    change 11%nat with (List.length (codes "CONFIDENCE:")). rewrite skipn_prefix.
    transitivity (exists d c rest',
      rest = d :: 46%N :: c :: rest' /\ is_digit d = true /\ is_digit c = true).
    + destruct rest as [|d [|dot rest0]].
      * split; [intros [? H]; discriminate | intros (? & ? & ? & H & _); discriminate H].
      * split; [intros [? H]; discriminate | intros (? & ? & ? & H & _); discriminate H].
      * destruct (N.eqb_spec dot 46) as [-> | Hne].
        -- destruct rest0 as [|c rest1]; cbn [takewhile].
           ++ split; [intros [? H]; discriminate
                     | intros (? & ? & ? & H & _); discriminate H].
           ++ destruct (is_digit c) eqn:Ec.
              ** destruct (is_digit d) eqn:Ed.
                 --- split; [|eauto]. intros _. exists d, c, rest1. auto.
                 --- split; [intros [? H]; discriminate|].
                     intros (? & ? & ? & H & Hd & _). injection H as <- _. congruence.
              ** split; [intros [? H]; discriminate|].
                 intros (? & ? & ? & H & _ & Hc). injection H as _ <- _. congruence.
        -- split.
           ++ intros [g H]. exfalso. destruct dot as [|p]; try discriminate.
              repeat (destruct p as [p|p|]; try discriminate). congruence.
           ++ intros (? & ? & ? & H & _). injection H as _ Hdot _. congruence.
    + split.
      * intros H. exists rest. split; auto. now apply confidence_tail_match.
      * intros (rest' & E & H). apply app_inv_head in E. subst rest'.
        now apply confidence_tail_match.
  - split; [intros [? H]; discriminate|].
    intros (rest & -> & _).
    assert (startswith (codes "CONFIDENCE:") (codes "CONFIDENCE:" ++ rest) = true)
      by (apply startswith_spec; eauto).
    congruence.
Qed.

(** A token is missing exactly when its pattern is not found. *)
Lemma agent_missing result :
  agent_match result = None <-> search false AGENT_RE result = false.
Proof.
  pose proof (search_group_search agent_at false AGENT_RE result agent_at_match) as H.
  unfold agent_match. destruct (search_group agent_at result) as [t|];
    destruct (search false AGENT_RE result); split; auto; intros; try discriminate.
  - assert (is_Some (Some t)) as Hs by eauto. apply H in Hs. discriminate.
  - assert (is_Some (@None text)) as [? Hs] by now apply H. discriminate.
Qed.

Lemma confidence_missing result :
  confidence_match result = None <-> search false CONFIDENCE_RE result = false.
Proof.
  pose proof (search_group_search confidence_at false CONFIDENCE_RE result
                confidence_at_match) as H.
  unfold confidence_match. destruct (search_group confidence_at result) as [t|];
    destruct (search false CONFIDENCE_RE result); split; auto; intros; try discriminate.
  - assert (is_Some (Some t)) as Hs by eauto. apply H in Hs. discriminate.
  - assert (is_Some (@None text)) as [? Hs] by now apply H. discriminate.
Qed.

(** The outcome of the parse, for every content. *)
Lemma parse_classification_total content :
  exists agent_type confidence,
    parse_classification content = Ok (agent_type, confidence)
    /\ In agent_type AGENT_TAGS
    /\ (0 <= confidence)%Q /\ (confidence <= 10)%Q
    /\ (search false AGENT_RE (strip content) = false
        \/ search false CONFIDENCE_RE (strip content) = false ->
        (agent_type, confidence) = (codes "product", Float64.lit_0_5)).
Proof.
  unfold parse_classification.
  assert (Hdefault :
    In (codes "product") AGENT_TAGS
    /\ (0 <= Float64.lit_0_5)%Q /\ (Float64.lit_0_5 <= 10)%Q).
  { split; [now left | split; vm_compute; discriminate]. }
  destruct (agent_match (strip content)) as [agent_type|] eqn:Ea.
  - destruct (confidence_match (strip content)) as [g|] eqn:Ec.
    + pose proof Ea as Ea'.
      apply search_group_some in Ea' as (? & ? & _ & Ha).
      apply agent_at_tag in Ha.
      pose proof Ec as Ec'.
      apply search_group_some in Ec' as (? & ? & _ & Hc).
      apply confidence_at_shape in Hc as (d & frac & -> & Hd & Hfrac & Hne).
      destruct (Float64Facts.float_of_group_bounds d frac Hd Hfrac Hne)
        as (c & -> & Hlo & Hhi).
      exists agent_type, c. repeat split; auto.
      intros [H | H].
      * apply agent_missing in H. congruence.
      * apply confidence_missing in H. congruence.
    + exists (codes "product"), Float64.lit_0_5. tauto.
  - exists (codes "product"), Float64.lit_0_5. tauto.
Qed.

(** ** C2 *)

(** C2, as stated, fails: the reply [AGENT:learning|CONFIDENCE:9.5] is
    parsed, and the confidence returned is 9.5, outside [0,1]; the default
    is not returned. *)
Lemma confidence_above_one :
  fst (classify_query Scenario.svc_out_of_range Scenario.QUERY Scenario.st0)
  = Ok (codes "learning", 19 # 2)
  /\ ~ (19 # 2 <= 1)%Q
  /\ (codes "learning", 19 # 2) <> (codes "product", Float64.lit_0_5).
Proof.
  split; [vm_compute; reflexivity|].
  split; [intros H; vm_compute in H; apply H; reflexivity|].
  vm_compute. discriminate.
Qed.

(** C2, amended: for every reply of the completion service
    [classify_query] returns a pair, without failing and without touching
    the state; the tag is one of the five agent tags and the confidence is
    the float of a token of the form digit, point, digits, hence between 0
    and 10; when the agent pattern or the confidence pattern is not found
    in the reply, the pair is the default, [product] with 0.5. *)
Theorem classification_never_fails svc query reply st :
  classify_completion svc query = Ok reply ->
  exists agent_type confidence,
    classify_query svc query st = (Ok (agent_type, confidence), st)
    /\ In agent_type AGENT_TAGS
    /\ (0 <= confidence)%Q /\ (confidence <= 10)%Q
    /\ (search false AGENT_RE (strip reply) = false
        \/ search false CONFIDENCE_RE (strip reply) = false ->
        (agent_type, confidence) = (codes "product", Float64.lit_0_5)).
Proof.
  intros Hreply.
  destruct (parse_classification_total reply)
    as (agent_type & confidence & Hparse & Htag & Hlo & Hhi & Hdefault).
  exists agent_type, confidence. repeat split; auto.
  unfold classify_query, bind, call. now rewrite Hreply, Hparse.
Qed.

Lemma classification_never_fails_witness :
  classify_query Scenario.svc_low_confidence Scenario.QUERY Scenario.st0
  = (Ok (codes "onboarding", 7566047373982433 # 18014398509481984), Scenario.st0)
  /\ fst (classify_query
            (Scenario.services (Ok (codes "AGENT:sales|CONFIDENCE:high"))
               Scenario.web_up) Scenario.QUERY Scenario.st0)
     = Ok (codes "product", 1 # 2).
Proof.
  split.
  - destruct (classification_never_fails Scenario.svc_low_confidence
                Scenario.QUERY (codes "AGENT:onboarding|CONFIDENCE:0.42")
                Scenario.st0 eq_refl)
      as (agent_type & confidence & Hrun & _).
    rewrite Hrun. vm_compute in Hrun. injection Hrun as <- <-. reflexivity.
  - destruct (classification_never_fails
                (Scenario.services (Ok (codes "AGENT:sales|CONFIDENCE:high"))
                   Scenario.web_up)
                Scenario.QUERY (codes "AGENT:sales|CONFIDENCE:high")
                Scenario.st0 eq_refl)
      as (agent_type & confidence & Hrun & _ & _ & _ & Hdefault).
    rewrite Hrun. simpl. f_equal. apply Hdefault. left. vm_compute. reflexivity.
Defined.

End Classification.

(** ** What the responders write *)
Module Writes.
Import Supervisor Frame Run.

(** A relation every step of the responders keeps: printing, logging,
    testing a path, writing a file. *)
Class Writes (R : state -> state -> Prop) : Prop := {
  writes_pre :: PreOrder R;
  writes_print : forall s, preserves R (print s);
  writes_emit : forall ev, preserves R (emit ev);
  writes_exists : forall p, preserves R (path_exists p);
  writes_write : forall p a, preserves R (write_artifact p a)
}.

#[export] Instance grows_writes : Writes grows.
Proof. split; auto with frame typeclass_instances. Qed.

#[export] Instance quiet_writes : Writes quiet.
Proof. split; auto with frame typeclass_instances. Qed.

#[export] Hint Resolve writes_print writes_emit writes_exists writes_write : frame.

Section Responders.
Context (R : state -> state -> Prop) `{!Writes R}.

Lemma frame_load_cached svc parquet_path faiss_path :
  preserves R (Response.load_cached_vectorstore svc parquet_path faiss_path).
Proof.
  unfold Response.load_cached_vectorstore, Response.load_local,
    Response.read_parquet, Response.save_local.
  frame.
Qed.

Lemma frame_kb_answer svc query : preserves R (kb_answer svc query).
Proof.
  unfold kb_answer, Response.answer_direct_gpt, Response.run_rag_query.
  pose proof frame_load_cached. frame.
Qed.

Lemma frame_search_web svc query n : preserves R (search_web svc query n).
Proof. unfold search_web. frame. Qed.

Lemma frame_fetch svc url : preserves R (fetch_webpage_content svc url).
Proof. unfold fetch_webpage_content. frame. Qed.

Lemma frame_fetch_pieces svc results pieces :
  preserves R (fetch_pieces svc results pieces).
Proof.
  revert pieces. induction results as [|r results IH]; intros pieces;
    cbn [fetch_pieces].
  - frame.
  - pose proof frame_fetch. frame.
Qed.

Lemma frame_search_online svc query initial :
  preserves R (search_online_and_respond svc query initial).
Proof.
  unfold search_online_and_respond.
  pose proof frame_search_web. pose proof frame_fetch_pieces. frame.
Qed.

End Responders.

End Writes.

(** ** The supervisor router *)
Module Routing.
Import Supervisor Routes Frame Run Writes.

(** A responder that prints its banner and then runs a body that returns
    and only adds to standard output. *)
Lemma opens_with banner (body : M unit) st :
  captured st = None -> returns body -> preserves grows body ->
  exists st' rest,
    (let* _ := print banner in body) st = (Ok tt, st')
    /\ stdout st' = stdout st ++ banner ++ [NL] ++ rest.
Proof.
  intros Hcap Hret Hgrows. unfold bind at 1. unfold print. rewrite Hcap.
  set (st1 := set_stdout _ st).
  destruct (Hret st1) as [[] Ha]. destruct (Hgrows st1) as [rest Hrest].
  destruct (body st1) as [r st'] eqn:E. simpl in Ha, Hrest. subst r.
  exists st', rest. split; [reflexivity|].
  rewrite Hrest. subst st1. simpl. now rewrite <- !app_assoc.
Qed.

Lemma respond_product_opens svc query st :
  captured st = None ->
  exists st' rest,
    respond_product svc query st = (Ok tt, st')
    /\ stdout st' = stdout st ++ PRODUCT_BANNER ++ [NL] ++ rest.
Proof.
  intros Hcap. unfold respond_product. apply opens_with; auto.
  - frame.
  - pose proof (frame_kb_answer grows). pose proof (frame_search_online grows).
    frame.
Qed.

Lemma respond_learning_opens svc query st :
  captured st = None ->
  exists st' rest,
    respond_learning svc query st = (Ok tt, st')
    /\ stdout st' = stdout st ++ LEARNING_BANNER ++ [NL] ++ rest.
Proof. intros Hcap. unfold respond_learning. apply opens_with; auto; frame. Qed.

Lemma respond_org_chart_opens svc query st :
  captured st = None ->
  exists st' rest,
    respond_org_chart svc query st = (Ok tt, st')
    /\ stdout st' = stdout st ++ ORG_CHART_BANNER ++ [NL] ++ rest.
Proof. intros Hcap. unfold respond_org_chart. apply opens_with; auto; frame. Qed.

Lemma respond_workplace_comms_opens svc query st :
  captured st = None ->
  exists st' rest,
    respond_workplace_comms svc query st = (Ok tt, st')
    /\ stdout st' = stdout st ++ WORKPLACE_COMMS_BANNER ++ [NL] ++ rest.
Proof. intros Hcap. unfold respond_workplace_comms. apply opens_with; auto; frame. Qed.

Lemma respond_onboarding_opens svc query st :
  captured st = None ->
  exists st' rest,
    respond_onboarding svc query st = (Ok tt, st')
    /\ stdout st' = stdout st ++ ONBOARDING_BANNER ++ [NL] ++ rest.
Proof. intros Hcap. unfold respond_onboarding. apply opens_with; auto; frame. Qed.

Lemma for_each_print lines st :
  captured st = None ->
  for_each lines print st
  = (Ok tt, set_stdout (stdout st ++ concat (map (fun line => line ++ [NL]) lines)) st).
Proof.
  revert st. induction lines as [|line lines IH]; intros st Hcap.
  - destruct st as [out cap d l]. simpl in Hcap. subst cap.
    unfold set_stdout. simpl. now rewrite app_nil_r.
  - cbn [for_each map concat]. unfold bind at 1. unfold print at 1. rewrite Hcap.
    rewrite IH by exact Hcap. unfold set_stdout. simpl.
    now rewrite <- !app_assoc.
Qed.

Lemma respond_default_run st :
  captured st = None ->
  respond_default st = (Ok tt, set_stdout (stdout st ++ DEFAULT_TEXT) st).
Proof. intros Hcap. now apply for_each_print. Qed.

Lemma mark_app (b x : text) : (2 <= List.length b)%nat -> mark (b ++ x) = mark b.
Proof. intros H. unfold mark. apply app_nth1. lia. Qed.

Lemma same_mark (a b x y : text) :
  (2 <= List.length a)%nat -> (2 <= List.length b)%nat ->
  a ++ x = b ++ y -> mark a = mark b.
Proof.
  intros Ha Hb E. rewrite <- (mark_app a x Ha), <- (mark_app b y Hb). now rewrite E.
Qed.

Lemma banners_long r :
  In r RESPONDERS -> (2 <= List.length (fst (snd r)))%nat.
Proof.
  intros H. cbn [RESPONDERS In] in H.
  repeat destruct H as [<- | H]; try destruct H; vm_compute; lia.
Qed.

(** The tags of the table are distinct, and so are the marks of its
    banners. *)
Lemma responders_distinct r1 r2 :
  In r1 RESPONDERS -> In r2 RESPONDERS ->
  fst r1 = fst r2 \/ mark (fst (snd r1)) = mark (fst (snd r2)) -> r1 = r2.
Proof.
  intros H1 H2. cbn [RESPONDERS In] in H1, H2.
  repeat destruct H1 as [<- | H1]; try destruct H1;
    repeat destruct H2 as [<- | H2]; try destruct H2;
    intros [E | E]; try reflexivity; exfalso; vm_compute in E; discriminate E.
Qed.

Lemma default_mark_differs r :
  In r RESPONDERS -> mark (fst (snd r)) <> mark DEFAULT_TEXT.
Proof.
  intros H. cbn [RESPONDERS In] in H.
  repeat destruct H as [<- | H]; try destruct H; vm_compute; discriminate.
Qed.

Lemma default_text_long : (2 <= List.length DEFAULT_TEXT)%nat.
Proof. vm_compute. lia. Qed.

Lemma tags_of_responders : AGENT_TAGS = map fst RESPONDERS.
Proof. reflexivity. Qed.

(** The chain of tests of [route_query] on a tag of the table. *)
Lemma route_selects svc query agent_type confidence tag banner respond :
  In (tag, (banner, respond)) RESPONDERS ->
  agent_type = tag -> Qle_bool Float64.lit_0_6 confidence = true ->
  (if str_eq agent_type (codes "product") && Qle_bool Float64.lit_0_6 confidence
   then respond_product svc query
   else if str_eq agent_type (codes "learning") && Qle_bool Float64.lit_0_6 confidence
   then respond_learning svc query
   else if str_eq agent_type (codes "org_chart") && Qle_bool Float64.lit_0_6 confidence
   then respond_org_chart svc query
   else if str_eq agent_type (codes "workplace_comms") && Qle_bool Float64.lit_0_6 confidence
   then respond_workplace_comms svc query
   else if str_eq agent_type (codes "onboarding") && Qle_bool Float64.lit_0_6 confidence
   then respond_onboarding svc query
   else respond_default) = respond svc query.
Proof.
  intros Hin -> ->. rewrite !andb_true_r. cbn [RESPONDERS In] in Hin.
  repeat destruct Hin as [E | Hin]; try destruct Hin; injection E as <- <- <-;
    repeat match goal with
           | |- context [str_eq ?a ?b] =>
               let v := eval vm_compute in (str_eq a b) in
               replace (str_eq a b) with v by (vm_compute; reflexivity)
           end; reflexivity.
Qed.

Lemma route_unselected svc query agent_type confidence :
  Qle_bool Float64.lit_0_6 confidence = false ->
  (if str_eq agent_type (codes "product") && Qle_bool Float64.lit_0_6 confidence
   then respond_product svc query
   else if str_eq agent_type (codes "learning") && Qle_bool Float64.lit_0_6 confidence
   then respond_learning svc query
   else if str_eq agent_type (codes "org_chart") && Qle_bool Float64.lit_0_6 confidence
   then respond_org_chart svc query
   else if str_eq agent_type (codes "workplace_comms") && Qle_bool Float64.lit_0_6 confidence
   then respond_workplace_comms svc query
   else if str_eq agent_type (codes "onboarding") && Qle_bool Float64.lit_0_6 confidence
   then respond_onboarding svc query
   else respond_default) = respond_default.
Proof. intros ->. now rewrite !andb_false_r. Qed.

(** Every responder of the table returns, and what it writes begins with
    its banner. *)
Lemma responder_opens svc query st tag banner respond :
  In (tag, (banner, respond)) RESPONDERS ->
  captured st = None ->
  exists st' rest,
    respond svc query st = (Ok tt, st')
    /\ stdout st' = stdout st ++ banner ++ [NL] ++ rest.
Proof.
  intros Hin Hcap. cbn [RESPONDERS In] in Hin.
  repeat destruct Hin as [E | Hin]; try destruct Hin; injection E as <- <- <-.
  - now apply respond_product_opens.
  - now apply respond_learning_opens.
  - now apply respond_org_chart_opens.
  - now apply respond_workplace_comms_opens.
  - now apply respond_onboarding_opens.
Qed.

(** ** C1 *)

(** C1, as stated, fails: when the completion call of the classification
    raises, [route_query] raises with it; no responder runs and the default
    message is not written. *)
Lemma classification_failure_propagates :
  route_query Scenario.svc_classifier_down Scenario.QUERY Scenario.st0
  = (Raise (codes "Connection error."), Scenario.st0).
Proof. vm_compute. reflexivity. Qed.

(** C1, amended: for every query whose classification call returns a
    reply, [route_query] returns without an error.  It runs the responder
    of a tag, whose banner then opens what is written, if and only if the
    classification is that tag with a confidence of at least 0.6; in every
    other case, and only then, it writes the default message and nothing
    else. *)
Theorem route_query_dispatches svc query reply st :
  captured st = None ->
  classify_completion svc query = Ok reply ->
  exists agent_type confidence st',
    parse_classification reply = Ok (agent_type, confidence)
    /\ route_query svc query st = (Ok tt, st')
    /\ (forall tag banner respond,
          In (tag, (banner, respond)) RESPONDERS ->
          ((agent_type = tag /\ (Float64.lit_0_6 <= confidence)%Q) <->
           (exists rest, stdout st' = stdout st ++ banner ++ [NL] ++ rest))
          /\ (agent_type = tag -> (Float64.lit_0_6 <= confidence)%Q ->
              route_query svc query st = respond svc query st))
    /\ ((forall tag, In tag AGENT_TAGS ->
            ~ (agent_type = tag /\ (Float64.lit_0_6 <= confidence)%Q)) <->
        st' = set_stdout (stdout st ++ DEFAULT_TEXT) st).
Proof.
  intros Hcap Hreply.
  destruct (Classification.parse_classification_total reply)
    as (agent_type & confidence & Hparse & Htag & _).
  exists agent_type, confidence.
  assert (Hroute : forall body,
    (if str_eq agent_type (codes "product") && Qle_bool Float64.lit_0_6 confidence
     then respond_product svc query
     else if str_eq agent_type (codes "learning") && Qle_bool Float64.lit_0_6 confidence
     then respond_learning svc query
     else if str_eq agent_type (codes "org_chart") && Qle_bool Float64.lit_0_6 confidence
     then respond_org_chart svc query
     else if str_eq agent_type (codes "workplace_comms") && Qle_bool Float64.lit_0_6 confidence
     then respond_workplace_comms svc query
     else if str_eq agent_type (codes "onboarding") && Qle_bool Float64.lit_0_6 confidence
     then respond_onboarding svc query
     else respond_default) = body ->
    route_query svc query st = body st).
  { intros body <-. unfold route_query, classify_query, bind, call.
    now rewrite Hreply, Hparse. }
  destruct (Sumbool.sumbool_of_bool (Qle_bool Float64.lit_0_6 confidence)) as [Hq | Hq].
  - (* the confidence reaches the threshold: the responder of the tag *)
    assert (Hle : (Float64.lit_0_6 <= confidence)%Q) by now apply Qle_bool_iff.
    rewrite tags_of_responders in Htag.
    apply in_map_iff in Htag as ([tag0 [banner0 respond0]] & Etag & Hin0).
    simpl in Etag. subst tag0.
    destruct (responder_opens svc query st _ _ _ Hin0 Hcap)
      as (st' & rest0 & Hrun & Hout).
    pose proof (Hroute _ (route_selects svc query _ confidence _ _ _ Hin0 eq_refl Hq))
      as Hsel.
    exists st'. split; [exact Hparse|]. split; [now rewrite Hsel|].
    split.
    + intros tag banner respond Hin. split; [split|].
      * intros [<- _].
        pose proof (responders_distinct _ _ Hin0 Hin (or_introl eq_refl)) as E.
        injection E as <- <-. eauto.
      * intros [rest Hrest]. rewrite Hout in Hrest. apply app_inv_head in Hrest.
        apply same_mark in Hrest;
          [|apply (banners_long _ Hin0) | apply (banners_long _ Hin)].
        pose proof (responders_distinct _ _ Hin0 Hin (or_intror Hrest)) as E.
        injection E as <- _ _. auto.
      * intros <- _.
        pose proof (responders_distinct _ _ Hin0 Hin (or_introl eq_refl)) as E.
        injection E as <- <-. exact Hsel.
    + split.
      * intros Hnone. exfalso. apply (Hnone agent_type); [|auto].
        rewrite tags_of_responders. apply in_map_iff.
        exists (agent_type, (banner0, respond0)). auto.
      * intros ->. exfalso. simpl in Hout.
        rewrite <- (app_nil_r DEFAULT_TEXT) in Hout. apply app_inv_head in Hout.
        symmetry in Hout. apply same_mark in Hout;
          [|apply (banners_long _ Hin0) | apply default_text_long].
        exact (default_mark_differs _ Hin0 Hout).
  - (* the confidence is below the threshold: the default message *)
    assert (Hlt : ~ (Float64.lit_0_6 <= confidence)%Q).
    { intros H. apply Qle_bool_iff in H. congruence. }
    pose proof (Hroute _ (route_unselected svc query agent_type confidence Hq)) as Hsel.
    rewrite respond_default_run in Hsel by exact Hcap.
    exists (set_stdout (stdout st ++ DEFAULT_TEXT) st).
    split; [exact Hparse|]. split; [exact Hsel|]. split.
    + intros tag banner respond Hin. split; [split|].
      * intros [_ H]. contradiction.
      * intros [rest Hrest]. exfalso. simpl in Hrest.
        rewrite <- (app_nil_r DEFAULT_TEXT) in Hrest. apply app_inv_head in Hrest.
        symmetry in Hrest. apply same_mark in Hrest;
          [|apply (banners_long _ Hin) | apply default_text_long].
        exact (default_mark_differs _ Hin Hrest).
      * intros _ H. contradiction.
    + split; [reflexivity|]. intros _ tag _ [_ H]. contradiction.
Qed.

(** The reply [AGENT:onboarding|CONFIDENCE:0.42] is routed to the default
    message, and a product classification at 0.9 to the knowledge base. *)
Lemma route_query_dispatches_witness :
  route_query Scenario.svc_low_confidence Scenario.QUERY Scenario.st0
  = (Ok tt, set_stdout DEFAULT_TEXT Scenario.st0)
  /\ route_query Scenario.svc_hedging Scenario.QUERY Scenario.st_indexed
     = respond_product Scenario.svc_hedging Scenario.QUERY Scenario.st_indexed.
Proof.
  split.
  - destruct (route_query_dispatches Scenario.svc_low_confidence Scenario.QUERY
                (codes "AGENT:onboarding|CONFIDENCE:0.42") Scenario.st0
                eq_refl eq_refl)
      as (agent_type & confidence & st' & Hparse & Hrun & _ & Hdefault).
    rewrite Hrun. f_equal. apply Hdefault.
    vm_compute in Hparse. injection Hparse as <- <-.
    intros tag _ [_ H]. vm_compute in H. apply H. reflexivity.
  - destruct (route_query_dispatches Scenario.svc_hedging Scenario.QUERY
                (codes "AGENT:product|CONFIDENCE:0.9") Scenario.st_indexed
                eq_refl eq_refl)
      as (agent_type & confidence & st' & Hparse & _ & Hdispatch & _).
    vm_compute in Hparse. injection Hparse as <- <-.
    apply (Hdispatch (codes "product") PRODUCT_BANNER respond_product).
    + now left.
    + vm_compute. reflexivity.
    + vm_compute. discriminate.
Defined.

End Routing.

(** ** From an insufficient answer to the web escalation *)
Module Handoff.
Import Re ReFacts Supervisor Routes Frame Run Writes.

Lemma isspace_false x :
  (33 <= x <= 132 \/ x = 304 \/ x = 305 \/ x = 383 \/ x = 8490)%N ->
  isspace x = false.
Proof.
  intros H. apply not_true_is_false. unfold isspace. intros Hs.
  rewrite !orb_true_iff, !andb_true_iff, !N.leb_le, !N.eqb_eq in Hs. lia.
Qed.

Lemma lit_matches_ink c x :
  ink c = true -> lit_matches true c x = true -> ink x = true.
Proof.
  unfold ink, lit_matches. cbn [andb]. intros Hc H.
  destruct (is_ascii_letter c) eqn:El.
  - apply negb_true_iff, isspace_false.
    unfold is_ascii_letter in El. unfold ascii_lower in H. cbv zeta in H.
    rewrite !orb_true_iff, !andb_true_iff, !N.leb_le in El.
    destruct ((65 <=? c)%N && (c <=? 90)%N) eqn:Eup;
      [rewrite andb_true_iff, !N.leb_le in Eup
      |rewrite andb_false_iff, !N.leb_gt in Eup];
      repeat (progress rewrite ?orb_true_iff, ?andb_true_iff, ?N.eqb_eq in H); lia.
  - apply N.eqb_eq in H. now subst.
Qed.

Lemma inked_matches r m :
  inked r = true -> matches true r m -> existsb ink m = true.
Proof.
  intros Hr H. induction H; cbn [inked] in Hr; try discriminate.
  - cbn [existsb]. now rewrite (lit_matches_ink c x Hr H).
  - rewrite existsb_app. apply orb_true_iff in Hr as [Hr | Hr];
      [rewrite IHmatches1 | rewrite IHmatches2]; auto using orb_true_r.
  - apply andb_true_iff in Hr as [Hr _]. auto.
  - apply andb_true_iff in Hr as [_ Hr]. auto.
Qed.

Lemma patterns_inked : forallb inked INSUFFICIENT_ANSWER_PATTERNS = true.
Proof. vm_compute. reflexivity. Qed.

Lemma ink_lstrip s : existsb ink s = true -> existsb ink (lstrip s) = true.
Proof.
  induction s as [|c s IH]; cbn [existsb lstrip]; auto.
  unfold ink at 1. destruct (isspace c) eqn:E; cbn [negb orb]; auto.
  intros _. cbn [existsb]. unfold ink at 1. now rewrite E.
Qed.

Lemma ink_reverse s : existsb ink (reverse s) = existsb ink s.
Proof.
  apply eq_true_iff_eq. rewrite !existsb_exists.
  split; intros (x & Hin & Hx); exists x; (split; [|exact Hx]);
    apply (proj1 (list_elem_of_In _ _)); apply (proj2 (list_elem_of_In _ _)) in Hin.
  - exact (proj1 (elem_of_reverse _ _) Hin).
  - exact (proj2 (elem_of_reverse _ _) Hin).
Qed.

Lemma ink_strip s : existsb ink s = true -> nonempty (strip s) = true.
Proof.
  intros H. unfold strip, rstrip.
  assert (Hs : existsb ink (reverse (lstrip (reverse (lstrip s)))) = true).
  { rewrite ink_reverse. apply ink_lstrip. rewrite ink_reverse.
    now apply ink_lstrip. }
  destruct (reverse (lstrip (reverse (lstrip s)))); [discriminate | reflexivity].
Qed.

(** An insufficient answer has text to show. *)
Lemma insufficient_has_text answer :
  is_insufficient_answer answer = true ->
  nonempty (strip answer) = true /\ nonempty answer = true.
Proof.
  intros H. unfold is_insufficient_answer in H.
  apply existsb_exists in H as (p & Hin & Hs).
  apply search_spec in Hs as (pre & m & post & -> & Hm).
  assert (Hp : inked p = true).
  { pose proof patterns_inked as F. rewrite forallb_forall in F. auto. }
  pose proof (inked_matches p m Hp Hm) as Hink.
  assert (Hall : existsb ink (pre ++ m ++ post) = true).
  { rewrite !existsb_app, Hink. now rewrite orb_true_r. }
  split; [now apply ink_strip|].
  destruct (pre ++ m ++ post); [discriminate | reflexivity].
Qed.

(** ** C5 *)

(** C5: one pattern found in the extracted answer makes
    [is_insufficient_answer] true, as does the phrase of the scenario
    wherever it stands in the text; and when the knowledge-base responder
    has produced such an answer, [route_query] prints it, calls
    [search_online_and_respond] with it, and prints what that returns. *)
Theorem insufficient_answer_escalates :
  (forall answer pattern,
      In pattern INSUFFICIENT_ANSWER_PATTERNS ->
      search true pattern answer = true ->
      is_insufficient_answer answer = true)
  /\ (forall pre post,
        is_insufficient_answer
          (pre ++ codes "does not contain specific information" ++ post) = true)
  /\ (forall svc query reply confidence st st_kb,
        captured st = None ->
        classify_completion svc query = Ok reply ->
        parse_classification reply = Ok (codes "product", confidence) ->
        (Float64.lit_0_6 <= confidence)%Q ->
        kb_answer svc query
          (set_captured (Some []) (set_stdout (stdout st ++ PRODUCT_BANNER ++ [NL]) st))
        = (Ok tt, st_kb) ->
        let rag_answer :=
          extract_answer (split [NL] (default [] (captured st_kb))) false [] in
        is_insufficient_answer rag_answer = true ->
        exists online_answer st_web st',
          search_online_and_respond svc query rag_answer
            (set_captured (Some [])
               (set_stdout (stdout st_kb ++ strip rag_answer ++ [NL]) st_kb))
          = (Ok online_answer, st_web)
          /\ route_query svc query st = (Ok tt, st')
          /\ stdout st' = stdout st ++ PRODUCT_BANNER ++ [NL]
                          ++ strip rag_answer ++ [NL] ++ online_answer ++ [NL]).
Proof.
  split; [exact Insufficiency.one_pattern_suffices|].
  split; [exact Insufficiency.hedging_phrase_found|].
  intros svc query reply confidence st st_kb Hcap Hreply Hparse Hle Hkb rag_answer Hins.
  destruct (insufficient_has_text rag_answer Hins) as [Hshown Hnonempty].
  set (st_in := set_captured (Some [])
                  (set_stdout (stdout st_kb ++ strip rag_answer ++ [NL]) st_kb)).
  destruct (returns_run _ st_in (Escalation.returns_search_online svc query rag_answer))
    as (online_answer & st_web & Hweb).
  exists online_answer, st_web.
  (* the knowledge-base step writes to the buffer only *)
  destruct (frame_kb_answer quiet svc query
              (set_captured (Some []) (set_stdout (stdout st ++ PRODUCT_BANNER ++ [NL]) st)))
    as [Hkb_out Hkb_cap]; [discriminate|].
  rewrite Hkb in Hkb_out, Hkb_cap. cbn [snd stdout set_captured set_stdout] in Hkb_out.
  (* and so does the escalation *)
  destruct (frame_search_online quiet svc query rag_answer st_in)
    as [Hweb_out Hweb_cap]; [discriminate|].
  rewrite Hweb in Hweb_out, Hweb_cap.
  cbn [snd stdout set_captured set_stdout st_in] in Hweb_out.
  eexists. split; [exact Hweb|]. split.
  - unfold route_query, classify_query, bind at 1, bind at 1, call.
    rewrite Hreply, Hparse.
    rewrite (Routing.route_selects svc query (codes "product") confidence
               (codes "product") PRODUCT_BANNER respond_product);
      [|now left | reflexivity | now apply Qle_bool_iff].
    unfold respond_product. unfold bind at 1. unfold print at 1. rewrite Hcap.
    unfold bind at 1. unfold redirect_stdout at 1.
    unfold try_except. unfold bind at 1. rewrite Hkb.
    unfold bind at 1. unfold restore_stdout at 1.
    fold rag_answer. rewrite Hshown, Hnonempty, Hins. cbn [andb].
    unfold bind at 1. unfold print at 1. cbn [captured set_captured].
    unfold bind at 1. unfold redirect_stdout at 1.
    unfold bind at 1.
    change (set_captured (Some [])
              (set_stdout (stdout (set_captured None st_kb) ++ strip rag_answer ++ [NL])
                 (set_captured None st_kb))) with st_in.
    rewrite Hweb. unfold bind at 1. unfold restore_stdout at 1.
    unfold print. cbn [captured set_captured]. reflexivity.
  - cbn [stdout set_stdout set_captured]. rewrite Hweb_out, Hkb_out.
    now rewrite <- !app_assoc.
Qed.

Lemma insufficient_answer_escalates_witness :
  exists st',
    route_query Scenario.svc_hedging Scenario.QUERY Scenario.st_indexed = (Ok tt, st')
    /\ stdout st' = PRODUCT_BANNER ++ [NL] ++ Scenario.HEDGING_ANSWER ++ [NL]
                    ++ codes "See the travel policy page." ++ [NL].
Proof.
  destruct insufficient_answer_escalates as (_ & _ & H).
  destruct (H Scenario.svc_hedging Scenario.QUERY
              (codes "AGENT:product|CONFIDENCE:0.9") (Float64.nearest 9 10)
              Scenario.st_indexed
              (snd (kb_answer Scenario.svc_hedging Scenario.QUERY
                      (set_captured (Some [])
                         (set_stdout (stdout Scenario.st_indexed ++ PRODUCT_BANNER ++ [NL])
                            Scenario.st_indexed)))))
    as (online_answer & st_web & st' & Hweb & Hrun & Hout).
  - reflexivity.
  - reflexivity.
  - vm_compute. reflexivity.
  - vm_compute. discriminate.
  - vm_compute. reflexivity.
  - vm_compute. reflexivity.
  - exists st'. split; [exact Hrun|]. rewrite Hout.
    vm_compute in Hweb. injection Hweb as <- _. vm_compute. reflexivity.
Defined.

End Handoff.

(** ** The vector index: load or build *)
Module IndexCache.
Import Response.

(** C3: when a persisted index is at [faiss_path], it is loaded and
    returned; the disk is left as it is and the only accesses are the test
    of the path and the load, so the store at [parquet_path] is neither
    read nor compared.  When nothing is at [faiss_path], the store is read
    and the index is built from the text, the embedding and the metadata of
    every row, in order; the index built is written to [faiss_path] and
    returned. *)
Theorem load_or_build svc parquet_path faiss_path st :
  (forall idx,
      disk st !! faiss_path = Some (FaissDir idx) ->
      exists st',
        load_cached_vectorstore svc parquet_path faiss_path st = (Ok idx, st')
        /\ disk st' = disk st
        /\ log st' = log st ++ [PathExists faiss_path; LoadIndex faiss_path])
  /\ (forall rows idx,
        disk st !! faiss_path = None ->
        disk st !! parquet_path = Some (ParquetFile rows) ->
        from_embeddings svc (combine (map content rows) (map embedding rows))
          (map metadata_of rows) = Ok idx ->
        (forall i r,
            rows !! i = Some r ->
            combine (map content rows) (map embedding rows) !! i
            = Some (content r, embedding r)
            /\ map metadata_of rows !! i = Some (metadata_of r))
        /\ exists st',
            load_cached_vectorstore svc parquet_path faiss_path st = (Ok idx, st')
            /\ disk st' = <[faiss_path := FaissDir idx]> (disk st)
            /\ log st' = log st ++ [PathExists faiss_path; ReadParquet parquet_path;
                                    SaveIndex faiss_path]).
Proof.
  destruct st as [out cap dk lg]. cbn [disk log]. split.
  - intros idx Hidx.
    unfold load_cached_vectorstore, bind at 1, path_exists. cbn [disk].
    rewrite bool_decide_eq_true_2 by (rewrite Hidx; eauto).
    unfold load_local, bind, print, emit, read_artifact, ret.
    destruct cap; simpl; rewrite Hidx; eexists; (split; [reflexivity|]); simpl;
      (split; [reflexivity | now rewrite <- app_assoc]).
  - intros rows idx Hnone Hrows Hbuild. split.
    + intros i r Hi. split.
      * clear -Hi. revert i Hi. induction rows as [|r0 rows IH]; intros [|i] Hi;
          try discriminate; cbn in *.
        -- now injection Hi as ->.
        -- auto.
      * now rewrite list_lookup_fmap, Hi.
    + unfold load_cached_vectorstore, bind at 1, path_exists. cbn [disk].
      rewrite bool_decide_eq_false_2 by (rewrite Hnone; intros [? ?]; discriminate).
      unfold read_parquet, save_local, bind, print, emit, read_artifact,
        write_artifact, call, ret.
      destruct cap; simpl; rewrite Hrows, Hbuild; simpl;
        eexists; (split; [reflexivity|]); simpl;
        (split; [reflexivity | now rewrite <- !app_assoc]).
Qed.

Lemma load_or_build_witness :
  fst (load_cached_vectorstore Scenario.kb_hedging
         (codes "./output/embeddings.parquet") (codes "./output/faiss_index")
         Scenario.st_indexed) = Ok {| docstore := [] |}
  /\ fst (load_cached_vectorstore Scenario.kb_hedging
            (codes "./output/embeddings.parquet") (codes "./output/faiss_index")
            Scenario.st_store_only)
     = Ok {| docstore :=
               [ (content Scenario.ROW1, embedding Scenario.ROW1,
                  metadata_of Scenario.ROW1);
                 (content Scenario.ROW2, embedding Scenario.ROW2,
                  metadata_of Scenario.ROW2) ] |}.
Proof.
  split.
  - destruct (load_or_build Scenario.kb_hedging
                (codes "./output/embeddings.parquet") (codes "./output/faiss_index")
                Scenario.st_indexed) as [Hload _].
    destruct (Hload {| docstore := [] |}) as (st' & Hrun & _).
    + vm_compute. reflexivity.
    + now rewrite Hrun.
  - destruct (load_or_build Scenario.kb_hedging
                (codes "./output/embeddings.parquet") (codes "./output/faiss_index")
                Scenario.st_store_only) as [_ Hbuild].
    destruct (Hbuild [Scenario.ROW1; Scenario.ROW2]
                {| docstore :=
                     [ (content Scenario.ROW1, embedding Scenario.ROW1,
                        metadata_of Scenario.ROW1);
                       (content Scenario.ROW2, embedding Scenario.ROW2,
                        metadata_of Scenario.ROW2) ] |})
      as (_ & st' & Hrun & _).
    + vm_compute. reflexivity.
    + vm_compute. reflexivity.
    + reflexivity.
    + now rewrite Hrun.
Defined.

End IndexCache.

(** ** Facts about the string primitives *)
Module PyFacts.

Lemma startswith_app p s : startswith p (p ++ s) = true.
Proof.
  induction p as [|a p IH]; [reflexivity|]. cbn [app startswith].
  now rewrite N.eqb_refl, IH.
Qed.

Lemma startswith_prefix p s : startswith p s = true -> exists rest, s = p ++ rest.
Proof.
  revert s. induction p as [|a p IH]; intros s H; [now exists s|].
  destruct s as [|b s]; [discriminate|]. cbn [startswith] in H.
  apply andb_true_iff in H as [Hab Hp]. apply N.eqb_eq in Hab as ->.
  destruct (IH s Hp) as [rest ->]. now exists rest.
Qed.

(** [needle in hay] holds exactly when [hay] is the needle between two
    texts. *)
Lemma contains_infix needle hay :
  contains needle hay = true <-> exists pre post, hay = pre ++ needle ++ post.
Proof.
  split.
  - induction hay as [|x hay IH]; cbn [contains]; intros H.
    + rewrite orb_false_r in H. apply startswith_prefix in H as [rest ->].
      now exists [], rest.
    + apply orb_true_iff in H as [H | H].
      * apply startswith_prefix in H as [rest ->]. now exists [], rest.
      * destruct (IH H) as (pre & post & ->). now exists (x :: pre), post.
  - intros (pre & post & ->). induction pre as [|x pre IH].
    + cbn [app]. destruct needle as [|a needle]; destruct post as [|b post];
        cbn [contains app]; try reflexivity;
        apply orb_true_iff; left;
        try (rewrite app_nil_r);
        try apply (startswith_app (a :: needle) []);
        try apply (startswith_app (a :: needle) (b :: post)).
      now rewrite <- (app_nil_r (a :: needle)) at 2;
        apply (startswith_app (a :: needle) []).
    + cbn [app contains]. rewrite IH. apply orb_true_r.
Qed.

Lemma contains_app needle pre s post :
  contains needle s = true -> contains needle (pre ++ s ++ post) = true.
Proof.
  intros H. apply contains_infix in H as (a & b & ->). apply contains_infix.
  exists (pre ++ a), (b ++ post). now rewrite <- !app_assoc.
Qed.

Lemma split_go_nonempty sep skip cur s : split_go sep skip cur s <> [].
Proof.
  revert skip cur. induction s as [|x s IH]; intros skip cur; cbn [split_go].
  - discriminate.
  - destruct skip; [|apply IH]. destruct (startswith sep (x :: s)); [discriminate | apply IH].
Qed.

Lemma join_cons sep (p : text) rest :
  rest <> [] -> join sep (p :: rest) = p ++ sep ++ join sep rest.
Proof. destruct rest; [congruence | reflexivity]. Qed.

Lemma join_nil_cons (p : text) rest : join [] (p :: rest) = p ++ join [] rest.
Proof. destruct rest; cbn [join]; [now rewrite app_nil_r | reflexivity]. Qed.

(** Splitting at a separator of one character. *)
Lemma split_go_single_step c cur x s :
  split_go [c] 0 cur (x :: s) =
  if (c =? x)%N then reverse cur :: split_go [c] 0 [] s
  else split_go [c] 0 (x :: cur) s.
Proof.
  cbn [split_go startswith List.length Nat.sub]. now rewrite andb_true_r.
Qed.

Lemma split_go_single_absent c cur s :
  ~ In c s -> split_go [c] 0 cur s = [reverse cur ++ s].
Proof.
  revert cur. induction s as [|x s IH]; intros cur H.
  - cbn [split_go]. now rewrite app_nil_r.
  - rewrite split_go_single_step. destruct (N.eqb_spec c x) as [-> | Hne].
    + exfalso. apply H. now left.
    + rewrite IH by (intros Hin; apply H; now right).
      now rewrite reverse_cons, <- app_assoc.
Qed.

Lemma split_go_single_app c cur a b :
  split_go [c] 0 cur (a ++ c :: b) = split_go [c] 0 cur a ++ split_go [c] 0 [] b.
Proof.
  revert cur. induction a as [|x a IH]; intros cur.
  - cbn [app]. rewrite split_go_single_step, N.eqb_refl. reflexivity.
  - cbn [app]. rewrite !split_go_single_step. destruct (c =? x)%N.
    + now rewrite IH.
    + apply IH.
Qed.

(** Joining the pieces of a text with the separator gives the text back. *)
Lemma join_split_go_single c cur s :
  join [c] (split_go [c] 0 cur s) = reverse cur ++ s.
Proof.
  revert cur. induction s as [|x s IH]; intros cur.
  - cbn [split_go join]. now rewrite app_nil_r.
  - rewrite split_go_single_step. destruct (N.eqb_spec c x) as [-> | Hne].
    + rewrite join_cons by apply split_go_nonempty. now rewrite IH.
    + rewrite IH. now rewrite reverse_cons, <- app_assoc.
Qed.

Lemma join_split_single c s : join [c] (split [c] s) = s.
Proof. apply join_split_go_single. Qed.

(** Every piece of a split lies in the text. *)
Lemma split_go_single_piece c cur s piece :
  In piece (split_go [c] 0 cur s) ->
  exists pre post, reverse cur ++ s = pre ++ piece ++ post.
Proof.
  revert cur. induction s as [|x s IH]; intros cur H.
  - cbn [split_go] in H. destruct H as [<- | []]. now exists [], [].
  - rewrite split_go_single_step in H. destruct (N.eqb_spec c x) as [-> | Hne].
    + destruct H as [<- | H].
      * now exists [], (x :: s).
      * destruct (IH [] H) as (pre & post & E). cbn in E. rewrite E.
        exists (reverse cur ++ x :: pre), post. now rewrite <- app_assoc.
    + destruct (IH (x :: cur) H) as (pre & post & E).
      rewrite reverse_cons, <- app_assoc in E. now exists pre, post.
Qed.

(** Removing a character: [s.replace(c, "")]. *)
Lemma replace_single c s :
  replace [c] [] s = List.filter (fun x => negb (x =? c)%N) s.
Proof.
  unfold replace, split.
  enough (H : forall cur, join [] (split_go [c] 0 cur s)
                          = reverse cur ++ List.filter (fun x => negb (x =? c)%N) s)
    by apply (H []).
  induction s as [|x s IH]; intros cur.
  - cbn [split_go join List.filter]. now rewrite app_nil_r.
  - rewrite split_go_single_step. cbn [List.filter]. rewrite (N.eqb_sym x c).
    destruct (c =? x)%N; cbn [negb].
    + rewrite join_nil_cons. f_equal. apply (IH []).
    + rewrite IH. now rewrite reverse_cons, <- app_assoc.
Qed.

(** White space at the two ends. *)
Definition no_lead (s : text) : Prop :=
  match s with [] => True | c :: _ => isspace c = false end.

Lemma lstrip_no_lead s : no_lead (lstrip s).
Proof.
  induction s as [|c s IH]; cbn [lstrip]; [exact I|].
  destruct (isspace c) eqn:E; [exact IH | exact E].
Qed.

Lemma lstrip_id s : no_lead s -> lstrip s = s.
Proof. destruct s as [|c s]; cbn [no_lead lstrip]; [auto | now intros ->]. Qed.

Lemma lstrip_suffix s : exists pre, s = pre ++ lstrip s.
Proof.
  induction s as [|c s [pre IH]]; cbn [lstrip]; [now exists []|].
  destruct (isspace c); [|now exists []]. exists (c :: pre). cbn. now f_equal.
Qed.

Lemma rstrip_no_lead s : no_lead s -> no_lead (rstrip s).
Proof.
  unfold rstrip. intros H. destruct (lstrip_suffix (reverse s)) as [pre E].
  apply (f_equal reverse) in E. rewrite reverse_involutive, reverse_app in E.
  destruct (reverse (lstrip (reverse s))) as [|c r]; [exact I|].
  rewrite E in H. exact H.
Qed.

Lemma strip_no_lead s : no_lead (strip s).
Proof. apply rstrip_no_lead, lstrip_no_lead. Qed.

Lemma strip_no_trail s : no_lead (reverse (strip s)).
Proof. unfold strip, rstrip. rewrite reverse_involutive. apply lstrip_no_lead. Qed.

Lemma strip_id s : no_lead s -> no_lead (reverse s) -> strip s = s.
Proof.
  intros H1 H2. unfold strip, rstrip. rewrite (lstrip_id s H1), (lstrip_id _ H2).
  apply reverse_involutive.
Qed.

Lemma strip_idempotent s : strip (strip s) = strip s.
Proof. apply strip_id; [apply strip_no_lead | apply strip_no_trail]. Qed.


Lemma In_lstrip x s : In x (lstrip s) -> In x s.
Proof.
  destruct (lstrip_suffix s) as [pre E]. intros H. rewrite E. apply in_or_app. now right.
Qed.

Lemma In_strip x s : In x (strip s) -> In x s.
Proof.
  unfold strip, rstrip. intros H.
  apply list_elem_of_In, elem_of_reverse, list_elem_of_In, In_lstrip in H.
  apply list_elem_of_In, elem_of_reverse, list_elem_of_In, In_lstrip in H.
  exact H.
Qed.

End PyFacts.

(** ** [clean_text] *)
Module Cleaning.
Import Vectorizer PyFacts.

Lemma split_go_pair_absent a b cur s :
  ~ In a s -> split_go [a; b] 0 cur s = [reverse cur ++ s].
Proof.
  revert cur. induction s as [|x s IH]; intros cur H.
  - cbn [split_go]. now rewrite app_nil_r.
  - cbn [split_go startswith]. destruct (N.eqb_spec a x) as [-> | Hne].
    + exfalso. apply H. now left.
    + cbn [andb]. rewrite IH by (intros Hin; apply H; now right).
      now rewrite reverse_cons, <- app_assoc.
Qed.

Lemma filter_all (f : N -> bool) s :
  (forall x, In x s -> f x = true) -> List.filter f s = s.
Proof.
  induction s as [|x s IH]; intros H; [reflexivity|]. cbn [List.filter].
  rewrite (H x) by now left. f_equal. apply IH. intros y Hy. apply H. now right.
Qed.

Lemma not_in_filter c s : ~ In c (List.filter (fun x => negb (x =? c)%N) s).
Proof.
  intros H. apply filter_In in H as [_ H]. now rewrite N.eqb_refl in H.
Qed.

(** [clean_text] on a text that is not empty: the pairs of stars go, then
    the stars, then the underscores, then the white space at the ends. *)
Lemma clean_text_filters x t :
  clean_text (x :: t) =
  strip (List.filter (fun c => negb (c =? 95)%N)
           (List.filter (fun c => negb (c =? 42)%N)
              (replace [42%N; 42%N] [] (x :: t)))).
Proof.
  unfold clean_text.
  change (codes "_") with [95%N]. change (codes "*") with [42%N].
  change (codes "**") with [42%N; 42%N].
  now rewrite !replace_single.
Qed.

Lemma clean_text_chars t :
  ~ In 42%N (clean_text t) /\ ~ In 95%N (clean_text t).
Proof.
  destruct t as [|x t]; [split; intros []|]. rewrite clean_text_filters. split.
  - intros H. apply In_strip, filter_In in H as [H _]. now apply not_in_filter in H.
  - intros H. apply In_strip in H. now apply not_in_filter in H.
Qed.

(** X1: the text [clean_text] returns holds no star and no underscore, and
    neither begins nor ends with a white-space character. *)
Theorem clean_text_strips_markup t :
  ~ In 42%N (clean_text t) /\ ~ In 95%N (clean_text t)
  /\ (forall c rest, clean_text t = c :: rest -> isspace c = false)
  /\ (forall c front, clean_text t = front ++ [c] -> isspace c = false).
Proof.
  destruct (clean_text_chars t) as [Hstar Hunder].
  split; [exact Hstar|]. split; [exact Hunder|].
  destruct t as [|x t].
  - split; intros c r H; [discriminate | now destruct r].
  - rewrite clean_text_filters. split; intros c r H.
    + pose proof (strip_no_lead (List.filter (fun c => negb (c =? 95)%N)
           (List.filter (fun c => negb (c =? 42)%N)
              (replace [42%N; 42%N] [] (x :: t))))) as Hl.
      now rewrite H in Hl.
    + pose proof (strip_no_trail (List.filter (fun c => negb (c =? 95)%N)
           (List.filter (fun c => negb (c =? 42)%N)
              (replace [42%N; 42%N] [] (x :: t))))) as Hl.
      now rewrite H, reverse_app in Hl.
Qed.

Lemma clean_text_twice t : clean_text (clean_text t) = clean_text t.
Proof.
  destruct (clean_text_chars t) as [Hstar Hunder].
  assert (Hl : no_lead (clean_text t)).
  { destruct t; [exact I|]. rewrite clean_text_filters. apply strip_no_lead. }
  assert (Hr : no_lead (reverse (clean_text t))).
  { destruct t; [exact I|]. rewrite clean_text_filters. apply strip_no_trail. }
  destruct (clean_text t) as [|y u] eqn:E; [reflexivity|].
  rewrite clean_text_filters.
  unfold replace, split. rewrite split_go_pair_absent by exact Hstar.
  cbn [join reverse app]. change (reverse [] ++ y :: u) with (y :: u).
  rewrite (filter_all _ (y :: u)).
  - rewrite (filter_all _ (y :: u)).
    + now apply strip_id.
    + intros z Hz. destruct (N.eqb_spec z 95) as [-> | _]; [contradiction | reflexivity].
  - intros z Hz. destruct (N.eqb_spec z 42) as [-> | _]; [contradiction | reflexivity].
Qed.

(** X2: cleaning a cleaned text changes nothing, so the repeated cleaning
    of the pipeline (in the loaders, in the loop over the loaded documents,
    before the embedding call) is the same as one. *)
Theorem clean_text_idempotent t : clean_text (clean_text t) = clean_text t.
Proof. apply clean_text_twice. Qed.

End Cleaning.

(** ** The embedding pipeline *)
Module Pipeline.
Import Vectorizer Embedding Frame Run PyFacts.

Lemma read_bytes_run svc p st :
  read_bytes svc p st =
  (match disk st !! p with
   | Some a => Ok (file_bytes svc a)
   | None => Raise (codes "No such file or directory")
   end, add_log (ReadBytes p) st).
Proof.
  unfold read_bytes, bind, emit, read_artifact, ret, raise. simpl.
  now destruct (disk st !! p).
Qed.

(** The loaders see the disk through the file they are given only. *)
Lemma load_by_extension_disk svc ext p name st d :
  disk st !! p = d !! p ->
  fst (load_by_extension svc ext p name st)
  = fst (load_by_extension svc ext p name
           {| stdout := []; captured := None; disk := d; log := [] |}).
Proof.
  intros H. unfold load_by_extension, load_pptx, extract_text_from_excel.
  repeat match goal with |- context [if ?b then _ else _] => destruct b end;
    unfold bind; rewrite ?read_bytes_run; cbn [disk]; rewrite ?H;
    try reflexivity;
    destruct (d !! p); cbn [fst snd]; try reflexivity;
    unfold call, ret;
    repeat match goal with
           | |- context [match ?r with Ok _ => _ | Raise _ => _ end] =>
               destruct r; cbn [fst snd]
           end; reflexivity.
Qed.

Lemma loads_at svc p name st :
  fst (load_by_extension svc (extension name) p name st) = loads svc p name (disk st).
Proof. unfold loads. now apply load_by_extension_disk. Qed.

Lemma same_disk_load_by_extension svc ext p name :
  preserves same_disk (load_by_extension svc ext p name).
Proof.
  unfold load_by_extension, load_pptx, extract_text_from_excel, read_bytes. frame.
Qed.

Lemma no_embed_load_by_extension svc ext p name :
  preserves no_embed (load_by_extension svc ext p name).
Proof.
  unfold load_by_extension, load_pptx, extract_text_from_excel, read_bytes. frame.
Qed.

Lemma same_disk_load_file svc root name acc :
  preserves same_disk (load_file svc root name acc).
Proof.
  destruct acc as [docs c]. unfold load_file, compute_file_hash, read_bytes.
  pose proof same_disk_load_by_extension. frame.
Qed.

Lemma no_embed_load_file svc root name acc :
  preserves no_embed (load_file svc root name acc).
Proof.
  destruct acc as [docs c]. unfold load_file, compute_file_hash, read_bytes.
  pose proof no_embed_load_by_extension. frame.
Qed.

Lemma returns_load_file svc root name acc : returns (load_file svc root name acc).
Proof. destruct acc as [docs c]. unfold load_file. frame. Qed.

Lemma same_disk_load_files svc files acc :
  preserves same_disk (load_files svc files acc).
Proof.
  revert acc. induction files as [|[root name] files IH]; intros acc; cbn [load_files].
  - frame.
  - pose proof same_disk_load_file. frame.
Qed.

Lemma no_embed_load_files svc files acc :
  preserves no_embed (load_files svc files acc).
Proof.
  revert acc. induction files as [|[root name] files IH]; intros acc; cbn [load_files].
  - frame.
  - pose proof no_embed_load_file. frame.
Qed.

Lemma returns_load_files svc files acc : returns (load_files svc files acc).
Proof.
  revert acc. induction files as [|[root name] files IH]; intros acc; cbn [load_files].
  - frame.
  - pose proof returns_load_file. frame.
Qed.

(** The body of the loop, case by case: what it returns for a file, given
    what the disk holds at its path. *)
Lemma load_file_cases svc root name docs c st :
  let p := path_join root name in
  exists st',
    load_file svc root name (docs, c) st =
    (Ok match disk st !! p with
        | None => (docs, c)
        | Some a =>
            let key := cache_key p (sha256_hexdigest svc (file_bytes svc a)) in
            if bool_decide (is_Some (c !! key)) then (docs, c)
            else match loads svc p name (disk st) with
                 | Ok (Some file_docs) =>
                     (docs ++ map (finish_document p name) file_docs,
                      <[key := true]> c)
                 | _ => (docs, c)
                 end
        end, st').
Proof.
  intros p. unfold load_file. fold p.
  unfold try_except, compute_file_hash, bind. rewrite read_bytes_run.
  pose proof (loads_at svc p name (add_log (ReadBytes p) st)) as Hl.
  cbn [disk add_log] in Hl. rewrite <- Hl. clear Hl.
  destruct (disk st !! p) as [a|] eqn:Ea; unfold ret at 1; cbv zeta.
  - destruct (bool_decide (is_Some (c !! cache_key p (sha256_hexdigest svc (file_bytes svc a))))).
    + unfold print, ret. eauto.
    + destruct (load_by_extension svc (extension name) p name
                  (add_log (ReadBytes p) st)) as [[[fd|]|e] s1]; cbn [fst];
        unfold print, ret; eauto.
  - unfold print, ret. eauto.
Qed.

(** The cache only grows along the loop. *)
Lemma load_file_grows svc root name docs c st docs1 c1 st1 :
  load_file svc root name (docs, c) st = (Ok (docs1, c1), st1) ->
  forall k, is_Some (c !! k) -> is_Some (c1 !! k).
Proof.
  intros H. destruct (load_file_cases svc root name docs c st) as [st' Hc].
  rewrite Hc in H. injection H as H _. revert H.
  destruct (disk st !! path_join root name) as [a|]; cbv zeta.
  - destruct (bool_decide _).
    + intros [= <- <-]. auto.
    + destruct (loads svc _ name (disk st)) as [[fd|]|e]; intros [= <- <-]; auto.
      intros k Hk. rewrite lookup_insert. case_decide; eauto.
  - intros [= <- <-]. auto.
Qed.

Lemma load_files_grows svc files : forall docs c st docs1 c1 st1,
  load_files svc files (docs, c) st = (Ok (docs1, c1), st1) ->
  forall k, is_Some (c !! k) -> is_Some (c1 !! k).
Proof.
  induction files as [|[root name] files IH]; intros docs c st docs1 c1 st1 H k Hk;
    cbn [load_files] in H.
  - unfold ret in H. injection H as <- <- _. exact Hk.
  - unfold bind in H.
    destruct (load_file svc root name (docs, c) st) as [[[docsa ca]|e] sta] eqn:Ea;
      [|discriminate].
    eapply IH; [exact H|]. eapply load_file_grows; eauto.
Qed.

(** A file whose key is in the cache is skipped: it adds no document and
    no key. *)
Lemma load_file_cached svc root name docs c st a :
  disk st !! path_join root name = Some a ->
  is_Some (c !! cache_key (path_join root name)
                  (sha256_hexdigest svc (file_bytes svc a))) ->
  exists st', load_file svc root name (docs, c) st = (Ok (docs, c), st').
Proof.
  intros Ha Hk. destruct (load_file_cases svc root name docs c st) as [st' Hc].
  exists st'. rewrite Hc, Ha. cbv zeta. now rewrite bool_decide_eq_true_2.
Qed.

(** A file the loaders read is in the cache after its turn, whether it was
    there before or not. *)
Lemma load_file_credits svc root name docs c st a file_docs docs1 c1 st1 :
  disk st !! path_join root name = Some a ->
  loads svc (path_join root name) name (disk st) = Ok (Some file_docs) ->
  load_file svc root name (docs, c) st = (Ok (docs1, c1), st1) ->
  is_Some (c1 !! cache_key (path_join root name)
                   (sha256_hexdigest svc (file_bytes svc a))).
Proof.
  intros Ha Hl H. destruct (load_file_cases svc root name docs c st) as [st' Hc].
  rewrite Hc, Ha, Hl in H. cbv zeta in H. injection H as H _. revert H.
  destruct (bool_decide _) eqn:Eb; intros [= <- <-].
  - now apply bool_decide_eq_true_1 in Eb.
  - rewrite lookup_insert_eq. eauto.
Qed.

(** A file seen again with a cache that holds what the first pass left
    adds nothing, on a disk that holds the same at its path. *)
Lemma load_file_again svc root name docs c st docs1 c1 st1 docs' c2 st2 :
  load_file svc root name (docs, c) st = (Ok (docs1, c1), st1) ->
  (forall k, is_Some (c1 !! k) -> is_Some (c2 !! k)) ->
  disk st2 !! path_join root name = disk st !! path_join root name ->
  exists st2', load_file svc root name (docs', c2) st2 = (Ok (docs', c2), st2').
Proof.
  intros H Hsub Hdisk.
  destruct (load_file_cases svc root name docs c st) as [st' Hc].
  destruct (load_file_cases svc root name docs' c2 st2) as [st2' Hc2].
  exists st2'. rewrite Hc2. clear Hc2. rewrite Hc in H. clear Hc.
  injection H as H _. revert H.
  assert (El : loads svc (path_join root name) name (disk st2)
               = loads svc (path_join root name) name (disk st)).
  { unfold loads. apply load_by_extension_disk. exact Hdisk. }
  rewrite El, Hdisk.
  destruct (disk st !! path_join root name) as [a|]; [|reflexivity]. cbv zeta.
  set (key := cache_key _ _).
  destruct (bool_decide (is_Some (c2 !! key))) eqn:E2k; [reflexivity|].
  apply bool_decide_eq_false_1 in E2k.
  destruct (bool_decide (is_Some (c !! key))) eqn:E1k.
  - intros [= <- <-]. apply bool_decide_eq_true_1 in E1k. exfalso. auto.
  - destruct (loads svc (path_join root name) name (disk st))
      as [[fd|]|e]; try reflexivity.
    intros [= <- <-]. exfalso. apply E2k, Hsub. rewrite lookup_insert_eq. eauto.
Qed.

Lemma load_files_again svc files : forall docs c st docs1 c1 st1 docs' c2 st2,
  load_files svc files (docs, c) st = (Ok (docs1, c1), st1) ->
  (forall k, is_Some (c1 !! k) -> is_Some (c2 !! k)) ->
  (forall root name, In (root, name) files ->
     disk st2 !! path_join root name = disk st !! path_join root name) ->
  exists st2', load_files svc files (docs', c2) st2 = (Ok (docs', c2), st2').
Proof.
  induction files as [|[root name] files IH];
    intros docs c st docs1 c1 st1 docs' c2 st2 H Hsub Hdisk; cbn [load_files] in *.
  - unfold ret. eauto.
  - unfold bind in H.
    destruct (load_file svc root name (docs, c) st) as [[[docsa ca]|e] sta] eqn:Ea;
      [|discriminate].
    destruct (load_file_again svc root name docs c st docsa ca sta docs' c2 st2 Ea)
      as [st2a E2].
    + intros k Hk. apply Hsub. eapply load_files_grows; eauto.
    + apply Hdisk. now left.
    + rewrite (bind_ok _ _ _ _ _ E2).
      eapply (IH docsa ca sta docs1 c1 st1 docs' c2 st2a H Hsub).
      intros r n Hin.
      pose proof (same_disk_load_file svc root name (docs', c2) st2) as D2.
      pose proof (same_disk_load_file svc root name (docs, c) st) as D1.
      rewrite E2 in D2. rewrite Ea in D1. unfold same_disk in D1, D2. cbn [snd] in D1, D2.
      rewrite D1, D2. apply Hdisk. now right.
Qed.

(** The documents a file adds are the finished documents of its loader. *)
Lemma load_file_adds svc root name docs c st docs1 c1 st1 :
  load_file svc root name (docs, c) st = (Ok (docs1, c1), st1) ->
  exists file_docs,
    docs1 = docs ++ map (finish_document (path_join root name) name) file_docs.
Proof.
  intros H. destruct (load_file_cases svc root name docs c st) as [st' Hc].
  rewrite Hc in H. injection H as H _. revert H.
  destruct (disk st !! path_join root name) as [a|]; cbv zeta.
  - destruct (bool_decide _).
    + intros [= <- <-]. exists []. cbn. now rewrite app_nil_r.
    + destruct (loads svc _ name (disk st)) as [[fd|]|e]; intros [= <- <-];
        [now exists fd | exists [] | exists []]; cbn; now rewrite app_nil_r.
  - intros [= <- <-]. exists []. cbn. now rewrite app_nil_r.
Qed.

Lemma load_files_add svc files : forall docs c st docs1 c1 st1,
  load_files svc files (docs, c) st = (Ok (docs1, c1), st1) ->
  exists new,
    docs1 = docs ++ new
    /\ Forall (fun d => exists root name doc,
                 In (root, name) files
                 /\ d = finish_document (path_join root name) name doc) new.
Proof.
  induction files as [|[root name] files IH]; intros docs c st docs1 c1 st1 H;
    cbn [load_files] in H.
  - unfold ret in H. injection H as <- <- _. exists []. split; [now rewrite app_nil_r | constructor].
  - unfold bind in H.
    destruct (load_file svc root name (docs, c) st) as [[[docsa ca]|e] sta] eqn:Ea;
      [|discriminate].
    apply load_file_adds in Ea as [fd ->].
    apply IH in H as (new & -> & Hnew).
    exists (map (finish_document (path_join root name) name) fd ++ new). split.
    + now rewrite <- app_assoc.
    + apply Forall_app. split.
      * apply Forall_forall. intros d Hd. apply list_elem_of_In, in_map_iff in Hd as (doc & <- & _).
        exists root, name, doc. split; [now left | reflexivity].
      * eapply List.Forall_impl; [|exact Hnew]. cbn beta.
        intros d (r & n & doc & Hin & E). exists r, n, doc. split; [now right | exact E].
Qed.

Lemma load_local_documents_run svc self folder st :
  exists docs c st1,
    load_files svc (walked_files svc folder) ([], cache self) st = (Ok (docs, c), st1)
    /\ load_local_documents svc self folder st = (Ok (docs, set_cache self c), st1).
Proof.
  destruct (returns_run _ st (returns_load_files svc (walked_files svc folder)
                                ([], cache self))) as ([docs c] & st1 & E).
  exists docs, c, st1. split; [exact E|].
  unfold load_local_documents. now rewrite (bind_ok _ _ _ _ _ E).
Qed.

(** X3: loading the folder never raises, whatever the files and the
    loaders do: it writes nothing to the disk, calls the embedding model
    not once, keeps every key the cache held and leaves the settings of
    the object as they were. *)
Theorem load_local_documents_contained svc self folder st :
  exists docs self1 st1,
    load_local_documents svc self folder st = (Ok (docs, self1), st1)
    /\ disk st1 = disk st
    /\ no_embed st st1
    /\ (forall k, is_Some (cache self !! k) -> is_Some (cache self1 !! k))
    /\ cache_file self1 = cache_file self
    /\ batch_size self1 = batch_size self
    /\ chunk_size self1 = chunk_size self
    /\ chunk_overlap self1 = chunk_overlap self.
Proof.
  destruct (load_local_documents_run svc self folder st) as (docs & c & st1 & E & ->).
  exists docs, (set_cache self c), st1. split; [reflexivity|].
  pose proof (same_disk_load_files svc (walked_files svc folder) ([], cache self) st) as D.
  pose proof (no_embed_load_files svc (walked_files svc folder) ([], cache self) st) as L.
  rewrite E in D, L. cbn [snd] in D, L.
  repeat split; try assumption.
  cbn [cache set_cache]. eapply load_files_grows; eauto.
Qed.

(** X4: every document the load returns carries the local metadata of a
    file of the walk (its path as source and deep link, the base name of
    the path as id, the file name as title) and a text that cleaning leaves
    as it is, whatever metadata and text the loader gave it. *)
Theorem loaded_documents_are_local svc self folder st :
  match load_local_documents svc self folder st with
  | (Ok (docs, _), _) =>
      Forall (fun d => exists root file_name,
                In (root, file_name) (walked_files svc folder)
                /\ md_source_url d = path_join root file_name
                /\ md_deep_link d = path_join root file_name
                /\ md_id d = basename (path_join root file_name)
                /\ md_title d = file_name
                /\ md_deep_link_description d = codes "Local file"
                /\ clean_text (page_content d) = page_content d) docs
  | (Raise _, _) => False
  end.
Proof.
  destruct (load_local_documents_run svc self folder st) as (docs & c & st1 & E & ->).
  apply load_files_add in E as (new & -> & Hnew). cbn [app].
  eapply List.Forall_impl; [|exact Hnew]. cbn beta.
  intros d (root & name & doc & Hin & ->). exists root, name.
  split; [exact Hin|]. cbn. repeat split. apply Cleaning.clean_text_twice.
Qed.

(** *** Embedding *)

Lemma concat_batches_go {A} size room (cur l : list A) :
  concat (batches_go size room cur l) = reverse cur ++ l.
Proof.
  revert room cur. induction l as [|x l IH]; intros room cur; cbn [batches_go].
  - destruct cur; cbn [concat]; [reflexivity | now rewrite !app_nil_r].
  - destruct room as [|[|room]]; cbn [concat]; rewrite IH;
      rewrite ?reverse_cons, <- ?app_assoc; reflexivity.
Qed.

Lemma batches_go_sizes {A} size room (cur l : list A) :
  (1 <= room)%nat -> (List.length cur + room = size)%nat ->
  Forall (fun b => (1 <= List.length b <= size)%nat) (batches_go size room cur l).
Proof.
  revert room cur. induction l as [|x l IH]; intros room cur Hroom Hsize;
    cbn [batches_go].
  - destruct cur as [|y cur]; constructor; [|constructor].
    rewrite length_reverse. cbn [List.length] in *. lia.
  - destruct room as [|[|room]]; [lia | |].
    + constructor.
      * rewrite length_reverse. cbn [List.length]. lia.
      * apply IH; cbn [List.length]; lia.
    + apply IH; cbn [List.length]; lia.
Qed.

(** The loop over the batches: the rows, the disk and the calls made. *)
Lemma embed_batches_run svc size : forall todo batch_start data_list st,
  exists st',
    embed_batches svc size batch_start todo data_list st
    = (Ok (data_list ++ flat_map (batch_rows svc) todo), st')
    /\ disk st' = disk st
    /\ log st' = log st ++ map (fun b => Embed (batch_texts b)) todo.
Proof.
  induction todo as [|b todo IH]; intros batch_start data_list st.
  - exists st. cbn. now rewrite !app_nil_r.
  - cbn [embed_batches]. cbv zeta. fold (batch_texts b).
    unfold bind at 1. unfold try_except, bind, print, emit, call, ret.
    unfold batch_rows at 1. cbn [flat_map map].
    destruct st as [out cap dk lg].
    destruct (embed_documents svc (batch_texts b)) as [es | e];
      destruct cap as [buf|]; cbn;
      match goal with |- context [embed_batches svc size ?s todo ?d ?t] =>
        destruct (IH s d t) as (st' & -> & Hd & Hl) end;
      exists st'; cbn in Hd, Hl; rewrite Hd, Hl, <- ?app_assoc; auto.
Qed.

Lemma generate_embeddings_batch_run svc self documents chunks n st :
  split_documents svc (chunk_size self) (chunk_overlap self) documents = Ok chunks ->
  batch_size self = S n ->
  exists st',
    generate_embeddings_batch svc self documents st
    = (Ok (flat_map (batch_rows svc) (batches (S n) chunks)), st')
    /\ disk st' = disk st
    /\ log st' = log st ++ map (fun b => Embed (batch_texts b)) (batches (S n) chunks).
Proof.
  intros Hsplit Hsize. unfold generate_embeddings_batch. rewrite Hsplit, Hsize.
  unfold bind at 1.
  destruct (embed_batches_run svc (S n) (batches (S n) chunks) 0 []
              (snd (print ([128290%N] ++ codes " Total chunks to embed: "
                           ++ str_of_N (N.of_nat (List.length chunks))) st)))
    as (st' & E & Hd & Hl).
  exists st'. split; [exact E|].
  rewrite Hd, Hl. unfold print. cbn [snd]. now destruct (captured st).
Qed.

Lemma batch_rows_length svc b : (List.length (batch_rows svc b) <= List.length b)%nat.
Proof.
  unfold batch_rows. destruct (embed_documents svc (batch_texts b)) as [es|e].
  - rewrite length_map, length_combine. lia.
  - cbn. lia.
Qed.

Lemma flat_map_length_le {A B} (f : list A -> list B) (bs : list (list A)) :
  (forall b, List.length (f b) <= List.length b)%nat ->
  (List.length (flat_map f bs) <= List.length (concat bs))%nat.
Proof.
  intros H. induction bs as [|b bs IH]; cbn [flat_map concat]; [cbn; lia|].
  rewrite !length_app. specialize (H b). lia.
Qed.

Lemma batch_texts_concat bs : concat (map batch_texts bs) = batch_texts (concat bs).
Proof.
  unfold batch_texts. induction bs as [|b bs IH]; cbn [map concat]; [reflexivity|].
  now rewrite map_app, IH.
Qed.

(** X5: with a positive batch size, [generate_embeddings_batch] returns
    for every outcome of the embedding calls.  A batch whose call raises
    adds no row and does not stop the batches after it: the rows returned
    are those of the batches whose call returned, in order, so there are
    at most as many rows as chunks; nothing is written to the disk. *)
Theorem failed_batches_are_skipped svc self documents chunks n st :
  split_documents svc (chunk_size self) (chunk_overlap self) documents = Ok chunks ->
  batch_size self = S n ->
  exists rows st',
    generate_embeddings_batch svc self documents st = (Ok rows, st')
    /\ rows = flat_map (batch_rows svc) (batches (S n) chunks)
    /\ (List.length rows <= List.length chunks)%nat
    /\ disk st' = disk st.
Proof.
  intros Hsplit Hsize.
  destruct (generate_embeddings_batch_run svc self documents chunks n st Hsplit Hsize)
    as (st' & E & Hd & _).
  eexists _, st'. split; [exact E|]. split; [reflexivity|]. split; [|exact Hd].
  etransitivity; [apply flat_map_length_le, batch_rows_length|].
  unfold batches. rewrite concat_batches_go. cbn. lia.
Qed.

(** X6: the embedding model is called once for each batch, with the
    cleaned texts of the chunks: the calls, taken together, hold the text
    of every chunk once and in order, and each call holds between one and
    [batch_size] texts. *)
Theorem embedding_calls_cover_the_chunks svc self documents chunks n st :
  split_documents svc (chunk_size self) (chunk_overlap self) documents = Ok chunks ->
  batch_size self = S n ->
  exists calls,
    log (snd (generate_embeddings_batch svc self documents st))
    = log st ++ map Embed calls
    /\ concat calls = map (fun doc => clean_text (page_content doc)) chunks
    /\ Forall (fun texts => (1 <= List.length texts <= S n)%nat) calls.
Proof.
  intros Hsplit Hsize.
  destruct (generate_embeddings_batch_run svc self documents chunks n st Hsplit Hsize)
    as (st' & E & _ & Hl).
  exists (map batch_texts (batches (S n) chunks)). rewrite E. cbn [snd]. split.
  - rewrite Hl. now rewrite map_map.
  - split.
    + rewrite batch_texts_concat. unfold batches. now rewrite concat_batches_go.
    + apply Forall_map.
      eapply List.Forall_impl; [|apply (batches_go_sizes (S n) (S n) [] chunks)].
      * intros b Hb. unfold batch_texts. rewrite length_map. exact Hb.
      * lia.
      * cbn. lia.
Qed.

Lemma Forall2_flat_map {A B} (P : A -> B -> Prop) (f : list A -> list B) bs :
  (forall b, Forall2 P b (f b)) -> Forall2 P (concat bs) (flat_map f bs).
Proof.
  intros H. induction bs as [|b bs IH]; cbn [concat flat_map]; [constructor|].
  apply Forall2_app; auto.
Qed.

Lemma Forall2_rows docs : forall es,
  List.length es = List.length docs ->
  Forall2 (fun doc r => exists e, r = row_of doc e) docs
          (map (fun '(doc, e) => row_of doc e) (combine docs es)).
Proof.
  induction docs as [|d docs IH]; intros [|e es] H; try discriminate; cbn.
  - constructor.
  - constructor; [now exists e | apply IH; now injection H].
Qed.

(** X7: when every embedding call returns as many vectors as it was given
    texts, the rows returned are the chunks, one row for each chunk and in
    their order, each with the text and the metadata of its chunk. *)
Theorem all_chunks_embedded svc self documents chunks n st :
  split_documents svc (chunk_size self) (chunk_overlap self) documents = Ok chunks ->
  batch_size self = S n ->
  (forall texts, exists es,
      embed_documents svc texts = Ok es /\ List.length es = List.length texts) ->
  exists rows st',
    generate_embeddings_batch svc self documents st = (Ok rows, st')
    /\ Forall2 (fun doc r => exists e, r = row_of doc e) chunks rows.
Proof.
  intros Hsplit Hsize Hembed.
  destruct (generate_embeddings_batch_run svc self documents chunks n st Hsplit Hsize)
    as (st' & E & _ & _).
  eexists _, st'. split; [exact E|].
  rewrite <- (concat_batches_go (S n) (S n) [] chunks) at 1.
  change (reverse [] ++ chunks) with chunks.
  apply Forall2_flat_map. intros b. unfold batch_rows.
  destruct (Hembed (batch_texts b)) as (es & -> & Hlen).
  apply Forall2_rows. rewrite Hlen. unfold batch_texts. apply length_map.
Qed.


(** *** A run *)

Lemma print_run s st :
  exists st1, print s st = (Ok tt, st1) /\ disk st1 = disk st /\ log st1 = log st.
Proof. unfold print. eexists. split; [reflexivity|]. now destruct (captured st). Qed.

Lemma run_load_run svc self folder st :
  exists docs c st0 st1,
    load_files svc (walked_files svc folder) ([], cache self) st0 = (Ok (docs, c), st1)
    /\ run_load svc self folder st = (Ok (docs, set_cache self c), st1)
    /\ disk st0 = disk st /\ disk st1 = disk st /\ no_embed st st1.
Proof.
  unfold run_load.
  destruct (print_run ([128194%N] ++ codes " Loading from: " ++ folder) st)
    as (st0 & E0 & D0 & L0).
  destruct (load_local_documents_run svc self folder st0) as (docs & c & st1 & E & E1).
  exists docs, c, st0, st1. split; [exact E|].
  rewrite (bind_ok _ _ _ _ _ E0), E1. split; [reflexivity|]. split; [exact D0|].
  pose proof (same_disk_load_files svc (walked_files svc folder) ([], cache self) st0) as D.
  pose proof (no_embed_load_files svc (walked_files svc folder) ([], cache self) st0) as L.
  rewrite E in D, L. cbn [snd] in D, L. split; [congruence|].
  destruct L as (evs & Hl & Hevs). exists evs. split; [congruence | exact Hevs].
Qed.

Lemma same_disk_generate svc self documents :
  preserves same_disk (generate_embeddings_batch svc self documents).
Proof.
  intros st. unfold same_disk.
  destruct (split_documents svc (chunk_size self) (chunk_overlap self) documents)
    as [chunks | e] eqn:Hs.
  - destruct (batch_size self) as [|n] eqn:En.
    + unfold generate_embeddings_batch. rewrite Hs, En.
      unfold bind, print, raise. cbn [snd]. now destruct (captured st).
    + destruct (generate_embeddings_batch_run svc self documents chunks n st Hs En)
        as (st' & -> & Hd & _). exact Hd.
  - unfold generate_embeddings_batch. rewrite Hs.
    unfold bind, print, ret. cbn [snd]. now destruct (captured st).
Qed.

Lemma same_disk_run_embed svc self documents :
  preserves same_disk (run_embed svc self documents).
Proof. unfold run_embed. pose proof same_disk_generate. frame. Qed.

Lemma save_to_parquet_run data output_path st :
  dirname output_path <> [] ->
  exists st',
    save_to_parquet data output_path st = (Ok tt, st')
    /\ disk st' = <[output_path := ParquetFile data]> (disk st)
    /\ log st' = log st ++ [WriteParquet output_path].
Proof.
  intros H. unfold save_to_parquet, makedirs.
  destruct (dirname output_path); [congruence|].
  unfold bind, ret, emit, write_artifact, print. eexists. split; [reflexivity|].
  cbn. now destruct (captured st).
Qed.

Lemma save_cache_run self st :
  exists st',
    _save_cache self st = (Ok tt, st')
    /\ disk st' = <[cache_file self := JsonFile (cache self)]> (disk st)
    /\ log st' = log st ++ [WriteJson (cache_file self)].
Proof.
  unfold _save_cache, bind, emit, write_artifact. eexists. split; [reflexivity|].
  split; reflexivity.
Qed.

(** X9: a run that embeds at least one row returns, and replaces what
    the output path held by the rows of this run: after it the store holds
    these rows and no other, and the cache file holds the cache as the
    load left it.  Nothing else on the disk changes. *)
Theorem run_replaces_store svc self folder out st docs self1 st1 row rows st2 :
  run_load svc self folder st = (Ok (docs, self1), st1) ->
  docs <> [] ->
  run_embed svc self1 docs st1 = (Ok (row :: rows), st2) ->
  dirname out <> [] ->
  exists st',
    run svc self folder out st = (Ok self1, st')
    /\ disk st'
       = <[cache_file self := JsonFile (cache self1)]>
           (<[out := ParquetFile (row :: rows)]> (disk st)).
Proof.
  intros Hload Hdocs Hembed Hdir.
  destruct (run_load_run svc self folder st) as (docs' & c & st0 & st1' & _ & E & _ & D1 & _).
  rewrite Hload in E. injection E as -> -> ->.
  pose proof (same_disk_run_embed svc (set_cache self c) docs' st1') as D2.
  rewrite Hembed in D2. unfold same_disk in D2. cbn [snd] in D2.
  unfold run. rewrite (bind_ok _ _ _ _ _ Hload). destruct docs' as [|d docs']; [congruence|].
  rewrite (bind_ok _ _ _ _ _ Hembed).
  destruct (print_run ([128190%N] ++ codes " Saving embeddings...") st2)
    as (st3 & E3 & D3 & _).
  rewrite (bind_ok _ _ _ _ _ E3).
  destruct (save_to_parquet_run (row :: rows) out st3 Hdir) as (st4 & E4 & D4 & _).
  rewrite (bind_ok _ _ _ _ _ E4).
  destruct (save_cache_run (set_cache self c) st4) as (st5 & E5 & D5 & _).
  rewrite (bind_ok _ _ _ _ _ E5).
  destruct (print_run ([127881%N] ++ codes " Vectorization complete!") st5)
    as (st6 & E6 & D6 & _).
  rewrite (bind_ok _ _ _ _ _ E6). exists st6. split; [reflexivity|].
  rewrite D6, D5, D4, D3, D2, D1. reflexivity.
Qed.

(** X10: a run that finds no document to process, or whose embedding
    step returns no row, returns without writing: the store is left as it
    was and the cache is not saved, so the keys the load added are lost
    with the object. *)
Theorem run_without_rows_writes_nothing svc self folder out st docs self1 st1 :
  run_load svc self folder st = (Ok (docs, self1), st1) ->
  docs = [] \/ (exists st2, run_embed svc self1 docs st1 = (Ok [], st2)) ->
  exists st', run svc self folder out st = (Ok self1, st') /\ disk st' = disk st.
Proof.
  intros Hload Hcase.
  destruct (run_load_run svc self folder st) as (docs' & c & st0 & st1' & _ & E & _ & D1 & _).
  rewrite Hload in E. injection E as -> -> ->.
  unfold run. rewrite (bind_ok _ _ _ _ _ Hload).
  destruct docs' as [|d docs'].
  - destruct (print_run ([10060%N] ++ codes " No documents to process.") st1')
      as (st2 & E2 & D2 & _).
    rewrite (bind_ok _ _ _ _ _ E2). exists st2. split; [reflexivity | congruence].
  - destruct Hcase as [Hnil | [st2 Hembed]]; [discriminate|].
    pose proof (same_disk_run_embed svc (set_cache self c) (d :: docs') st1') as D2.
    rewrite Hembed in D2. unfold same_disk in D2. cbn [snd] in D2.
    rewrite (bind_ok _ _ _ _ _ Hembed).
    destruct (print_run ([10060%N] ++ codes " No embeddings generated.") st2)
      as (st3 & E3 & D3 & _).
    rewrite (bind_ok _ _ _ _ _ E3). exists st3. split; [reflexivity | congruence].
Qed.

(** X11: the store a run saves is what the retrieval responder reads:
    after [save_to_parquet], [read_parquet] at the same path returns the
    rows saved, in their order, and every other path holds what it held. *)
Theorem saved_store_reads_back data output_path st :
  dirname output_path <> [] ->
  exists st1 st2,
    save_to_parquet data output_path st = (Ok tt, st1)
    /\ Response.read_parquet output_path st1 = (Ok data, st2)
    /\ (forall p, p <> output_path -> disk st1 !! p = disk st !! p).
Proof.
  intros Hdir. destruct (save_to_parquet_run data output_path st Hdir) as (st1 & E & D & _).
  exists st1. unfold Response.read_parquet, bind, emit, read_artifact. cbn [disk add_log].
  rewrite D, lookup_insert_eq. eexists. split; [exact E|]. split; [reflexivity|].
  intros p Hp. now rewrite lookup_insert_ne.
Qed.

Lemma dirname_bare p : ~ In SLASH p -> dirname p = [].
Proof.
  intros H. unfold dirname, basename, split.
  rewrite split_go_single_absent by exact H. cbn [List.last reverse app].
  change (reverse [] ++ p) with p. now rewrite Nat.sub_diag.
Qed.

(** X12: an output path with no directory part (a bare file name) makes
    [save_to_parquet] raise, as [os.makedirs] is given the empty name: the
    store is not written, and in a run the cache is not saved either. *)
Theorem bare_output_name_raises svc self folder out st docs self1 st1 row rows st2 :
  ~ In SLASH out ->
  (exists e, save_to_parquet (row :: rows) out st = (Raise e, st))
  /\ (run_load svc self folder st = (Ok (docs, self1), st1) ->
      docs <> [] ->
      run_embed svc self1 docs st1 = (Ok (row :: rows), st2) ->
      exists e st', run svc self folder out st = (Raise e, st') /\ disk st' = disk st).
Proof.
  intros Hbare. apply dirname_bare in Hbare. split.
  - unfold save_to_parquet, makedirs. rewrite Hbare. unfold bind, raise. eauto.
  - intros Hload Hdocs Hembed.
    destruct (run_load_run svc self folder st) as (docs' & c & st0 & st1' & _ & E & _ & D1 & _).
    rewrite Hload in E. injection E as -> -> ->.
    pose proof (same_disk_run_embed svc (set_cache self c) docs' st1') as D2.
    rewrite Hembed in D2. unfold same_disk in D2. cbn [snd] in D2.
    unfold run. rewrite (bind_ok _ _ _ _ _ Hload). destruct docs' as [|d docs']; [congruence|].
    rewrite (bind_ok _ _ _ _ _ Hembed).
    destruct (print_run ([128190%N] ++ codes " Saving embeddings...") st2)
      as (st3 & E3 & D3 & _).
    rewrite (bind_ok _ _ _ _ _ E3).
    unfold save_to_parquet, makedirs. rewrite Hbare. unfold bind at 1. unfold bind at 1.
    unfold raise. eexists _, st3. split; [reflexivity | congruence].
Qed.

(** *** The cache across runs *)

Lemma init_run cs co bs cf st c :
  disk st !! cf = Some (JsonFile c) ->
  exists st',
    init cs co bs cf st
    = (Ok {| chunk_size := cs; chunk_overlap := co; batch_size := bs;
             cache_file := cf; cache := c |}, st')
    /\ disk st' = disk st
    /\ log st' = log st ++ [PathExists cf; ReadJson cf].
Proof.
  intros H. unfold init, _load_cache, bind, path_exists, emit, read_artifact, ret.
  cbn [disk add_log]. rewrite bool_decide_eq_true_2 by (rewrite H; eauto).
  cbn [disk add_log]. rewrite H. eexists. split; [reflexivity|].
  split; [reflexivity|]. cbn. now rewrite <- app_assoc.
Qed.

(** X13: the cache [_save_cache] writes is the cache a new
    [LocalVectorizer] starts with: [__init__] on the same cache file loads
    the keys saved, whatever the other settings. *)
Theorem saved_cache_loads_back self cs co bs st :
  exists st1 vectorizer st2,
    _save_cache self st = (Ok tt, st1)
    /\ init cs co bs (cache_file self) st1 = (Ok vectorizer, st2)
    /\ cache vectorizer = cache self
    /\ cache_file vectorizer = cache_file self.
Proof.
  destruct (save_cache_run self st) as (st1 & E1 & D1 & _).
  destruct (init_run cs co bs (cache_file self) st1 (cache self)) as (st2 & E2 & _).
  { rewrite D1. apply lookup_insert_eq. }
  eexists st1, _, st2. split; [exact E1|]. split; [exact E2|]. split; reflexivity.
Qed.

(** What a run that returns has done: the load of the folder, whose cache
    it returns, and either no write or the two writes at its end. *)
Lemma run_inv svc self folder out st self1 st1 :
  run svc self folder out st = (Ok self1, st1) ->
  exists docs c st0 stl,
    load_files svc (walked_files svc folder) ([], cache self) st0 = (Ok (docs, c), stl)
    /\ disk st0 = disk st
    /\ self1 = set_cache self c
    /\ (disk st1 = disk st
        \/ exists rows,
             disk st1 = <[cache_file self := JsonFile c]>
                          (<[out := ParquetFile rows]> (disk st))).
Proof.
  intros H.
  destruct (run_load_run svc self folder st) as (docs & c & st0 & stl & El & Er & D0 & Dl & _).
  exists docs, c, st0, stl. split; [exact El|]. split; [exact D0|].
  unfold run in H. rewrite (bind_ok _ _ _ _ _ Er) in H.
  destruct docs as [|d docs].
  - destruct (print_run ([10060%N] ++ codes " No documents to process.") stl)
      as (s2 & E2 & D2 & _).
    rewrite (bind_ok _ _ _ _ _ E2) in H. injection H as <- <-.
    split; [reflexivity|]. left. congruence.
  - pose proof (same_disk_run_embed svc (set_cache self c) (d :: docs) stl) as D2.
    unfold same_disk in D2.
    destruct (run_embed svc (set_cache self c) (d :: docs) stl) as [[[|r rows]|e] s2] eqn:Ee;
      cbn [snd] in D2.
    + rewrite (bind_ok _ _ _ _ _ Ee) in H.
      destruct (print_run ([10060%N] ++ codes " No embeddings generated.") s2)
        as (s3 & E3 & D3 & _).
      rewrite (bind_ok _ _ _ _ _ E3) in H. injection H as <- <-.
      split; [reflexivity|]. left. congruence.
    + rewrite (bind_ok _ _ _ _ _ Ee) in H.
      destruct (print_run ([128190%N] ++ codes " Saving embeddings...") s2)
        as (s3 & E3 & D3 & _).
      rewrite (bind_ok _ _ _ _ _ E3) in H.
      destruct (dirname out) as [|x dir] eqn:Edir.
      * unfold save_to_parquet, makedirs in H. rewrite Edir in H.
        unfold bind, raise in H. discriminate.
      * destruct (save_to_parquet_run (r :: rows) out s3) as (s4 & E4 & D4 & _);
          [now rewrite Edir|].
        rewrite (bind_ok _ _ _ _ _ E4) in H.
        destruct (save_cache_run (set_cache self c) s4) as (s5 & E5 & D5 & _).
        rewrite (bind_ok _ _ _ _ _ E5) in H.
        destruct (print_run ([127881%N] ++ codes " Vectorization complete!") s5)
          as (s6 & E6 & D6 & _).
        rewrite (bind_ok _ _ _ _ _ E6) in H. injection H as <- <-.
        split; [reflexivity|]. right. exists (r :: rows).
        rewrite D6, D5, D4, D3, D2, Dl. reflexivity.
    + rewrite (bind_raise _ _ _ _ _ Ee) in H. discriminate.
Qed.

(** X14: after a run whose cache is on the disk, a new vectorizer run on
    the folder is idle, provided the files of the folder are apart from
    the output path and the cache file: it starts with the cache saved,
    finds no document to process, calls the embedding model not once and
    leaves the disk as it is, whatever the loaders and the embedding model
    do this time. *)
Theorem second_run_is_idle svc self folder out st self1 st1 cs co bs :
  run svc self folder out st = (Ok self1, st1) ->
  disk st1 !! cache_file self = Some (JsonFile (cache self1)) ->
  (forall root name,
      In (root, name) (walked_files svc folder) ->
      path_join root name <> out /\ path_join root name <> cache_file self) ->
  exists vectorizer st2,
    (let* vectorizer := init cs co bs (cache_file self) in
     run svc vectorizer folder out) st1 = (Ok vectorizer, st2)
    /\ cache vectorizer = cache self1
    /\ disk st2 = disk st1
    /\ no_embed st1 st2
    /\ fst (load_local_documents svc vectorizer folder st1) = Ok ([], vectorizer).
Proof.
  intros Hrun Hcache Hapart.
  destruct (run_inv svc self folder out st self1 st1 Hrun)
    as (docs & c & st0 & stl & El & D0 & -> & Hdisk).
  cbn [cache set_cache] in *.
  assert (Hsame : forall root name, In (root, name) (walked_files svc folder) ->
            forall s, disk s = disk st1 ->
            disk s !! path_join root name = disk st0 !! path_join root name).
  { intros root name Hin s Hs. destruct (Hapart root name Hin) as [Ho Hc].
    rewrite Hs, D0. destruct Hdisk as [-> | [rows ->]]; [reflexivity|].
    now rewrite !lookup_insert_ne by congruence. }
  destruct (init_run cs co bs (cache_file self) st1 c Hcache) as (si & Ei & Di & Li).
  set (v := {| chunk_size := cs; chunk_overlap := co; batch_size := bs;
               cache_file := cache_file self; cache := c |}) in *.
  assert (Hload : forall s, disk s = disk st1 ->
            exists s', load_files svc (walked_files svc folder) ([], cache v) s
                       = (Ok ([], cache v), s')).
  { intros s Hs.
    eapply (load_files_again svc _ [] (cache self) st0 docs c stl [] c s El); [auto|].
    intros root name Hin. now apply Hsame. }
  exists v. rewrite (bind_ok _ _ _ _ _ Ei).
  destruct (print_run ([128194%N] ++ codes " Loading from: " ++ folder) si)
    as (sp & Ep & Dp & Lp).
  destruct (Hload sp) as [sl El2]; [congruence|].
  pose proof (same_disk_load_files svc (walked_files svc folder) ([], cache v) sp) as Dl.
  pose proof (no_embed_load_files svc (walked_files svc folder) ([], cache v) sp) as Ll.
  rewrite El2 in Dl, Ll. unfold same_disk in Dl. cbn [snd] in Dl, Ll.
  destruct (print_run ([10060%N] ++ codes " No documents to process.") sl)
    as (sn & En & Dn & Ln).
  exists sn. split.
  - assert (Hrl : run_load svc v folder si = (Ok ([], set_cache v (cache v)), sl)).
    { unfold run_load. rewrite (bind_ok _ _ _ _ _ Ep).
      unfold load_local_documents. now rewrite (bind_ok _ _ _ _ _ El2). }
    unfold run. rewrite (bind_ok _ _ _ _ _ Hrl).
    rewrite (bind_ok _ _ _ _ _ En). reflexivity.
  - split; [reflexivity|]. split; [congruence|]. split.
    + destruct Ll as (evs & Hl & Hevs).
      exists ([PathExists (cache_file self); ReadJson (cache_file self)] ++ evs).
      split.
      * rewrite Ln, Hl, Lp, Li. now rewrite <- app_assoc.
      * cbn. exact Hevs.
    + destruct (Hload st1 eq_refl) as [s' E']. unfold load_local_documents.
      now rewrite (bind_ok _ _ _ _ _ E').
Qed.

Lemma load_files_credit svc files : forall docs c st docs1 c1 st1 root name a file_docs,
  load_files svc files (docs, c) st = (Ok (docs1, c1), st1) ->
  In (root, name) files ->
  disk st !! path_join root name = Some a ->
  loads svc (path_join root name) name (disk st) = Ok (Some file_docs) ->
  is_Some (c1 !! cache_key (path_join root name)
                   (sha256_hexdigest svc (file_bytes svc a))).
Proof.
  induction files as [|[r n] files IH];
    intros docs c st docs1 c1 st1 root name a fd H Hin Ha Hl; [destruct Hin|].
  cbn [load_files] in H. unfold bind in H.
  destruct (load_file svc r n (docs, c) st) as [[[docsa ca]|e] sta] eqn:Ea; [|discriminate].
  destruct Hin as [[= -> ->] | Hin].
  - eapply load_files_grows; [exact H|].
    eapply load_file_credits; eauto.
  - pose proof (same_disk_load_file svc r n (docs, c) st) as D.
    rewrite Ea in D. unfold same_disk in D. cbn [snd] in D.
    eapply (IH docsa ca sta docs1 c1 st1 root name a fd H Hin); now rewrite D.
Qed.

(** X15: a file of the folder that its loader reads is credited to the
    cache during the load, before any embedding call: the object holds its
    key (path and digest) when [load_local_documents] returns, and so does
    the object any run returns, whether or not a chunk of the file is
    embedded afterwards. *)
Theorem cache_credit_precedes_embedding svc self folder st root name a file_docs :
  In (root, name) (walked_files svc folder) ->
  disk st !! path_join root name = Some a ->
  loads svc (path_join root name) name (disk st) = Ok (Some file_docs) ->
  let key := cache_key (path_join root name) (sha256_hexdigest svc (file_bytes svc a)) in
  (exists docs self1 st1,
      load_local_documents svc self folder st = (Ok (docs, self1), st1)
      /\ is_Some (cache self1 !! key)
      /\ no_embed st st1)
  /\ (forall out self' st',
        run svc self folder out st = (Ok self', st') -> is_Some (cache self' !! key)).
Proof.
  intros Hin Ha Hl key. split.
  - destruct (load_local_documents_run svc self folder st) as (docs & c & st1 & E & E1).
    exists docs, (set_cache self c), st1. split; [exact E1|]. split.
    + cbn [cache set_cache]. eapply load_files_credit; eauto.
    + pose proof (no_embed_load_files svc (walked_files svc folder) ([], cache self) st) as L.
      now rewrite E in L.
  - intros out self' st' Hrun.
    destruct (run_inv svc self folder out st self' st' Hrun)
      as (docs & c & st0 & stl & El & D0 & -> & _).
    cbn [cache set_cache].
    eapply (load_files_credit svc _ _ _ st0 _ _ _ root name a file_docs El Hin);
      rewrite D0; assumption.
Qed.

(** *** The theorems on the folder of two documents *)

Import Scenario PipelineExamples.

Lemma failed_batches_are_skipped_witness :
  exists rows st',
    generate_embeddings_batch (pipeline two_files embed_without_handbook)
      vectorizer0 DOCS st_documents = (Ok rows, st')
    /\ rows = flat_map (batch_rows (pipeline two_files embed_without_handbook))
                (batches 1 DOCS)
    /\ (List.length rows <= List.length DOCS)%nat
    /\ disk st' = disk st_documents.
Proof.
  apply (failed_batches_are_skipped (pipeline two_files embed_without_handbook)
           vectorizer0 DOCS DOCS 0 st_documents); reflexivity.
Defined.

Lemma embedding_calls_cover_the_chunks_witness :
  exists calls,
    log (snd (generate_embeddings_batch (pipeline two_files embed_up)
                vectorizer0 DOCS st_documents))
    = log st_documents ++ map Embed calls
    /\ concat calls = map (fun doc => clean_text (page_content doc)) DOCS
    /\ Forall (fun texts => (1 <= List.length texts <= 1)%nat) calls.
Proof.
  apply (embedding_calls_cover_the_chunks (pipeline two_files embed_up)
           vectorizer0 DOCS DOCS 0 st_documents); reflexivity.
Defined.

Lemma all_chunks_embedded_witness :
  exists rows st',
    generate_embeddings_batch (pipeline two_files embed_up) vectorizer0 DOCS st_documents
    = (Ok rows, st')
    /\ Forall2 (fun doc r => exists e, r = row_of doc e) DOCS rows.
Proof.
  apply (all_chunks_embedded (pipeline two_files embed_up)
           vectorizer0 DOCS DOCS 0 st_documents); [reflexivity | reflexivity |].
  intros texts. exists (map (fun t => [inject_Z (Z.of_nat (List.length t))]) texts).
  split; [reflexivity | apply length_map].
Defined.

Lemma run_replaces_store_witness :
  exists st',
    run (pipeline two_files embed_up) vectorizer0 FOLDER STORE st_documents
    = (Ok (after_load (pipeline two_files embed_up) st_documents), st')
    /\ disk st'
       = <[CACHE_FILE := JsonFile (cache (after_load (pipeline two_files embed_up)
                                             st_documents))]>
           (<[STORE := ParquetFile (embedded (pipeline two_files embed_up) st_documents)]>
              (disk st_documents)).
Proof.
  destruct (run_replaces_store (pipeline two_files embed_up) vectorizer0 FOLDER STORE
              st_documents
              (loaded (pipeline two_files embed_up) st_documents)
              (after_load (pipeline two_files embed_up) st_documents)
              (snd (run_load (pipeline two_files embed_up) vectorizer0 FOLDER st_documents))
              (hd ROW1 (embedded (pipeline two_files embed_up) st_documents))
              (tl (embedded (pipeline two_files embed_up) st_documents))
              (snd (run_embed (pipeline two_files embed_up)
                      (after_load (pipeline two_files embed_up) st_documents)
                      (loaded (pipeline two_files embed_up) st_documents)
                      (snd (run_load (pipeline two_files embed_up) vectorizer0 FOLDER
                              st_documents)))))
    as (st' & Hrun & Hdisk).
  - vm_compute. reflexivity.
  - vm_compute. discriminate.
  - vm_compute. reflexivity.
  - vm_compute. discriminate.
  - exists st'. split; [exact Hrun|]. rewrite Hdisk. vm_compute. reflexivity.
Defined.

Lemma run_without_rows_writes_nothing_witness :
  exists st',
    run (pipeline two_files embed_down) vectorizer0 FOLDER STORE st_documents
    = (Ok (after_load (pipeline two_files embed_down) st_documents), st')
    /\ disk st' = disk st_documents.
Proof.
  apply (run_without_rows_writes_nothing (pipeline two_files embed_down) vectorizer0
           FOLDER STORE st_documents
           (loaded (pipeline two_files embed_down) st_documents)
           (after_load (pipeline two_files embed_down) st_documents)
           (snd (run_load (pipeline two_files embed_down) vectorizer0 FOLDER st_documents))).
  - vm_compute. reflexivity.
  - right.
    exists (snd (run_embed (pipeline two_files embed_down)
                   (after_load (pipeline two_files embed_down) st_documents)
                   (loaded (pipeline two_files embed_down) st_documents)
                   (snd (run_load (pipeline two_files embed_down) vectorizer0 FOLDER
                           st_documents)))).
    vm_compute. reflexivity.
Defined.

Lemma saved_store_reads_back_witness :
  exists st1 st2,
    save_to_parquet [ROW1; ROW2] STORE st_documents = (Ok tt, st1)
    /\ Response.read_parquet STORE st1 = (Ok [ROW1; ROW2], st2)
    /\ (forall p, p <> STORE -> disk st1 !! p = disk st_documents !! p).
Proof.
  apply (saved_store_reads_back [ROW1; ROW2] STORE st_documents).
  vm_compute. discriminate.
Defined.

Lemma bare_output_name_raises_witness :
  exists e st',
    run (pipeline two_files embed_up) vectorizer0 FOLDER (codes "embeddings.parquet")
      st_documents = (Raise e, st')
    /\ disk st' = disk st_documents.
Proof.
  apply (bare_output_name_raises (pipeline two_files embed_up) vectorizer0 FOLDER
           (codes "embeddings.parquet") st_documents
           (loaded (pipeline two_files embed_up) st_documents)
           (after_load (pipeline two_files embed_up) st_documents)
           (snd (run_load (pipeline two_files embed_up) vectorizer0 FOLDER st_documents))
           (hd ROW1 (embedded (pipeline two_files embed_up) st_documents))
           (tl (embedded (pipeline two_files embed_up) st_documents))
           (snd (run_embed (pipeline two_files embed_up)
                   (after_load (pipeline two_files embed_up) st_documents)
                   (loaded (pipeline two_files embed_up) st_documents)
                   (snd (run_load (pipeline two_files embed_up) vectorizer0 FOLDER
                           st_documents))))).
  - vm_compute. intuition discriminate.
  - vm_compute. reflexivity.
  - vm_compute. discriminate.
  - vm_compute. reflexivity.
Defined.

Lemma second_run_is_idle_witness :
  exists vectorizer st2,
    (let* vectorizer := init 300 50 30 CACHE_FILE in
     run (pipeline two_files embed_up) vectorizer FOLDER STORE)
      (snd (run (pipeline two_files embed_up) vectorizer0 FOLDER STORE st_documents))
    = (Ok vectorizer, st2)
    /\ cache vectorizer = cache (after_load (pipeline two_files embed_up) st_documents)
    /\ disk st2
       = disk (snd (run (pipeline two_files embed_up) vectorizer0 FOLDER STORE
                      st_documents))
    /\ no_embed
         (snd (run (pipeline two_files embed_up) vectorizer0 FOLDER STORE st_documents))
         st2
    /\ fst (load_local_documents (pipeline two_files embed_up) vectorizer FOLDER
              (snd (run (pipeline two_files embed_up) vectorizer0 FOLDER STORE
                      st_documents)))
       = Ok ([], vectorizer).
Proof.
  apply (second_run_is_idle (pipeline two_files embed_up) vectorizer0 FOLDER STORE
           st_documents (after_load (pipeline two_files embed_up) st_documents)).
  - vm_compute. reflexivity.
  - vm_compute. reflexivity.
  - intros root name Hin. vm_compute in Hin.
    destruct Hin as [[= <- <-] | [[= <- <-] | []]]; split; vm_compute; discriminate.
Defined.

Lemma cache_credit_precedes_embedding_witness :
  exists docs self1 st1,
    load_local_documents (pipeline two_files embed_without_handbook) vectorizer0 FOLDER
      st_documents = (Ok (docs, self1), st1)
    /\ is_Some (cache self1
                !! cache_key HANDBOOK
                     (toy_digest (codes "Expense reports are due monthly.")))
    /\ no_embed st_documents st1.
Proof.
  refine (proj1 (cache_credit_precedes_embedding
                   (pipeline two_files embed_without_handbook)
                   vectorizer0 FOLDER st_documents (codes "docs") (codes "handbook.pdf")
                   (Blob (codes "Expense reports are due monthly."))
                   [local_document HANDBOOK (codes "handbook.pdf")
                      (codes "Expense reports are due monthly.")] _ _ _)).
  - vm_compute. auto.
  - vm_compute. reflexivity.
  - vm_compute. reflexivity.
Defined.

End Pipeline.

(** ** [is_infoblox_query] *)
Module Keywords.
Import Response PyFacts.

Lemma lower_app a b : lower (a ++ b) = lower a ++ lower b.
Proof. apply flat_map_app. Qed.

Lemma lower_char_fixed c : lower (lower_char c) = lower_char c.
Proof.
  unfold lower_char.
  destruct (N.leb_spec 65 c), (N.leb_spec c 90); cbn [andb];
    [| destruct (N.eqb_spec c 8490); [| destruct (N.eqb_spec c 304)] ..];
    cbn [lower flat_map app]; unfold lower_char;
    repeat match goal with
           | |- context [(?a <=? ?b)%N] => destruct (N.leb_spec a b); cbn [andb]
           | |- context [(?a =? ?b)%N] => destruct (N.eqb_spec a b)
           end; try lia; reflexivity.
Qed.

Lemma lower_idempotent s : lower (lower s) = lower s.
Proof.
  induction s as [|c s IH]; [reflexivity|].
  change (lower (c :: s)) with (lower_char c ++ lower s).
  now rewrite lower_app, lower_char_fixed, IH.
Qed.

(** X16: the detection of an Infoblox query does not depend on the case
    of the query, and a keyword of the list is found wherever it stands in
    the query and in whatever case it is written. *)
Theorem infoblox_keyword_in_any_case :
  (forall query, is_infoblox_query (lower query) = is_infoblox_query query)
  /\ (forall keyword written before after,
        In keyword infoblox_keywords ->
        lower written = keyword ->
        is_infoblox_query (before ++ written ++ after) = true).
Proof.
  split.
  - intros query. unfold is_infoblox_query. now rewrite lower_idempotent.
  - intros keyword written before after Hin Hlow. unfold is_infoblox_query.
    apply existsb_exists. exists keyword. split; [exact Hin|].
    rewrite !lower_app, Hlow. apply contains_infix. eauto.
Qed.

End Keywords.

(** ** The redirection of [sys.stdout] is undone *)
Module Restoring.
Import Supervisor Frame Run.

(** [m] ends with [sys.stdout] restored when it starts so; [m] ends with
    it restored in every case; [m] ends with it restored when it returns. *)
Definition keeps {A} (m : M A) : Prop :=
  forall st, captured st = None -> captured (snd (m st)) = None.

Definition restores {A} (m : M A) : Prop :=
  forall st, captured (snd (m st)) = None.

Definition restores_ok {A} (m : M A) : Prop :=
  forall st a st', m st = (Ok a, st') -> captured st' = None.

Lemma restores_keeps {A} (m : M A) : restores m -> keeps m.
Proof. intros H st _. apply H. Qed.

Lemma restores_restores_ok {A} (m : M A) : restores m -> restores_ok m.
Proof. intros H st a st' E. specialize (H st). now rewrite E in H. Qed.

Lemma keeps_ret {A} (a : A) : keeps (ret a).
Proof. intros st H. exact H. Qed.

Lemma keeps_call {A} (r : result A) : keeps (call r).
Proof. intros st H. exact H. Qed.

Lemma keeps_print s : keeps (print s).
Proof. intros st H. unfold print. now rewrite H. Qed.

Lemma keeps_bind {A B} (m : M A) (k : A -> M B) :
  keeps m -> (forall a, keeps (k a)) -> keeps (bind m k).
Proof.
  intros Hm Hk st H. unfold bind. specialize (Hm st H).
  destruct (m st) as [[a | e] st1]; [apply Hk, Hm | exact Hm].
Qed.

Lemma keeps_try {A} (m : M A) (h : text -> M A) :
  keeps m -> (forall e, keeps (h e)) -> keeps (try_except m h).
Proof.
  intros Hm Hh st H. unfold try_except. specialize (Hm st H).
  destruct (m st) as [[a | e] st1]; [exact Hm | apply Hh, Hm].
Qed.

Lemma keeps_for_each {A} (l : list A) (body : A -> M unit) :
  (forall x, keeps (body x)) -> keeps (for_each l body).
Proof.
  intros Hb. induction l as [|x l IH]; cbn [for_each].
  - apply keeps_ret.
  - apply keeps_bind; auto.
Qed.

Lemma restores_bind {A B} (m : M A) (k : A -> M B) :
  returns m -> (forall a, restores (k a)) -> restores (bind m k).
Proof.
  intros Hm Hk st. unfold bind. destruct (Hm st) as [a Ha].
  destruct (m st) as [[a' | e] st1]; [apply Hk | discriminate].
Qed.

Lemma restores_after_restore {B} (k : text -> M B) :
  (forall output, keeps (k output)) -> restores (bind restore_stdout k).
Proof. intros Hk st. unfold bind, restore_stdout. now apply Hk. Qed.

Lemma restores_ok_bind {A B} (m : M A) (k : A -> M B) :
  (forall a, restores_ok (k a)) -> restores_ok (bind m k).
Proof.
  intros Hk st b st' E. unfold bind in E.
  destruct (m st) as [[a | e] st1]; [eapply Hk, E | discriminate].
Qed.

Lemma restores_try {A} (m : M A) (h : text -> M A) :
  restores_ok m -> (forall e, restores (h e)) -> restores (try_except m h).
Proof.
  intros Hm Hh st. unfold try_except.
  destruct (m st) as [[a | e] st1] eqn:E; [eapply Hm, E | apply Hh].
Qed.

(** A responder that redirects: banner, redirection, guarded body. *)
Lemma restores_responder {A} banner (body : M A) (handler : text -> M A) :
  restores_ok body -> (forall e, restores (handler e)) ->
  restores (let* _ := print banner in
            let* _ := redirect_stdout in
            try_except body handler).
Proof.
  intros Hb Hh. apply restores_bind; [apply returns_print | intros _].
  apply restores_bind; [apply returns_redirect | intros _].
  now apply restores_try.
Qed.

Lemma restores_then_print s : restores (let* _ := restore_stdout in print s).
Proof. apply restores_after_restore. intros _. apply keeps_print. Qed.

Lemma restores_product svc query : restores (respond_product svc query).
Proof.
  unfold respond_product. apply restores_responder.
  - apply restores_ok_bind. intros _. apply restores_restores_ok.
    apply restores_after_restore. intros output. cbv zeta.
    apply keeps_bind.
    + destruct (nonempty _); apply keeps_print.
    + intros _. destruct (_ && _); [|apply keeps_ret].
      apply restores_keeps.
      apply restores_bind; [apply returns_redirect | intros _].
      apply restores_bind; [apply Escalation.returns_search_online | intros online_answer].
      apply restores_then_print.
  - intros e. apply restores_then_print.
Qed.

Lemma keeps_learning svc query : keeps (respond_learning svc query).
Proof.
  unfold respond_learning. apply keeps_bind; [apply keeps_print | intros _].
  apply keeps_try; [|intros e; apply keeps_print].
  apply keeps_bind; [apply keeps_call | intros courses].
  destruct (existsb _ _); [apply keeps_print|].
  apply keeps_bind; [apply keeps_call | intros enhanced].
  apply keeps_for_each. intros course.
  apply keeps_bind; [apply keeps_print | intros _; apply keeps_print].
Qed.

Lemma restores_called {A} (r : result A) (shown : A -> text) s banner :
  restores (let* _ := print banner in
            let* _ := redirect_stdout in
            try_except
              (let* output := call r in
               let* _ := restore_stdout in
               print (shown output))
              (fun _ => let* _ := restore_stdout in print s)).
Proof.
  apply restores_responder.
  - apply restores_ok_bind. intros output. apply restores_restores_ok.
    apply restores_then_print.
  - intros e. apply restores_then_print.
Qed.

Lemma restores_org_chart svc query : restores (respond_org_chart svc query).
Proof. apply (restores_called _ (fun x => x)). Qed.

Lemma restores_workplace_comms svc query : restores (respond_workplace_comms svc query).
Proof. apply (restores_called _ (fun x => x)). Qed.

Lemma restores_onboarding svc query : restores (respond_onboarding svc query).
Proof.
  unfold respond_onboarding. apply restores_responder.
  - apply restores_ok_bind. intros output. apply restores_restores_ok.
    apply restores_then_print.
  - intros e. apply restores_after_restore. intros _.
    apply keeps_bind; [apply keeps_print | intros _].
    apply keeps_try; [|intros _; apply keeps_ret].
    apply keeps_bind; [apply keeps_call | intros results].
    destruct results as [|r results]; [apply keeps_print|].
    apply keeps_bind; [apply keeps_print | intros _].
    apply keeps_for_each. intros [source content].
    apply keeps_bind; [apply keeps_print | intros _; apply keeps_print].
Qed.

Lemma keeps_route_query svc query : keeps (route_query svc query).
Proof.
  unfold route_query. apply keeps_bind.
  - unfold classify_query. apply keeps_bind; [apply keeps_call | intros c; apply keeps_call].
  - intros [agent_type confidence].
    repeat match goal with |- keeps (if ?b then _ else _) => destruct b end.
    + apply restores_keeps, restores_product.
    + apply keeps_learning.
    + apply restores_keeps, restores_org_chart.
    + apply restores_keeps, restores_workplace_comms.
    + apply restores_keeps, restores_onboarding.
    + unfold respond_default. apply keeps_for_each. intros line. apply keeps_print.
Qed.



End Restoring.

(** ** The answer [route_query] extracts from the captured output *)
Module Extraction.
Import Re ReFacts Supervisor Response Marker Frame Run PyFacts.

Lemma contains_sub needle pre s post :
  contains needle (pre ++ s ++ post) = false -> contains needle s = false.
Proof.
  intros H. destruct (contains needle s) eqn:E; [|reflexivity].
  now rewrite (contains_app needle pre s post E) in H.
Qed.

Lemma marked_sub pre s post : marked (pre ++ s ++ post) = false -> marked s = false.
Proof.
  unfold marked. rewrite !orb_false_iff. intros [H1 H2].
  split; eapply contains_sub; eauto.
Qed.

(** No line of a text without a marker holds a marker. *)
Lemma lines_unmarked s line : marked s = false -> In line (split [NL] s) -> marked line = false.
Proof.
  intros H Hin. apply split_go_single_piece in Hin as (pre & post & E).
  cbn in E. subst s. eapply marked_sub, H.
Qed.

Lemma extract_skip lines rest acc :
  (forall line, In line lines -> marked line = false) ->
  extract_answer (lines ++ rest) false acc = extract_answer rest false acc.
Proof.
  induction lines as [|l lines IH]; intros H; [reflexivity|].
  cbn [app extract_answer]. fold (marked l). rewrite (H l) by now left.
  apply IH. intros line Hin. apply H. now right.
Qed.

Lemma extract_collect lines : forall rest acc,
  (forall line, In line lines -> marked line = false) ->
  extract_answer (lines ++ rest) true acc
  = extract_answer rest true (acc ++ concat (map (fun l => l ++ [NL]) lines)).
Proof.
  induction lines as [|l lines IH]; intros rest acc H.
  - cbn. now rewrite app_nil_r.
  - cbn [app extract_answer map concat]. fold (marked l). rewrite (H l) by now left.
    rewrite IH by (intros line Hin; apply H; now right).
    now rewrite <- !app_assoc.
Qed.

Lemma concat_lines (L : list text) :
  L <> [] -> concat (map (fun l => l ++ [NL]) L) = join [NL] L ++ [NL].
Proof.
  induction L as [|l L IH]; [congruence|]. intros _. destruct L as [|l2 L].
  - cbn. now rewrite app_nil_r.
  - rewrite map_cons, concat_cons, IH by discriminate.
    rewrite (join_cons [NL] l (l2 :: L)) by discriminate. now rewrite <- !app_assoc.
Qed.

Lemma lines_round_trip s : concat (map (fun l => l ++ [NL]) (split [NL] s)) = s ++ [NL].
Proof.
  rewrite concat_lines by apply split_go_nonempty. now rewrite join_split_single.
Qed.

Lemma split_lines_app a b : split [NL] (a ++ NL :: b) = split [NL] a ++ split [NL] b.
Proof. apply split_go_single_app. Qed.

Lemma extract_unmarked line rest flag acc :
  marked line = false ->
  extract_answer (line :: rest) flag acc
  = extract_answer rest flag (if flag then acc ++ line ++ [NL] else acc).
Proof.
  intros H. cbn [extract_answer]. fold (marked line). rewrite H. now destruct flag.
Qed.

Lemma extract_marked line rest flag acc :
  marked line = true ->
  extract_answer (line :: rest) flag acc = extract_answer rest true acc.
Proof. intros H. cbn [extract_answer]. fold (marked line). now rewrite H. Qed.

Lemma marked_nil : marked [] = false.
Proof. reflexivity. Qed.

(** The lines of the output of the knowledge-base responder. *)
Lemma output_lines head marker answer :
  ~ In NL marker ->
  split [NL] (head ++ NL :: NL :: marker ++ NL :: NL :: answer ++ [NL])
  = split [NL] head ++ [] :: marker :: [] :: split [NL] answer ++ [[]].
Proof.
  intros Hnl. rewrite split_lines_app. f_equal.
  change (NL :: marker ++ NL :: NL :: answer ++ [NL])
    with ([] ++ NL :: (marker ++ NL :: ([] ++ NL :: (answer ++ NL :: [])))).
  rewrite !split_lines_app.
  replace (split [NL] marker) with [marker]
    by (unfold split; now rewrite split_go_single_absent).
  reflexivity.
Qed.

(** The output of the knowledge-base responder, cut at the marker line. *)
Lemma extract_after_marker head marker answer :
  marked head = false -> marked marker = true -> ~ In NL marker ->
  marked answer = false ->
  extract_answer
    (split [NL] (head ++ NL :: NL :: marker ++ NL :: NL :: answer ++ [NL])) false []
  = NL :: answer ++ [NL; NL].
Proof.
  intros Hhead Hmarker Hnl Hanswer. rewrite output_lines by exact Hnl.
  rewrite extract_skip by (intros line; apply lines_unmarked, Hhead).
  rewrite (extract_unmarked [] _ false) by apply marked_nil.
  rewrite (extract_marked marker) by exact Hmarker.
  rewrite (extract_unmarked [] _ true) by apply marked_nil.
  rewrite extract_collect by (intros line; apply lines_unmarked, Hanswer).
  rewrite (extract_unmarked [] [] true) by apply marked_nil.
  cbn [extract_answer]. rewrite lines_round_trip. cbn [app].
  now rewrite <- !app_assoc.
Qed.

(** White space around a text does not change what [strip] returns. *)
Lemma lstrip_space_app w s : forallb isspace w = true -> lstrip (w ++ s) = lstrip s.
Proof.
  induction w as [|c w IH]; [reflexivity|]. cbn [forallb app lstrip].
  intros H. apply andb_true_iff in H as [-> H]. auto.
Qed.

Lemma lstrip_app_space s w :
  forallb isspace w = true ->
  lstrip (s ++ w) = match lstrip s with [] => [] | _ => lstrip s ++ w end.
Proof.
  intros H. induction s as [|c s IH].
  - cbn [app lstrip]. rewrite <- (app_nil_r w). now rewrite lstrip_space_app.
  - cbn [app lstrip]. destruct (isspace c); [exact IH | reflexivity].
Qed.

Lemma forallb_reverse (f : N -> bool) w : forallb f (reverse w) = forallb f w.
Proof.
  induction w as [|c w IH]; [reflexivity|].
  rewrite reverse_cons, forallb_app, IH. cbn. now rewrite andb_true_r, andb_comm.
Qed.

Lemma rstrip_app_space s w : forallb isspace w = true -> rstrip (s ++ w) = rstrip s.
Proof.
  intros H. unfold rstrip. rewrite reverse_app.
  now rewrite lstrip_space_app by now rewrite forallb_reverse.
Qed.

Lemma strip_padded w1 s w2 :
  forallb isspace w1 = true -> forallb isspace w2 = true ->
  strip (w1 ++ s ++ w2) = strip s.
Proof.
  intros H1 H2. unfold strip. rewrite lstrip_space_app by exact H1.
  rewrite lstrip_app_space by exact H2.
  destruct (lstrip s); [reflexivity | now apply rstrip_app_space].
Qed.

(** Line feeds around an answer do not make it insufficient. *)
Lemma patterns_need_text :
  forallb (fun p => negb (search true p [])) INSUFFICIENT_ANSWER_PATTERNS = true.
Proof. vm_compute. reflexivity. Qed.

Lemma patterns_without_nl : forallb nl_free INSUFFICIENT_ANSWER_PATTERNS = true.
Proof. vm_compute. reflexivity. Qed.

Lemma sufficient_between_lines answer :
  is_insufficient_answer answer = false ->
  is_insufficient_answer (NL :: answer ++ [NL; NL]) = false.
Proof.
  intros H. destruct (is_insufficient_answer (NL :: answer ++ [NL; NL])) eqn:E;
    [|reflexivity].
  unfold is_insufficient_answer in E. apply existsb_exists in E as (p & Hin & Hs).
  pose proof patterns_without_nl as Hfree. rewrite forallb_forall in Hfree.
  pose proof patterns_need_text as Hne. rewrite forallb_forall in Hne.
  specialize (Hfree p Hin). specialize (Hne p Hin). apply negb_true_iff in Hne.
  change (NL :: answer ++ [NL; NL]) with ([] ++ NL :: (answer ++ NL :: ([] ++ NL :: [])))
    in Hs.
  apply search_across_newline in Hs as [Hs | Hs]; [congruence | | exact Hfree].
  apply search_across_newline in Hs as [Hs | Hs]; [ | | exact Hfree].
  - unfold is_insufficient_answer in H.
    assert (existsb (fun pattern => search true pattern answer)
              INSUFFICIENT_ANSWER_PATTERNS = true) by (apply existsb_exists; eauto).
    congruence.
  - apply search_across_newline in Hs as [Hs | Hs]; [congruence | congruence | exact Hfree].
Qed.

(** A marker starts with a character; a text that ends where the query
    ends and holds that character nowhere before holds a marker only if
    the query does. *)
Lemma contains_skip c m before s :
  forallb (fun x => negb (x =? c)%N) before = true ->
  contains (c :: m) (before ++ s) = contains (c :: m) s.
Proof.
  induction before as [|x before IH]; [reflexivity|]. cbn [forallb app].
  intros H. apply andb_true_iff in H as [Hx H]. apply negb_true_iff in Hx.
  cbn [contains startswith]. rewrite (N.eqb_sym c x), Hx. cbn [andb orb]. auto.
Qed.

Lemma marked_skip before s :
  forallb (fun x => negb (x =? 128172)%N) before = true ->
  marked (before ++ s) = marked s.
Proof.
  intros H. unfold marked, RAG_ANSWER_MARKER, GPT_ANSWER_MARKER.
  now rewrite !contains_skip.
Qed.

Lemma markers_are_lines :
  marked GPT_ANSWER_MARKER = true /\ ~ In NL GPT_ANSWER_MARKER
  /\ marked RAG_ANSWER_MARKER = true /\ ~ In NL RAG_ANSWER_MARKER.
Proof.
  repeat split; try (vm_compute; reflexivity);
    intros H; vm_compute in H; intuition discriminate.
Qed.

(** What [respond_product] shows, given the output the knowledge-base
    responder left in the buffer. *)
Lemma respond_product_shows svc query st st_kb head marker answer :
  captured st = None ->
  kb_answer svc query
    (set_captured (Some []) (set_stdout (stdout st ++ PRODUCT_BANNER ++ [NL]) st))
  = (Ok tt, st_kb) ->
  captured st_kb = Some (head ++ NL :: NL :: marker ++ NL :: NL :: answer ++ [NL]) ->
  stdout st_kb = stdout st ++ PRODUCT_BANNER ++ [NL] ->
  marked head = false -> marked marker = true -> ~ In NL marker ->
  marked answer = false ->
  is_insufficient_answer answer = false ->
  exists st',
    respond_product svc query st = (Ok tt, st')
    /\ stdout st'
       = stdout st ++ PRODUCT_BANNER ++ [NL]
         ++ (if nonempty (strip answer) then strip answer else NO_ANSWER) ++ [NL].
Proof.
  intros Hcap Hkb Hout Hstd Hhead Hmarker Hnl Hanswer Hsuff.
  unfold respond_product. unfold bind at 1. unfold print at 1. rewrite Hcap.
  unfold bind at 1. unfold redirect_stdout at 1.
  unfold try_except. unfold bind at 1. rewrite Hkb.
  unfold bind at 1. unfold restore_stdout at 1. rewrite Hout. cbn [default].
  unfold Datatypes.id.
  rewrite (extract_after_marker head marker answer Hhead Hmarker Hnl Hanswer).
  change (NL :: answer ++ [NL; NL]) with ([NL] ++ answer ++ [NL; NL]) at 1 2.
  rewrite (strip_padded [NL] answer [NL; NL]) by reflexivity.
  rewrite (sufficient_between_lines answer Hsuff), andb_false_r.
  unfold bind, ret.
  destruct (nonempty (strip answer)); unfold print; cbn [captured set_captured];
    eexists; (split; [reflexivity|]); cbn [stdout set_stdout set_captured];
    rewrite Hstd; now rewrite <- !app_assoc.
Qed.

(** The output of [answer_direct_gpt] in a fresh buffer. *)
Lemma answer_direct_gpt_run svc query answer st :
  captured st = Some [] ->
  chat_model_invoke svc EXPERT_MESSAGE query = Ok answer ->
  exists st',
    answer_direct_gpt svc query st = (Ok tt, st')
    /\ stdout st' = stdout st
    /\ captured st'
       = Some ((([NL; 129302%N] ++ codes " Using GPT-4o for Infoblox-related question:"
                 ++ [NL; 128269%N; 32%N]) ++ query)
               ++ NL :: NL :: GPT_ANSWER_MARKER ++ NL :: NL :: answer ++ [NL]).
Proof.
  intros Hcap Hchat. unfold answer_direct_gpt, bind, print, call.
  fold EXPERT_MESSAGE. rewrite Hchat, Hcap. cbn [captured set_captured].
  eexists. split; [reflexivity|]. cbn [stdout captured set_captured]. split; [reflexivity|].
  f_equal. cbn [app]. rewrite <- !app_assoc. cbn [app]. reflexivity.
Qed.

(** X18: the answer of the direct path reaches the user as the model
    gave it.  For an Infoblox query whose text and whose answer hold no
    answer marker, and an answer no pattern finds insufficient,
    [respond_product] returns having written, after its banner, the answer
    without the white space around it (or the sentence for an empty answer
    when nothing else is left), and nothing more. *)
Theorem direct_answer_is_shown svc query answer st :
  captured st = None ->
  is_infoblox_query query = true ->
  chat_model_invoke (kb svc) EXPERT_MESSAGE query = Ok answer ->
  marked query = false ->
  marked answer = false ->
  is_insufficient_answer answer = false ->
  exists st',
    respond_product svc query st = (Ok tt, st')
    /\ stdout st'
       = stdout st ++ PRODUCT_BANNER ++ [NL]
         ++ (if nonempty (strip answer) then strip answer else NO_ANSWER) ++ [NL].
Proof.
  intros Hcap Hinfo Hchat Hquery Hanswer Hsuff.
  destruct (answer_direct_gpt_run (kb svc) query answer
              (set_captured (Some [])
                 (set_stdout (stdout st ++ PRODUCT_BANNER ++ [NL]) st)))
    as (st_kb & Hkb & Hstd & Hout); [reflexivity | exact Hchat |].
  destruct markers_are_lines as (Hm & Hnl & _).
  eapply (respond_product_shows svc query st st_kb _ GPT_ANSWER_MARKER answer);
    [exact Hcap | | exact Hout | exact Hstd | | exact Hm | exact Hnl
    | exact Hanswer | exact Hsuff].
  - unfold kb_answer. now rewrite Hinfo.
  - rewrite marked_skip; [exact Hquery | vm_compute; reflexivity].
Qed.

Lemma direct_answer_is_shown_witness :
  exists st',
    respond_product DirectExamples.svc_direct (codes "What is NIOS?") Scenario.st0
    = (Ok tt, st')
    /\ stdout st'
       = PRODUCT_BANNER ++ [NL]
         ++ codes "NIOS is the Infoblox operating system." ++ [NL].
Proof.
  destruct (direct_answer_is_shown DirectExamples.svc_direct (codes "What is NIOS?")
              (codes " NIOS is the Infoblox operating system. ") Scenario.st0)
    as (st' & Hrun & Hout); try (vm_compute; reflexivity).
  exists st'. split; [exact Hrun|]. rewrite Hout. vm_compute. reflexivity.
Defined.

(** The output of the retrieval path in a fresh buffer, with the index on
    the disk. *)
Lemma rag_path_run svc query idx docs answer st :
  captured st = Some [] ->
  disk st !! INDEX_PATH = Some (FaissDir idx) ->
  get_relevant_documents svc idx query 8 = Ok docs ->
  chat_model_invoke svc RAG_MESSAGE (rag_prompt docs query) = Ok answer ->
  exists st',
    (let* vectorstore := load_cached_vectorstore svc STORE_PATH INDEX_PATH in
     run_rag_query svc query vectorstore 8) st = (Ok tt, st')
    /\ stdout st' = stdout st
    /\ captured st'
       = Some (((([128257%N] ++ codes " Using cached FAISS index from: " ++ INDEX_PATH)
                 ++ [NL] ++ [NL; 128269%N] ++ codes " Query: ") ++ query)
               ++ NL :: NL :: RAG_ANSWER_MARKER ++ NL :: NL :: answer ++ [NL]).
Proof.
  destruct st as [out cap dk lg]. cbn [captured disk stdout].
  intros -> Hidx Hdocs Hchat.
  unfold load_cached_vectorstore, bind at 1, bind at 1, path_exists. cbn [disk].
  rewrite bool_decide_eq_true_2 by (rewrite Hidx; eauto).
  unfold load_local, run_rag_query, bind, print, emit, read_artifact, ret, call.
  cbn [captured set_captured add_log disk]. rewrite Hidx. cbv zeta.
  rewrite Hdocs. fold RAG_MESSAGE. fold (rag_prompt docs query). rewrite Hchat.
  cbn [captured set_captured add_log disk].
  eexists. split; [reflexivity|]. split; [reflexivity|].
  cbn [captured set_captured add_log]. f_equal.
  repeat first [rewrite <- app_assoc | progress cbn [app]]. reflexivity.
Qed.

(** X19: the answer of the retrieval path reaches the user as the model
    gave it.  For a query that is not an Infoblox query, with the index on
    the disk, a retrieval and a completion that return, no answer marker
    in the query or in the answer, and an answer no pattern finds
    insufficient, [respond_product] returns having written, after its
    banner, the answer without the white space around it (or the sentence
    for an empty answer), and nothing more: neither the notice of the index
    nor the echo of the query is shown. *)
Theorem rag_answer_is_shown svc query idx docs answer st :
  captured st = None ->
  is_infoblox_query query = false ->
  disk st !! INDEX_PATH = Some (FaissDir idx) ->
  get_relevant_documents (kb svc) idx query 8 = Ok docs ->
  chat_model_invoke (kb svc) RAG_MESSAGE (rag_prompt docs query) = Ok answer ->
  marked query = false ->
  marked answer = false ->
  is_insufficient_answer answer = false ->
  exists st',
    respond_product svc query st = (Ok tt, st')
    /\ stdout st'
       = stdout st ++ PRODUCT_BANNER ++ [NL]
         ++ (if nonempty (strip answer) then strip answer else NO_ANSWER) ++ [NL].
Proof.
  intros Hcap Hinfo Hidx Hdocs Hchat Hquery Hanswer Hsuff.
  destruct (rag_path_run (kb svc) query idx docs answer
              (set_captured (Some [])
                 (set_stdout (stdout st ++ PRODUCT_BANNER ++ [NL]) st)))
    as (st_kb & Hkb & Hstd & Hout); [reflexivity | exact Hidx | exact Hdocs | exact Hchat |].
  destruct markers_are_lines as (_ & _ & Hm & Hnl).
  eapply (respond_product_shows svc query st st_kb _ RAG_ANSWER_MARKER answer);
    [exact Hcap | | exact Hout | exact Hstd | | exact Hm | exact Hnl
    | exact Hanswer | exact Hsuff].
  - unfold kb_answer. rewrite Hinfo. exact Hkb.
  - rewrite marked_skip; [exact Hquery | vm_compute; reflexivity].
Qed.

Lemma rag_answer_is_shown_witness :
  exists st',
    respond_product DirectExamples.svc_rag (codes "When are expense reports due?")
      Scenario.st_indexed = (Ok tt, st')
    /\ stdout st'
       = PRODUCT_BANNER ++ [NL] ++ codes "Expense reports are due monthly." ++ [NL].
Proof.
  destruct (rag_answer_is_shown DirectExamples.svc_rag
              (codes "When are expense reports due?") {| docstore := [] |}
              [codes "Expense reports are due monthly."]
              (codes "Expense reports are due monthly.") Scenario.st_indexed)
    as (st' & Hrun & Hout); try (vm_compute; reflexivity).
  exists st'. split; [exact Hrun|]. rewrite Hout. vm_compute. reflexivity.
Defined.

End Extraction.

(** ** The web search *)
Module WebSearch.
Import Supervisor Frame Run PyFacts.

Lemma collect_results_length n divs : forall acc,
  (List.length (collect_results n divs acc) <= List.length acc + List.length divs)%nat.
Proof.
  induction divs as [|d divs IH]; intros acc; cbn [collect_results List.length].
  - lia.
  - destruct (parse_div d) as [r|].
    + cbv zeta. destruct (n <=? List.length (acc ++ [r]))%nat.
      * rewrite length_app. cbn. lia.
      * specialize (IH (acc ++ [r])). rewrite length_app in IH. cbn in IH. lia.
    + specialize (IH acc). lia.
Qed.

(** X20: [search_web] returns in every case, and what it returns is
    either at most [num_results] results or the single entry titled
    [Error] (for a request that raises or a status other than 200); it
    writes nothing to the disk. *)
Theorem search_web_is_bounded svc query num_results st :
  exists results st',
    search_web svc query num_results st = (Ok results, st')
    /\ ((List.length results <= num_results)%nat
        \/ exists snippet, results = [error_result snippet])
    /\ disk st' = disk st.
Proof.
  unfold search_web, bind, try_except, call, print.
  destruct (requests_get svc (search_url query)) as [response | e]; cbn [fst snd].
  - destruct (negb (status_code response =? 200)%N); unfold ret;
      eexists _, _; (split; [reflexivity|]); (split; [|now destruct (captured st)]).
    + right. eauto.
    + left. etransitivity; [apply collect_results_length|].
      cbn [List.length]. rewrite length_firstn. lia.
  - unfold ret. eexists _, _. split; [reflexivity|]. split; [right; eauto|].
    now destruct (captured st).
Qed.

(** Splitting at a separator that is not there, or is there. *)
Lemma split_go_absent a sep cur s :
  contains (a :: sep) s = false -> split_go (a :: sep) 0 cur s = [reverse cur ++ s].
Proof.
  revert cur. induction s as [|x s IH]; intros cur H.
  - cbn [split_go]. now rewrite app_nil_r.
  - cbn [contains] in H. apply orb_false_iff in H as [Hs Hc].
    cbn [split_go]. rewrite Hs, (IH _ Hc). now rewrite reverse_cons, <- app_assoc.
Qed.

Lemma split_go_present a sep cur s :
  contains (a :: sep) s = true ->
  exists p q rest, split_go (a :: sep) 0 cur s = p :: q :: rest.
Proof.
  revert cur. induction s as [|x s IH]; intros cur H.
  - discriminate.
  - cbn [contains] in H. cbn [split_go]. destruct (startswith (a :: sep) (x :: s)).
    + destruct (split_go (a :: sep) (List.length (a :: sep) - 1) [] s) as [|q rest] eqn:E.
      * now apply split_go_nonempty in E.
      * eauto.
    + apply IH. exact H.
Qed.

Lemma hd_split_go_single c cur s :
  hd [] (split_go [c] 0 cur s) = reverse cur ++ takewhile (fun x => negb (x =? c)%N) s.
Proof.
  revert cur. induction s as [|x s IH]; intros cur.
  - cbn [split_go hd takewhile]. now rewrite app_nil_r.
  - rewrite split_go_single_step. cbn [takewhile]. rewrite (N.eqb_sym x c).
    destruct (c =? x)%N; cbn [negb hd].
    + now rewrite app_nil_r.
    + rewrite IH. now rewrite reverse_cons, <- app_assoc.
Qed.

(** The pieces of a redirect link around its first [q=]. *)
Lemma split_redirect tail :
  split (codes "q=") (codes "/url?q=" ++ tail)
  = codes "/url?" :: split (codes "q=") tail.
Proof.
  change (codes "q=") with [113%N; 61%N].
  change (codes "/url?q=") with [47%N; 117%N; 114%N; 108%N; 63%N; 113%N; 61%N].
  change (codes "/url?") with [47%N; 117%N; 114%N; 108%N; 63%N].
  reflexivity.
Qed.

(** X21: the link of a result block.  A link that does not start with
    [/url?] is kept as it is.  A redirect link [/url?q=TARGET...] whose
    target holds no further [q=] gives the target up to its first [&].  A
    redirect link that holds no [q=] makes the block raise, and the block
    is skipped. *)
Theorem redirect_links_are_unwrapped d :
  let url := default [] (link_href d) in
  (startswith (codes "/url?") url = false ->
     exists r, parse_div d = Some r /\ sr_url r = url)
  /\ (forall tail,
        url = codes "/url?q=" ++ tail ->
        contains (codes "q=") tail = false ->
        exists r,
          parse_div d = Some r
          /\ sr_url r = takewhile (fun c => negb (c =? 38)%N) tail)
  /\ (parse_div d = None <->
      startswith (codes "/url?") url = true /\ contains (codes "q=") url = false).
Proof.
  intros url. unfold parse_div. fold url. cbv zeta. split; [|split; [|split]].
  - intros ->. eauto.
  - intros tail -> Hq.
    assert (Hs : startswith (codes "/url?") (codes "/url?q=" ++ tail) = true)
      by exact (startswith_app (codes "/url?") (codes "q=" ++ tail)).
    rewrite Hs, split_redirect.
    change (codes "q=") with [113%N; 61%N] in *.
    unfold split at 1. rewrite (split_go_absent _ _ _ _ Hq). cbn [nth_error].
    eexists. split; [reflexivity|]. cbn [sr_url reverse app].
    change (codes "&") with [38%N]. unfold split.
    now rewrite hd_split_go_single.
  - destruct (startswith (codes "/url?") url) eqn:Es; [|discriminate].
    intros H. split; [reflexivity|].
    destruct (contains (codes "q=") url) eqn:Ec; [|reflexivity].
    change (codes "q=") with [113%N; 61%N] in *. unfold split in H.
    destruct (split_go_present _ _ [] _ Ec) as (p & q & rest & E). rewrite E in H.
    discriminate.
  - intros [-> Hc]. change (codes "q=") with [113%N; 61%N] in *. unfold split.
    now rewrite (split_go_absent _ _ _ _ Hc).
Qed.

(** X22: a page that was fetched with status 200 but whose cleaned text
    begins with [Error] or with [Failed] is taken for a failed fetch: the
    result contributes no content, and the loop goes on with the pieces it
    had. *)
Theorem page_starting_with_error_is_dropped svc r rest pieces response st :
  sr_url r <> [] ->
  requests_get svc (sr_url r) = Ok response ->
  status_code response = 200%N ->
  startswith (codes "Error") (clean_page (page_text response))
  || startswith (codes "Failed") (clean_page (page_text response)) = true ->
  exists st1,
    fetch_pieces svc (r :: rest) pieces st = fetch_pieces svc rest pieces st1.
Proof.
  intros Hurl Hget Hstatus Hstart. cbn [fetch_pieces]. unfold bind at 1.
  unfold print at 1. cbn iota beta.
  destruct (sr_url r) as [|c url] eqn:Eurl; [congruence|].
  unfold bind at 1. rewrite Escalation.fetch_webpage_content_run, Hget, Hstatus.
  cbn [negb N.eqb Pos.eqb]. cbn iota.
  destruct (clean_page (page_text response)) as [|x content]; [eauto|].
  apply orb_true_iff in Hstart as [-> | ->]; cbn [negb andb]; eauto.
  rewrite andb_false_r. eauto.
Qed.

Lemma page_starting_with_error_is_dropped_witness :
  exists st1,
    fetch_pieces WebExamples.svc_error_page
      [ {| sr_title := codes "Travel policy";
           sr_url := codes "https://docs.example/travel";
           sr_snippet := codes "No description" |} ] [] Scenario.st0
    = fetch_pieces WebExamples.svc_error_page [] [] st1.
Proof.
  apply (page_starting_with_error_is_dropped WebExamples.svc_error_page
           {| sr_title := codes "Travel policy";
              sr_url := codes "https://docs.example/travel";
              sr_snippet := codes "No description" |}
           [] [] WebExamples.error_page Scenario.st0).
  - vm_compute. discriminate.
  - vm_compute. reflexivity.
  - vm_compute. reflexivity.
  - vm_compute. reflexivity.
Defined.

End WebSearch.

(** ** The console conversation *)
Module ConsoleFacts.
Import Supervisor Console Frame Run Writes.

Lemma grows_route_query svc query : preserves grows (route_query svc query).
Proof.
  unfold route_query, classify_query, respond_product, respond_learning,
    respond_org_chart, respond_workplace_comms, respond_onboarding, respond_default.
  pose proof (frame_kb_answer grows). pose proof (frame_search_online grows).
  frame.
Qed.

Lemma same_disk_on_failure svc query e st :
  classify_completion svc query = Raise e -> route_query svc query st = (Raise e, st).
Proof.
  intros H. unfold route_query, classify_query, bind, call. now rewrite H.
Qed.

(** One turn of the loop that is not an exit word. *)
Lemma conversation_turn svc user_input rest st :
  captured st = None -> is_exit user_input = false ->
  exists st1,
    conversation svc (user_input :: rest) st = conversation svc rest st1
    /\ captured st1 = None
    /\ exists shown, stdout st1 = stdout st ++ PROMPT ++ shown.
Proof.
  intros Hcap Hexit. cbn [conversation]. unfold bind at 1. unfold write. rewrite Hcap, Hexit.
  set (st0 := set_stdout (stdout st ++ PROMPT) st).
  assert (Hcap0 : captured st0 = None) by exact Hcap.
  pose proof (Restoring.keeps_route_query svc user_input st0 Hcap0) as Hk.
  pose proof (grows_route_query svc user_input st0) as [shown Hg].
  unfold bind at 1. unfold try_except.
  destruct (route_query svc user_input st0) as [[[] | e] s1]; cbn [snd] in Hk, Hg.
  - exists s1. split; [reflexivity|]. split; [exact Hk|].
    exists shown. rewrite Hg. cbn. now rewrite <- app_assoc.
  - unfold print. rewrite Hk. eexists. split; [reflexivity|]. split; [exact Hk|].
    exists (shown ++ (ERROR_PREFIX ++ e) ++ [NL]). cbn [stdout set_stdout].
    rewrite Hg. cbn. now rewrite <- !app_assoc.
Qed.

(** X23: a query whose classification call raises does not end the
    conversation: the loop writes the error after the prompt and goes on
    with the next line, the standard output in place and the disk as it
    was. *)
Theorem failed_query_is_reported svc user_input rest e st :
  captured st = None ->
  is_exit user_input = false ->
  classify_completion svc user_input = Raise e ->
  exists st1,
    conversation svc (user_input :: rest) st = conversation svc rest st1
    /\ stdout st1 = stdout st ++ PROMPT ++ ERROR_PREFIX ++ e ++ [NL]
    /\ captured st1 = None
    /\ disk st1 = disk st.
Proof.
  intros Hcap Hexit Hfail. cbn [conversation]. unfold bind at 1. unfold write.
  rewrite Hcap, Hexit. unfold bind at 1. unfold try_except.
  rewrite (same_disk_on_failure svc user_input e _ Hfail).
  unfold print. cbn [captured set_stdout]. rewrite Hcap.
  eexists. split; [reflexivity|]. cbn. now rewrite <- !app_assoc.
Qed.

Lemma failed_query_is_reported_witness :
  exists st1,
    conversation Scenario.svc_classifier_down [Scenario.QUERY; codes "exit"] Scenario.st0
    = conversation Scenario.svc_classifier_down [codes "exit"] st1
    /\ stdout st1 = PROMPT ++ ERROR_PREFIX ++ codes "Connection error." ++ [NL]
    /\ captured st1 = None
    /\ disk st1 = disk Scenario.st0.
Proof.
  apply (failed_query_is_reported Scenario.svc_classifier_down Scenario.QUERY
           [codes "exit"] (codes "Connection error.") Scenario.st0);
    vm_compute; reflexivity.
Defined.

(** X24: the conversation ends at the first exit word ([exit], [quit] or
    [bye], in any case), with the goodbye line as the last thing written:
    whatever the services do for the lines before it, [main] returns, the
    standard output is in place, and the lines after the exit word are not
    read.  An input that ends without an exit word ends [main] with the
    [EOFError] of [input]. *)
Theorem conversation_ends_at_exit svc startup before word after st :
  captured st = None ->
  forallb (fun line => negb (is_exit line)) before = true ->
  is_exit word = true ->
  (exists st' shown,
      main svc startup (before ++ word :: after) st = (Ok tt, st')
      /\ stdout st' = stdout st ++ shown ++ PROMPT ++ GOODBYE ++ [NL]
      /\ captured st' = None)
  /\ (exists st', main svc startup before st = (Raise EOF_ERROR, st')).
Proof.
  intros Hcap Hbefore Hword.
  assert (Hstart : exists st0 shown0,
            forall lines, main svc startup lines st = conversation svc lines st0
            /\ captured st0 = None /\ stdout st0 = stdout st ++ shown0).
  { unfold main. eexists _, _. intros lines.
    unfold bind at 1. rewrite Routing.for_each_print by exact Hcap.
    unfold bind at 1. rewrite Routing.for_each_print by exact Hcap.
    split; [reflexivity|]. split; [exact Hcap|]. cbn [stdout set_stdout].
    rewrite <- app_assoc. reflexivity. }
  destruct Hstart as (st0 & shown0 & Hmain).
  destruct (Hmain before) as (_ & Hcap0 & Hout0).
  assert (Hloop : forall lines st1 shown1,
            captured st1 = None -> stdout st1 = stdout st ++ shown1 ->
            forallb (fun line => negb (is_exit line)) lines = true ->
            (forall tail, exists st2 shown2,
                conversation svc (lines ++ tail) st1 = conversation svc tail st2
                /\ captured st2 = None /\ stdout st2 = stdout st ++ shown2)).
  { induction lines as [|line lines IH]; intros st1 shown1 Hc1 Ho1 Hl tail.
    - exists st1, shown1. auto.
    - cbn [forallb] in Hl. apply andb_true_iff in Hl as [Hline Hl].
      apply negb_true_iff in Hline.
      destruct (conversation_turn svc line (lines ++ tail) st1 Hc1 Hline)
        as (st2 & E & Hc2 & shown & Ho2).
      destruct (IH st2 (shown1 ++ PROMPT ++ shown) Hc2) with (tail := tail)
        as (st3 & shown3 & E3 & Hc3 & Ho3); [|exact Hl|].
      + rewrite Ho2, Ho1. now rewrite <- !app_assoc.
      + exists st3, shown3. cbn [app]. rewrite E, E3. auto. }
  split.
  - destruct (Hloop before st0 shown0 Hcap0 Hout0 Hbefore (word :: after))
      as (st2 & shown2 & E & Hc2 & Ho2).
    destruct (Hmain (before ++ word :: after)) as (-> & _). rewrite E.
    cbn [conversation]. unfold bind, write, print. rewrite Hc2, Hword.
    cbn [captured set_stdout]. rewrite Hc2.
    eexists _, shown2. split; [reflexivity|]. split; [|exact Hc2].
    cbn [stdout set_stdout]. rewrite Ho2. now rewrite <- !app_assoc.
  - destruct (Hloop before st0 shown0 Hcap0 Hout0 Hbefore [])
      as (st2 & shown2 & E & Hc2 & Ho2).
    destruct (Hmain before) as (-> & _). rewrite app_nil_r in E. rewrite E.
    cbn [conversation]. unfold bind, write, raise. eauto.
Qed.

Lemma conversation_ends_at_exit_witness :
  (exists st' shown,
      main Scenario.svc_classifier_down [] [Scenario.QUERY; codes "QUIT"; codes "more"]
        Scenario.st0 = (Ok tt, st')
      /\ stdout st' = stdout Scenario.st0 ++ shown ++ PROMPT ++ GOODBYE ++ [NL]
      /\ captured st' = None)
  /\ (exists st',
        main Scenario.svc_classifier_down [] [Scenario.QUERY] Scenario.st0
        = (Raise EOF_ERROR, st')).
Proof.
  apply (conversation_ends_at_exit Scenario.svc_classifier_down []
           [Scenario.QUERY] (codes "QUIT") [codes "more"] Scenario.st0);
    vm_compute; reflexivity.
Defined.

End ConsoleFacts.

(** ** The Streamlit page *)
Module AppFacts.
Import Supervisor App Frame Run.

Lemma returns_responders svc query :
  returns (respond_product svc query) /\ returns (respond_learning svc query)
  /\ returns (respond_org_chart svc query) /\ returns (respond_workplace_comms svc query)
  /\ returns (respond_onboarding svc query) /\ returns respond_default.
Proof.
  unfold respond_product, respond_learning, respond_org_chart,
    respond_workplace_comms, respond_onboarding, respond_default.
  repeat split; frame.
Qed.

(** With a reply of the classifier in hand, [route_query] returns. *)
Lemma route_query_returns svc query reply st :
  classify_completion svc query = Ok reply ->
  exists st', route_query svc query st = (Ok tt, st').
Proof.
  intros Hreply. unfold route_query, classify_query, bind at 1, bind at 1, call.
  rewrite Hreply.
  destruct (Classification.parse_classification_total reply)
    as (agent_type & confidence & -> & _).
  destruct (returns_responders svc query) as (Hp & Hl & Ho & Hw & Hb & Hd).
  repeat match goal with |- context [if ?b then _ else _] => destruct b end;
    match goal with |- exists st', ?m ?s = _ =>
      let H := fresh in
      assert (H : returns m) by assumption;
      destruct (returns_run m s H) as ([] & st' & ->); eauto
    end.
Qed.

(** X25: the page shows no answer of the agents.  [route_query] prints
    what the responders say and returns nothing, so for every query whose
    classification call returns, [process_query] gives [None] and the
    assistant message is the apology, whatever was printed; when the
    classification call raises, [process_query] gives the error text, and
    this is what is formatted and shown.  Neither step raises. *)
Theorem page_shows_no_answer svc format_exc format_response query st :
  (forall reply,
      classify_completion svc query = Ok reply ->
      exists st',
        process_query svc format_exc query st = (Ok None, st')
        /\ assistant_message svc format_exc format_response query st = (Ok SORRY, st'))
  /\ (forall e,
        classify_completion svc query = Raise e ->
        let report := codes "Error processing query: " ++ e ++ [NL; NL] ++ format_exc e in
        process_query svc format_exc query st = (Ok (Some report), st)
        /\ assistant_message svc format_exc format_response query st
           = (Ok (format_response report), st)).
Proof.
  split.
  - intros reply Hreply.
    destruct (route_query_returns svc query reply st Hreply) as [st' E].
    exists st'.
    assert (Hp : process_query svc format_exc query st = (Ok None, st')).
    { unfold process_query, try_except. now rewrite (bind_ok _ _ _ _ _ E). }
    split; [exact Hp|]. unfold assistant_message. now rewrite (bind_ok _ _ _ _ _ Hp).
  - intros e Hfail report.
    assert (Hp : process_query svc format_exc query st = (Ok (Some report), st)).
    { unfold process_query, try_except.
      now rewrite (bind_raise _ _ _ _ _ (ConsoleFacts.same_disk_on_failure svc query e st Hfail)). }
    split; [exact Hp|]. unfold assistant_message. rewrite (bind_ok _ _ _ _ _ Hp).
    subst report. change (codes "Error processing query: ") with
      (69%N :: List.tl (codes "Error processing query: ")). reflexivity.
Qed.

End AppFacts.

(** ** The cleaned text of a page *)
Module PageText.
Import Supervisor PyFacts.












End PageText.

(** ** The learning branch over [linkedin.py] *)
Module Learning.
Import Supervisor Linkedin Frame Run.

Lemma top_courses_shape results : forall courses,
  top_courses results = Ok courses ->
  (List.length courses <= List.length results)%nat
  /\ existsb is_course_error courses = false.
Proof.
  induction results as [|res results IH]; intros courses H; cbn [top_courses] in H.
  - injection H as <-. split; [cbn; lia | reflexivity].
  - destruct (o_title res), (o_link res); try discriminate.
    destruct (top_courses results) as [output|e]; [|discriminate].
    injection H as <-. destruct (IH output eq_refl) as [Hlen Herr].
    split; [cbn; lia | exact Herr].
Qed.

Lemma print_courses entries : forall st,
  captured st = None ->
  for_each entries (fun course => let* _ := print course in print (repeat 45%N 40)) st
  = (Ok tt, set_stdout (stdout st ++ concat (map shown_course entries)) st).
Proof.
  induction entries as [|entry entries IH]; intros st Hcap.
  - destruct st as [out cap d l]. cbn in Hcap. subst cap.
    unfold set_stdout. cbn. now rewrite app_nil_r.
  - cbn [for_each map concat]. unfold bind at 1. unfold bind at 1. unfold print at 1.
    rewrite Hcap. unfold print at 1. cbn [captured set_stdout]. rewrite Hcap.
    rewrite IH by exact Hcap. unfold set_stdout, shown_course. cbn.
    now rewrite <- !app_assoc.
Qed.

(** X27: the learning branch over the course search.  With the two
    functions of [linkedin.py] for its calls, the branch returns in every
    case and writes, after its banner: the not-found sentence when the
    search has no [organic_results]; the entries of the first three
    results, each followed by a rule of forty dashes, when every one of
    them has a title and a link (an entry whose description cannot be
    produced is still listed, with the reason); and the not-retrieved
    sentence when the search raises or one of the first three results
    lacks a title or a link.  A search that returns gives the single error
    entry or at most three courses and no error entry. *)
Theorem learning_branch_over_linkedin base svc query st :
  captured st = None ->
  (exists st',
      respond_learning (with_linkedin base svc) query st = (Ok tt, st')
      /\ stdout st'
         = stdout st ++ LEARNING_BANNER ++ [NL]
           ++ match get_dict svc (codes "site:linkedin.com/learning " ++ query) with
              | Ok None => NOT_FOUND ++ [NL]
              | Ok (Some organic_results) =>
                  match top_courses (firstn 3 organic_results) with
                  | Ok courses =>
                      concat (map (fun c => shown_course (course_entry svc c)) courses)
                  | Raise _ => NOT_RETRIEVED ++ [NL]
                  end
              | Raise _ => NOT_RETRIEVED ++ [NL]
              end)
  /\ (forall courses,
        search_linkedin_courses svc query = Ok courses ->
        courses = [CourseError NO_COURSES]
        \/ ((List.length courses <= 3)%nat /\ existsb is_course_error courses = false))
  /\ (forall courses,
        List.length (process_courses svc courses) = List.length courses).
Proof.
  intros Hcap. split; [|split].
  - unfold respond_learning. unfold bind at 1. unfold print at 1. rewrite Hcap.
    set (st0 := set_stdout (stdout st ++ LEARNING_BANNER ++ [NL]) st).
    assert (Hcap0 : captured st0 = None) by exact Hcap.
    unfold try_except, bind at 1, call.
    change (Supervisor.search_linkedin_courses (with_linkedin base svc) query)
      with (Linkedin.search_linkedin_courses svc query).
    change (Supervisor.process_courses (with_linkedin base svc))
      with (fun courses => @Ok (list text) (Linkedin.process_courses svc courses)).
    unfold Linkedin.search_linkedin_courses.
    destruct (get_dict svc (codes "site:linkedin.com/learning " ++ query))
      as [[organic_results|]|e].
    + destruct (top_courses (firstn 3 organic_results)) as [courses|e] eqn:Etop.
      * destruct (top_courses_shape _ _ Etop) as [_ ->].
        unfold bind at 1. cbn beta.
        unfold Linkedin.process_courses. rewrite print_courses by exact Hcap0.
        eexists. split; [reflexivity|]. cbn [stdout set_stdout st0].
        rewrite map_map. now rewrite <- !app_assoc.
      * unfold print. rewrite Hcap0. eexists. split; [reflexivity|].
        cbn [stdout set_stdout st0]. now rewrite <- !app_assoc.
    + cbn [existsb is_course_error orb]. unfold print. rewrite Hcap0.
      eexists. split; [reflexivity|]. cbn [stdout set_stdout st0].
      now rewrite <- !app_assoc.
    + unfold print. rewrite Hcap0. eexists. split; [reflexivity|].
      cbn [stdout set_stdout st0]. now rewrite <- !app_assoc.
  - intros courses H. unfold Linkedin.search_linkedin_courses in H.
    destruct (get_dict svc _) as [[organic_results|]|e]; [| |discriminate].
    + right. destruct (top_courses_shape _ _ H) as [Hlen Herr]. split; [|exact Herr].
      rewrite length_firstn in Hlen. lia.
    + left. now injection H as <-.
  - intros courses. apply length_map.
Qed.

Lemma learning_branch_over_linkedin_witness :
  exists st',
    respond_learning (with_linkedin Scenario.svc_hedging two_courses)
      (codes "python") Scenario.st0 = (Ok tt, st')
    /\ stdout st'
       = LEARNING_BANNER ++ [NL]
         ++ shown_course
              (codes "- Python Essential Training: https://www.linkedin.com/learning/python"
               ++ [NL] ++ codes "  " ++ [9888%N; 65039%N]
               ++ codes " Could not enhance: Connection error.")
         ++ shown_course
              (codes "- Learning Python: https://www.linkedin.com/learning/learning-python"
               ++ [NL] ++ codes "  " ++ [9888%N; 65039%N]
               ++ codes " Could not enhance: Connection error.").
Proof.
  destruct (learning_branch_over_linkedin Scenario.svc_hedging two_courses
              (codes "python") Scenario.st0 eq_refl) as [(st' & Hrun & Hout) _].
  exists st'. split; [exact Hrun|]. rewrite Hout. vm_compute. reflexivity.
Defined.

End Learning.

(** ** The keyword search of the onboarding documents *)
Module OnboardingFacts.
Import Supervisor Onboarding Fallback Frame Run.

Lemma insert_hit_in h sorted x :
  In x (insert_hit h sorted) <-> x = h \/ In x sorted.
Proof.
  induction sorted as [|h' rest IH]; cbn [insert_hit In].
  - intuition.
  - destruct (h_score h <? h_score h')%nat; cbn [In]; rewrite ?IH; intuition.
Qed.

Lemma sort_hits_in results x : In x (sort_hits results) <-> In x results.
Proof.
  induction results as [|h results IH]; cbn [sort_hits fold_right In]; [reflexivity|].
  fold (sort_hits results). rewrite insert_hit_in, IH. intuition.
Qed.

Lemma insert_hit_length h sorted :
  List.length (insert_hit h sorted) = S (List.length sorted).
Proof.
  induction sorted as [|h' rest IH]; cbn [insert_hit]; [reflexivity|].
  destruct (h_score h <? h_score h')%nat; cbn [List.length]; now rewrite ?IH.
Qed.

Lemma descending_insert h sorted :
  descending (map h_score sorted) -> descending (map h_score (insert_hit h sorted)).
Proof.
  induction sorted as [|h' rest IH]; cbn [insert_hit map descending].
  - intros _. split; [constructor | exact I].
  - intros [Hall Hrest]. destruct (Nat.ltb_spec (h_score h) (h_score h')) as [Hlt | Hge];
      cbn [map descending].
    + split; [|now apply IH].
      apply List.Forall_forall. intros y Hy. apply in_map_iff in Hy as (x & <- & Hx).
      apply insert_hit_in in Hx as [-> | Hx]; [lia|].
      rewrite List.Forall_forall in Hall. apply Hall. now apply in_map.
    + split; [|split; assumption].
      constructor; [exact Hge|].
      eapply List.Forall_impl; [|exact Hall]. cbn beta. intros; lia.
Qed.

Lemma descending_sort results : descending (map h_score (sort_hits results)).
Proof.
  induction results as [|h results IH]; cbn [sort_hits fold_right]; [exact I|].
  now apply descending_insert.
Qed.

Lemma descending_app a b :
  descending (a ++ b) ->
  descending a /\ forall x y, In x a -> In y b -> (y <= x)%nat.
Proof.
  induction a as [|x0 a IH]; cbn [app descending].
  - intros _. split; [exact I | intros x y []].
  - intros [Hall Hd]. destruct (IH Hd) as [Ha Hab].
    apply Forall_app in Hall as [Hall_a Hall_b]. split; [split; assumption|].
    intros x y [<- | Hx] Hy; [|now apply Hab].
    rewrite List.Forall_forall in Hall_b. now apply Hall_b.
Qed.

Lemma section_hits_in str_lower label items query_terms h :
  In h (section_hits str_lower label items query_terms) ->
  exists key content,
    In (key, content) items /\ key <> codes "full_text"
    /\ h = {| h_content := content;
              h_score := score_of query_terms (str_lower content);
              h_source := label ++ codes " - " ++ key |}
    /\ (1 <= h_score h)%nat.
Proof.
  unfold section_hits. intros H. apply in_flat_map in H as ([key content] & Hin & H).
  exists key, content. unfold str_eq in H. destruct (bool_decide_reflect (key = codes "full_text")) as [|Hne];
    [destruct H|].
  cbv zeta in H. destruct (Nat.ltb_spec 0 (score_of query_terms (str_lower content)));
    [|destruct H].
  destruct H as [<- | []]. cbn [h_score]. auto with arith.
Qed.

Lemma section_hits_no_terms str_lower label items :
  section_hits str_lower label items [] = [].
Proof.
  unfold section_hits. induction items as [|[key content] items IH]; [reflexivity|].
  cbn [flat_map]. rewrite IH. now destruct (str_eq key (codes "full_text")).
Qed.

(** X28: what [simple_search] returns: at most five entries, from the
    highest score to the lowest; each is a section of one of the two
    documents other than [full_text], with the number of query words found
    in its lower-cased text as its score, at least one; no section left
    out scores higher than a section returned; and a query without a word
    finds nothing. *)
Theorem simple_search_ranks str_lower d query :
  let results := simple_search str_lower d query in
  (List.length results <= 5)%nat
  /\ descending (map h_score results)
  /\ Forall (fun h =>
       exists label items key content,
         ((label, items) = (codes "First Year Checklist", first_year d)
          \/ (label, items) = (codes "Data Science Onboarding", data_science d))
         /\ In (key, content) items /\ key <> codes "full_text"
         /\ h = {| h_content := content;
                   h_score := score_of (words (str_lower query)) (str_lower content);
                   h_source := label ++ codes " - " ++ key |}
         /\ (1 <= h_score h)%nat) results
  /\ (forall h r,
        In h (candidates str_lower d query) -> ~ In h results -> In r results ->
        (h_score h <= h_score r)%nat)
  /\ (words (str_lower query) = [] -> results = []).
Proof.
  intros results. subst results. unfold simple_search.
  split; [apply firstn_le_length|]. split; [|split; [|split]].
  - pose proof (descending_sort (candidates str_lower d query)) as H.
    rewrite <- (firstn_skipn 5 (sort_hits _)), map_app in H.
    now apply descending_app in H.
  - apply List.Forall_forall. intros h Hin.
    assert (Hc : In h (candidates str_lower d query)).
    { apply sort_hits_in. rewrite <- (firstn_skipn 5 (sort_hits _)).
      apply in_or_app. now left. }
    unfold candidates in Hc. cbv zeta in Hc. apply in_app_or in Hc as [Hc | Hc];
      apply section_hits_in in Hc as (key & content & Hitem & Hkey & Hh & Hs).
    + exists (codes "First Year Checklist"), (first_year d), key, content. auto.
    + exists (codes "Data Science Onboarding"), (data_science d), key, content. auto 6.
  - intros h r Hh Hnot Hr.
    pose proof (descending_sort (candidates str_lower d query)) as H.
    rewrite <- (firstn_skipn 5 (sort_hits _)), map_app in H.
    apply descending_app in H as [_ H]. apply H; [now apply in_map|]. apply in_map.
    apply sort_hits_in in Hh. rewrite <- (firstn_skipn 5 (sort_hits _)) in Hh.
    apply in_app_or in Hh as [Hh | Hh]; [contradiction | exact Hh].
  - intros Hw. unfold candidates. rewrite Hw. cbv zeta.
    now rewrite !section_hits_no_terms.
Qed.

Lemma print_hits hits : forall st,
  captured st = None ->
  for_each (map (fun h => (h_source h, h_content h)) hits)
    (fun '(source, content) =>
       let* _ := print ([NL] ++ codes "- From " ++ source ++ codes ":") in
       print (if (300 <? List.length content)%nat
              then firstn 300 content ++ codes "..."
              else content)) st
  = (Ok tt, set_stdout (stdout st ++ concat (map shown_hit hits)) st).
Proof.
  induction hits as [|h hits IH]; intros st Hcap.
  - destruct st as [out cap dk lg]. cbn in Hcap. subst cap.
    unfold set_stdout. cbn. now rewrite app_nil_r.
  - cbn [for_each map concat]. unfold bind at 1. unfold bind at 1. unfold print at 1.
    rewrite Hcap. unfold print at 1. cbn [captured set_stdout]. rewrite Hcap.
    rewrite IH by exact Hcap. unfold set_stdout. cbn [stdout captured disk log].
    fold (excerpt (h_content h)). unfold shown_hit at 2.
    now rewrite <- !app_assoc.
Qed.

Lemma excerpt_length content : (List.length (excerpt content) <= 303)%nat.
Proof.
  unfold excerpt. destruct (Nat.ltb_spec 300 (List.length content)).
  - rewrite length_app, length_firstn. change (List.length (codes "...")) with 3%nat. lia.
  - lia.
Qed.

(** X29: the onboarding branch when its agent raises.  With
    [simple_search] for the fallback, the branch returns and writes, after
    its banner and the apology, either the sentence for an empty search or
    the heading and then, for each of the at most five entries, its source
    and its content cut after 300 characters (at most 303 with the dots);
    the standard output is in place afterwards. *)
Theorem onboarding_fallback_lists_hits base str_lower d query e st :
  captured st = None ->
  onboarding_run base query = Raise e ->
  let hits := simple_search str_lower d query in
  exists st',
    respond_onboarding (with_onboarding base str_lower d) query st = (Ok tt, st')
    /\ stdout st'
       = stdout st ++ ONBOARDING_BANNER ++ [NL] ++ APOLOGY ++ [NL]
         ++ match hits with
            | [] => NOTHING_FOUND ++ [NL]
            | _ :: _ => HEADER ++ [NL] ++ concat (map shown_hit hits)
            end
    /\ captured st' = None
    /\ (List.length hits <= 5)%nat
    /\ Forall (fun h => (List.length (excerpt (h_content h)) <= 303)%nat) hits.
Proof.
  intros Hcap Hrun hits.
  assert (Hlen : (List.length hits <= 5)%nat) by apply firstn_le_length.
  assert (Hex : Forall (fun h => (List.length (excerpt (h_content h)) <= 303)%nat) hits)
    by (apply List.Forall_forall; intros; apply excerpt_length).
  unfold respond_onboarding. unfold bind at 1. unfold print at 1. rewrite Hcap.
  unfold bind at 1. unfold redirect_stdout at 1.
  unfold try_except at 1. unfold bind at 1. unfold call at 1.
  change (Supervisor.onboarding_run (with_onboarding base str_lower d) query)
    with (Supervisor.onboarding_run base query). rewrite Hrun.
  unfold bind at 1. unfold restore_stdout at 1.
  unfold bind at 1. unfold print at 1. cbn [captured set_captured set_stdout].
  unfold try_except. unfold bind at 1. unfold call at 1.
  change (Supervisor.onboarding_simple_search (with_onboarding base str_lower d) query)
    with (@Ok (list (text * text))
            (map (fun h => (h_source h, h_content h)) hits)).
  destruct hits as [|h hits].
  - cbn [map]. unfold print. cbn [captured set_captured set_stdout].
    eexists. split; [reflexivity|]. cbn [stdout captured set_stdout set_captured].
    split; [now rewrite <- !app_assoc | auto].
  - cbn [map]. unfold bind at 1. unfold print at 1. cbn [captured set_captured set_stdout].
    rewrite <- (map_cons (fun h => (h_source h, h_content h)) h hits).
    rewrite print_hits by reflexivity.
    eexists. split; [reflexivity|]. cbn [stdout captured set_stdout set_captured].
    split; [now rewrite <- !app_assoc | auto].
Qed.

Lemma onboarding_fallback_lists_hits_witness :
  exists st',
    respond_onboarding svc_agent_down (codes "Which LAPTOP do I get") Scenario.st0
    = (Ok tt, st')
    /\ stdout st'
       = ONBOARDING_BANNER ++ [NL] ++ APOLOGY ++ [NL] ++ HEADER ++ [NL]
         ++ [NL] ++ codes "- From First Year Checklist - day1:" ++ [NL]
         ++ codes "Day 1: get your laptop." ++ [NL]
         ++ [NL] ++ codes "- From Data Science Onboarding - tools:" ++ [NL]
         ++ codes "Tools: laptop, VPN and the team chat." ++ [NL].
Proof.
  destruct (onboarding_fallback_lists_hits Scenario.svc_hedging lower handbook
              (codes "Which LAPTOP do I get") (codes "unavailable") Scenario.st0
              eq_refl eq_refl) as (st' & Hrun & Hout & _).
  exists st'. split; [exact Hrun|]. rewrite Hout. vm_compute. reflexivity.
Defined.

End OnboardingFacts.

(** ** The organisation chart: loading and looking up *)
Module OrgChartFacts.
Import Supervisor OrgChart.

Lemma dict_get_set_eq k v d : dict_get k (dict_set k v d) = Some v.
Proof.
  induction d as [|[k' v'] d IH]; cbn [dict_set dict_get].
  - unfold str_eq. now rewrite bool_decide_eq_true_2.
  - destruct (str_eq k' k) eqn:E; cbn [dict_get]; rewrite E; [reflexivity | exact IH].
Qed.

Lemma dict_get_set_ne k k' v d : k' <> k -> dict_get k (dict_set k' v d) = dict_get k d.
Proof.
  intros Hne. induction d as [|[k0 v0] d IH]; cbn [dict_set dict_get].
  - unfold str_eq. now rewrite bool_decide_eq_false_2.
  - destruct (str_eq k0 k') eqn:E; cbn [dict_get].
    + unfold str_eq in E. apply bool_decide_eq_true_1 in E. subst k0.
      unfold str_eq. now rewrite !bool_decide_eq_false_2.
    + now rewrite IH.
Qed.

(** The rows after the last row of a key leave its entry as it is. *)
Lemma load_rows_other str_lower k rows : forall data data',
  load_rows str_lower rows data = Ok data' ->
  Forall (fun r => forall k' emp', entry_of str_lower r = Ok (k', emp') -> k' <> k) rows ->
  dict_get k data' = dict_get k data.
Proof.
  induction rows as [|r rows IH]; intros data data' H Hall; cbn [load_rows] in H.
  - now injection H as <-.
  - destruct (entry_of str_lower r) as [[k' v]|e] eqn:Er; [|discriminate].
    apply Forall_cons in Hall as [Hr Hall].
    rewrite (IH _ _ H Hall). apply dict_get_set_ne. now apply (Hr k' v).
Qed.

Lemma load_rows_last str_lower before : forall r after k emp data data',
  load_rows str_lower (before ++ r :: after) data = Ok data' ->
  entry_of str_lower r = Ok (k, emp) ->
  Forall (fun r' => forall k' emp', entry_of str_lower r' = Ok (k', emp') -> k' <> k) after ->
  dict_get k data' = Some emp.
Proof.
  induction before as [|r0 before IH]; intros r after k emp data data' H Hr Hall;
    cbn [app load_rows] in H.
  - rewrite Hr in H. rewrite (load_rows_other _ _ _ _ _ H Hall). apply dict_get_set_eq.
  - destruct (entry_of str_lower r0) as [[k0 v0]|e]; [|discriminate].
    eapply IH; eauto.
Qed.

(** A row that cannot be read ends the loop with its exception. *)
Lemma load_rows_raises str_lower rows : forall data row e,
  In row rows -> entry_of str_lower row = Raise e ->
  exists e', load_rows str_lower rows data = Raise e'.
Proof.
  induction rows as [|r rows IH]; intros data row e Hin Hrow; [destruct Hin|].
  cbn [load_rows]. destruct (entry_of str_lower r) as [[k v]|e'] eqn:Er; [|eauto].
  destruct Hin as [-> | Hin]; [congruence|]. eapply IH; eauto.
Qed.

Lemma load_rows_returns str_lower rows : forall data,
  Forall (fun r => exists ke, entry_of str_lower r = Ok ke) rows ->
  exists data', load_rows str_lower rows data = Ok data'.
Proof.
  induction rows as [|r rows IH]; intros data Hall; cbn [load_rows]; [eauto|].
  apply Forall_cons in Hall as [[[k v] ->] Hall]. now apply IH.
Qed.

(** X30: loading the chart and looking up.  [load_org_chart] returns in
    every case.  When every row can be read, an employee is found by the
    name in any letter case: the lookup answers with the last row of that
    lower-cased name, also when other names contain it.  When the file
    cannot be read, or one row lacks a column or has no name, the chart is
    empty and no name is found. *)
Theorem loaded_employee_is_found svc str_lower file_path st :
  exists data st',
    load_org_chart svc str_lower file_path st = (Ok data, st')
    /\ disk st' = disk st
    /\ (forall rows before r after k emp name,
          dict_reader svc file_path = Ok rows ->
          Forall (fun r => exists ke, entry_of str_lower r = Ok ke) rows ->
          rows = before ++ r :: after ->
          entry_of str_lower r = Ok (k, emp) ->
          Forall (fun r' => forall k' emp',
                    entry_of str_lower r' = Ok (k', emp') -> k' <> k) after ->
          str_lower name = k ->
          lookup_employee str_lower data name = describe str_lower data emp)
    /\ (forall name,
          match dict_reader svc file_path with
          | Ok rows => exists row e, In row rows /\ entry_of str_lower row = Raise e
          | Raise _ => True
          end ->
          data = [] /\ lookup_employee str_lower data name = could_not_find name).
Proof.
  unfold load_org_chart, try_except, bind, call.
  destruct (dict_reader svc file_path) as [rows|e] eqn:Erows.
  - destruct (load_rows str_lower rows []) as [data|e] eqn:Eload.
    + unfold print, ret. eexists data, _. split; [reflexivity|].
      split; [now destruct (captured st)|]. split.
      * intros rows' before r after k emp name [= <-] _ -> Hr Hall Hname.
        unfold lookup_employee. rewrite Hname.
        now rewrite (load_rows_last _ _ _ _ _ _ _ _ Eload Hr Hall).
      * intros name (row & e & Hin & Hrow).
        destruct (load_rows_raises str_lower rows [] row e Hin Hrow) as [e' He'].
        congruence.
    + unfold print, ret. eexists [], _. split; [reflexivity|].
      split; [now destruct (captured st)|]. split.
      * intros rows' before r after k emp name [= <-] Hok.
        destruct (load_rows_returns str_lower rows [] Hok) as [data' Hd]. congruence.
      * intros name _. split; reflexivity.
  - unfold print, ret. eexists [], _. split; [reflexivity|].
    split; [now destruct (captured st)|]. split.
    + intros rows' before r after k emp name [=].
    + intros name _. split; reflexivity.
Qed.

Lemma loaded_employee_is_found_witness :
  exists data st',
    load_org_chart three_rows lower (codes "org_chart.csv") Scenario.st0 = (Ok data, st')
    /\ stdout st' = codes "Successfully loaded 2 employees from org chart" ++ [NL]
    /\ lookup_employee lower data (codes "Ada PARK")
       = codes "ADA PARK has the job title: Staff Engineer" ++ [NL]
         ++ codes "Their manager is Lin Zhou (Director)".
Proof.
  destruct (loaded_employee_is_found three_rows lower (codes "org_chart.csv") Scenario.st0)
    as (data & st' & Hrun & _ & Hfound & _).
  exists data, st'. split; [exact Hrun|].
  assert (Hdata : (Ok data, st')
                  = load_org_chart three_rows lower (codes "org_chart.csv") Scenario.st0)
    by (symmetry; exact Hrun).
  vm_compute in Hdata. injection Hdata as Hd Hs.
  split; [subst st'; vm_compute; reflexivity|].
  rewrite (Hfound _ [csv_line "Ada Park" "Engineer" "Lin Zhou";
                     csv_line "Lin Zhou" "Director" ""]
             (csv_line "ADA PARK" "Staff Engineer" "Lin Zhou") []
             (codes "ada park")
             {| e_name := codes "ADA PARK"; e_title := Some (codes "Staff Engineer");
                e_manager := Some (codes "Lin Zhou") |}
             (codes "Ada PARK") eq_refl).
  - subst data. vm_compute. reflexivity.
  - repeat constructor; eexists; vm_compute; reflexivity.
  - reflexivity.
  - vm_compute. reflexivity.
  - constructor.
  - vm_compute. reflexivity.
Defined.

End OrgChartFacts.
